(** * Match lifecycle, result processing and reporting of xyz-football-api

    A shallow embedding of the match service ([internal/service], the file
    holding [matchService]), the report service
    ([internal/service/report_service.go]), the repositories they call and the
    request binding of the HTTP handlers, followed by the properties of the
    match state machine, the score computation and the report computations.

    Conventions of the embedding:
    - [uuid.UUID] is a 128-bit value, modelled as [N]; [uuid.Nil] is [0].
    - Go's [int] is modelled as [Z]; scores only count list elements.
    - A database table is the list of its rows; a GORM soft delete sets the
      [DeletedAt] column, and every query of the repositories carries GORM's
      implicit [deleted_at IS NULL].  Timestamps are left out.
    - A repository call either finds its record or reports
      [gorm.ErrRecordNotFound]; an insert whose primary key is taken fails,
      and so does an insert of a number that does not fit its [int] column.
      Other storage failures (lost connections, the limits of the wire
      protocol on the size of one statement) are outside the model.
    - GORM's [Save] of a record first saves the associations the record has
      loaded and takes the foreign keys from them, then writes every
      column.
    - A service call is a function from the store to a result and the store
      it leaves behind: there is no transaction in the source, so the writes
      done before an error stay. *)

From stdpp Require Import gmap strings list fin_maps pretty sorting.
From Stdlib Require Import ZArith Permutation Lia.

Local Open Scope string_scope.
Local Open Scope list_scope.

(** ** pkg/errs *)

Module errs.

Record AppError := New { Code : Z; Message : string }.

Definition ErrBadRequest (message : string) : AppError := New 400 message.
Definition ErrNotFound (message : string) : AppError := New 404 message.
Definition ErrInternal (message : string) : AppError := New 500 message.

End errs.
Export errs.

(** ** internal/model *)

Module model.

Definition ValidMatchStatuses : list string := ["scheduled"; "completed"].

Record Team := {
  Team_ID : N;
  Team_Name : string;
  Team_DeletedAt : bool
}.

Record Player := {
  Player_ID : N;
  Player_TeamID : N;
  Player_Name : string;
  Player_DeletedAt : bool
}.

(** The columns of a row of [matches]. *)
Record Match := {
  Match_ID : N;
  HomeTeamID : N;
  AwayTeamID : N;
  MatchDate : string;
  MatchTime : string;
  HomeScore : Z;
  AwayScore : Z;
  Status : string;
  Match_DeletedAt : bool
}.

(** The columns of a row of [goals].  The generated primary key of a goal is
    never read by the services and is left out: goal rows are compared up to
    their identity. *)
Record Goal := {
  Goal_MatchID : N;
  Goal_PlayerID : N;
  Goal_TeamID : N;
  Minute : Z;
  Goal_DeletedAt : bool
}.

(** A goal with its preloaded [Player] and [Team] associations. *)
Record GoalDetails := {
  goal : Goal;
  Goal_Player : option Player;
  Goal_Team : option Team
}.

(** A match as a repository hands it out: the row with its preloaded
    associations ([Goals] stays empty unless it is preloaded). *)
Record MatchDetails := {
  row : Match;
  HomeTeam : option Team;
  AwayTeam : option Team;
  Goals : list GoalDetails
}.

End model.
Export model.

(** ** internal/dto *)

Module dto.

Record CreateMatchRequest := {
  Create_HomeTeamID : string;
  Create_AwayTeamID : string;
  Create_MatchDate : string;
  Create_MatchTime : string
}.

Record UpdateMatchRequest := {
  Update_HomeTeamID : string;
  Update_AwayTeamID : string;
  Update_MatchDate : string;
  Update_MatchTime : string
}.

Record GoalInput := {
  In_PlayerID : string;
  In_TeamID : string;
  In_Minute : Z
}.

Record MatchResultRequest := { In_Goals : list GoalInput }.

Record TeamResponse := { TR_ID : N; TR_Name : string }.

Record PlayerResponse := { PR_ID : N; PR_TeamID : N; PR_Name : string }.

Record GoalResponse := {
  GR_MatchID : N;
  GR_PlayerID : N;
  GR_TeamID : N;
  GR_Minute : Z;
  GR_Player : option PlayerResponse;
  GR_Team : option TeamResponse
}.

Record MatchResponse := {
  MR_ID : N;
  MR_HomeTeamID : N;
  MR_AwayTeamID : N;
  MR_MatchDate : string;
  MR_MatchTime : string;
  MR_HomeScore : Z;
  MR_AwayScore : Z;
  MR_Status : string;
  MR_HomeTeam : option TeamResponse;
  MR_AwayTeam : option TeamResponse;
  MR_Goals : list GoalResponse
}.

Record MatchReportGoal := {
  RG_PlayerName : string;
  RG_TeamName : string;
  RG_Minute : Z
}.

Record TopScorerResponse := {
  TS_PlayerName : string;
  TS_TeamName : string;
  GoalsInMatch : Z
}.

Record MatchReportResponse := {
  Rep_MatchID : N;
  Rep_MatchDate : string;
  Rep_MatchTime : string;
  Rep_HomeTeam : option TeamResponse;
  Rep_AwayTeam : option TeamResponse;
  Rep_HomeScore : Z;
  Rep_AwayScore : Z;
  MatchResult : string;
  Rep_Goals : list MatchReportGoal;
  TopScorer : option TopScorerResponse;
  HomeTeamTotalWins : Z;
  AwayTeamTotalWins : Z
}.

End dto.
Export dto.

(** ** The store *)

Record DB := {
  teams : list Team;
  players : list Player;
  matches : list Match;
  goals : list Goal
}.

(** ** computeMatchResult (report_service.go) *)

Definition computeMatchResult (homeScore awayScore : Z) : string :=
  if (homeScore >? awayScore)%Z then "Home Win"
  else if (awayScore >? homeScore)%Z then "Away Win"
  else "Draw".

(** ** Rows with one column changed *)

Definition set_matches (ms : list Match) (db : DB) : DB :=
  {| teams := teams db; players := players db; matches := ms; goals := goals db |}.

Definition set_goals (gs : list Goal) (db : DB) : DB :=
  {| teams := teams db; players := players db; matches := matches db; goals := gs |}.

Definition with_schedule (home away : N) (date time : string) (m : Match) : Match :=
  {| Match_ID := Match_ID m; HomeTeamID := home; AwayTeamID := away;
     MatchDate := date; MatchTime := time;
     HomeScore := HomeScore m; AwayScore := AwayScore m;
     Status := Status m; Match_DeletedAt := Match_DeletedAt m |}.

Definition with_teams (home away : N) (m : Match) : Match :=
  {| Match_ID := Match_ID m; HomeTeamID := home; AwayTeamID := away;
     MatchDate := MatchDate m; MatchTime := MatchTime m;
     HomeScore := HomeScore m; AwayScore := AwayScore m;
     Status := Status m; Match_DeletedAt := Match_DeletedAt m |}.

Definition with_result (homeScore awayScore : Z) (status : string) (m : Match) : Match :=
  {| Match_ID := Match_ID m; HomeTeamID := HomeTeamID m; AwayTeamID := AwayTeamID m;
     MatchDate := MatchDate m; MatchTime := MatchTime m;
     HomeScore := homeScore; AwayScore := awayScore;
     Status := status; Match_DeletedAt := Match_DeletedAt m |}.

Definition match_deleted (m : Match) : Match :=
  {| Match_ID := Match_ID m; HomeTeamID := HomeTeamID m; AwayTeamID := AwayTeamID m;
     MatchDate := MatchDate m; MatchTime := MatchTime m;
     HomeScore := HomeScore m; AwayScore := AwayScore m;
     Status := Status m; Match_DeletedAt := true |}.

Definition goal_deleted (g : Goal) : Goal :=
  {| Goal_MatchID := Goal_MatchID g; Goal_PlayerID := Goal_PlayerID g;
     Goal_TeamID := Goal_TeamID g; Minute := Minute g; Goal_DeletedAt := true |}.

Definition with_row (r : Match) (m : MatchDetails) : MatchDetails :=
  {| row := r; HomeTeam := HomeTeam m; AwayTeam := AwayTeam m; Goals := Goals m |}.

(** ** internal/repository *)

Module teamRepo.

Definition FindByID (id : N) (db : DB) : option Team :=
  List.find (λ t, (Team_ID t =? id)%N && negb (Team_DeletedAt t)) (teams db).

End teamRepo.

Module playerRepo.

Definition FindByID (id : N) (db : DB) : option Player :=
  List.find (λ p, (Player_ID p =? id)%N && negb (Player_DeletedAt p)) (players db).

End playerRepo.

Module goalRepo.

(** The live goal rows of a match. *)
Definition ofMatch (matchID : N) (db : DB) : list Goal :=
  List.filter (λ g, (Goal_MatchID g =? matchID)%N && negb (Goal_DeletedAt g)) (goals db).

(** The range of a column of type [int] (four bytes in PostgreSQL); Go's
    [int] has eight. *)
Definition fitsColumn (n : Z) : bool :=
  (-2147483648 <=? n)%Z && (n <=? 2147483647)%Z.

(** The rows of one [INSERT], appended to the table. *)
Definition insert (gs : list Goal) (db : DB) : DB :=
  match gs with
  | [] => db
  | _ => set_goals (goals db ++ gs) db
  end.

(** One [INSERT] for the whole batch: when the minute of a goal does not
    fit its column the statement fails and no row of the batch is stored. *)
Definition CreateBatch (gs : list Goal) (db : DB) : option DB :=
  if forallb (λ g, fitsColumn (Minute g)) gs then Some (insert gs db) else None.

(** A soft delete of every live goal of the match. *)
Definition DeleteByMatchID (matchID : N) (db : DB) : DB :=
  set_goals
    (map (λ g, if (Goal_MatchID g =? matchID)%N && negb (Goal_DeletedAt g)
               then goal_deleted g else g) (goals db))
    db.

End goalRepo.

Module matchRepo.

(** [ORDER BY minute asc]; SQL leaves the order of rows of equal minute
    open, here they keep the order of the table. *)
Fixpoint insertByMinute (g : GoalDetails) (l : list GoalDetails) : list GoalDetails :=
  match l with
  | [] => [g]
  | h :: t => if (Minute (goal g) <=? Minute (goal h))%Z then g :: h :: t
              else h :: insertByMinute g t
  end.

Definition orderByMinute (l : list GoalDetails) : list GoalDetails :=
  foldr insertByMinute [] l.

Definition findRow (id : N) (db : DB) : option Match :=
  List.find (λ m, (Match_ID m =? id)%N && negb (Match_DeletedAt m)) (matches db).

Definition preloadGoal (db : DB) (g : Goal) : GoalDetails :=
  {| goal := g;
     Goal_Player := playerRepo.FindByID (Goal_PlayerID g) db;
     Goal_Team := teamRepo.FindByID (Goal_TeamID g) db |}.

Definition FindByID (id : N) (db : DB) : option MatchDetails :=
  match findRow id db with
  | None => None
  | Some r => Some {| row := r;
                      HomeTeam := teamRepo.FindByID (HomeTeamID r) db;
                      AwayTeam := teamRepo.FindByID (AwayTeamID r) db;
                      Goals := [] |}
  end.

Definition FindByIDWithDetails (id : N) (db : DB) : option MatchDetails :=
  match findRow id db with
  | None => None
  | Some r => Some {| row := r;
                      HomeTeam := teamRepo.FindByID (HomeTeamID r) db;
                      AwayTeam := teamRepo.FindByID (AwayTeamID r) db;
                      Goals := orderByMinute
                                 (map (preloadGoal db) (goalRepo.ofMatch id db)) |}
  end.

(** An insert; it fails when the primary key is taken by any row, deleted
    or not. *)
Definition Create (m : Match) (db : DB) : option DB :=
  if existsb (λ r, (Match_ID r =? Match_ID m)%N) (matches db) then None
  else Some (set_matches (matches db ++ [m]) db).

(** The [UPDATE] that [Save] ends in: every column of the row with this
    primary key is written; the row is inserted when there is none.  The
    scores written count the goals of one request and fit their columns. *)
Definition write (m : Match) (db : DB) : DB :=
  if existsb (λ r, (Match_ID r =? Match_ID m)%N) (matches db)
  then set_matches (map (λ r, if (Match_ID r =? Match_ID m)%N then m else r) (matches db)) db
  else set_matches (matches db ++ [m]) db.

(** The foreign key [Save] writes for a belongs-to association: the primary
    key of the record that is loaded, and the field of the struct when none
    is loaded. *)
Definition foreignKey (loaded : option Team) (field : N) : N :=
  match loaded with
  | Some team => Team_ID team
  | None => field
  end.

(** The struct as [Save] leaves it.  The loaded [HomeTeam] and [AwayTeam]
    are saved first, by an [INSERT ... ON CONFLICT DO NOTHING] that changes
    no row of [teams] (a team that was loaded has its row), and their keys
    are put into [HomeTeamID] and [AwayTeamID]. *)
Definition saved (m : MatchDetails) : MatchDetails :=
  with_row (with_teams (foreignKey (HomeTeam m) (HomeTeamID (row m)))
                       (foreignKey (AwayTeam m) (AwayTeamID (row m)))
                       (row m)) m.

(** [r.db.Save(match)]: the struct behind the pointer as the call leaves
    it, and the store. *)
Definition Update (m : MatchDetails) (db : DB) : MatchDetails * DB :=
  let m := saved m in (m, write (row m) db).

Definition Delete (id : N) (db : DB) : DB :=
  set_matches
    (map (λ r, if (Match_ID r =? id)%N && negb (Match_DeletedAt r)
               then match_deleted r else r) (matches db))
    db.

(** The [WHERE] clause of [CountWins]. *)
Definition isWin (teamID : N) (m : Match) : bool :=
  negb (Match_DeletedAt m) &&
  (String.eqb (Status m) "completed" &&
   (((HomeTeamID m =? teamID)%N && (HomeScore m >? AwayScore m)%Z) ||
    ((AwayTeamID m =? teamID)%N && (AwayScore m >? HomeScore m)%Z))).

Definition CountWins (teamID : N) (db : DB) : Z :=
  Z.of_nat (length (List.filter (isWin teamID) (matches db))).

End matchRepo.

(** ** The service monad: a result, and the store left behind *)

Definition Svc (A : Type) : Type := DB → (AppError + A) * DB.

Definition ret {A} (a : A) : Svc A := λ db, (inr a, db).

Definition fail {A} (e : AppError) : Svc A := λ db, (inl e, db).

Definition bind {A B} (c : Svc A) (k : A → Svc B) : Svc B :=
  λ db, match c db with
        | (inl e, db') => (inl e, db')
        | (inr a, db') => k a db'
        end.

(** A repository read; [gorm.ErrRecordNotFound] becomes the given error. *)
Definition query {A} (q : DB → option A) (notFound : AppError) : Svc A :=
  λ db, match q db with
        | Some a => (inr a, db)
        | None => (inl notFound, db)
        end.

(** A repository write that cannot fail in the model. *)
Definition exec (w : DB → DB) : Svc unit := λ db, (inr tt, w db).

(** A repository write through a pointer: the record as the write leaves
    it. *)
Definition mutate {A} (w : DB → A * DB) : Svc A :=
  λ db, let '(a, db') := w db in (inr a, db').

(** A repository write that can fail; a failure is logged and surfaces as
    the generic internal error. *)
Definition tryExec (w : DB → option DB) : Svc unit :=
  λ db, match w db with
        | Some db' => (inr tt, db')
        | None => (inl (ErrInternal "Internal server error"), db)
        end.

(** The outcome of parsing, with the error to answer when it fails. *)
Definition parsed {A} (o : option A) (e : AppError) : Svc A :=
  match o with
  | Some a => ret a
  | None => fail e
  end.

Notation "'let*' x := c 'in' k" := (bind c (λ x, k))
  (at level 10, x name, c at level 100, k at level 200).
Notation "c ;;; k" := (bind c (λ _, k))
  (at level 100, k at level 200, right associativity).

(** ** The match service *)

Section matchService.

(** [uuid.Parse] of github.com/google/uuid: the identifier a string
    denotes, when it denotes one. *)
Variable uuid_Parse : string → option N.

Definition toTeamResponse (team : Team) : TeamResponse :=
  {| TR_ID := Team_ID team; TR_Name := Team_Name team |}.

Definition toPlayerResponse (player : Player) : PlayerResponse :=
  {| PR_ID := Player_ID player; PR_TeamID := Player_TeamID player;
     PR_Name := Player_Name player |}.

(** The responses carry the columns of the rows of this embedding: the
    generated identifier of a goal and the [created_at] and [updated_at]
    stamps are left out of rows and responses alike, so that two responses
    are compared up to goal identities and time stamps. *)
Definition toGoalResponse (g : GoalDetails) : GoalResponse :=
  {| GR_MatchID := Goal_MatchID (goal g);
     GR_PlayerID := Goal_PlayerID (goal g);
     GR_TeamID := Goal_TeamID (goal g);
     GR_Minute := Minute (goal g);
     GR_Player := option_map toPlayerResponse (Goal_Player g);
     GR_Team := option_map toTeamResponse (Goal_Team g) |}.

Definition toMatchResponse (m : MatchDetails) : MatchResponse :=
  {| MR_ID := Match_ID (row m);
     MR_HomeTeamID := HomeTeamID (row m);
     MR_AwayTeamID := AwayTeamID (row m);
     MR_MatchDate := MatchDate (row m);
     MR_MatchTime := MatchTime (row m);
     MR_HomeScore := HomeScore (row m);
     MR_AwayScore := AwayScore (row m);
     MR_Status := Status (row m);
     MR_HomeTeam := option_map toTeamResponse (HomeTeam m);
     MR_AwayTeam := option_map toTeamResponse (AwayTeam m);
     MR_Goals := map toGoalResponse (Goals m) |}.

(** [newID] is the identifier [Base.BeforeCreate] draws with [uuid.NewV7]. *)
Definition Create (newID : N) (req : CreateMatchRequest) : Svc MatchResponse :=
  let* homeTeamID := parsed (uuid_Parse (Create_HomeTeamID req))
                            (ErrBadRequest "Invalid home_team_id format") in
  let* awayTeamID := parsed (uuid_Parse (Create_AwayTeamID req))
                            (ErrBadRequest "Invalid away_team_id format") in
  if (homeTeamID =? awayTeamID)%N
  then fail (ErrBadRequest "Home team and away team cannot be the same")
  else
    query (teamRepo.FindByID homeTeamID) (ErrNotFound "Home team not found") ;;;
    query (teamRepo.FindByID awayTeamID) (ErrNotFound "Away team not found") ;;;
    let match_ := {| Match_ID := newID;
                     HomeTeamID := homeTeamID;
                     AwayTeamID := awayTeamID;
                     MatchDate := Create_MatchDate req;
                     MatchTime := Create_MatchTime req;
                     HomeScore := 0;
                     AwayScore := 0;
                     Status := "scheduled";
                     Match_DeletedAt := false |} in
    tryExec (matchRepo.Create match_) ;;;
    let* created := query (matchRepo.FindByID (Match_ID match_))
                          (ErrInternal "Internal server error") in
    ret (toMatchResponse created).

Definition Update (id : N) (req : UpdateMatchRequest) : Svc MatchResponse :=
  let* match_ := query (matchRepo.FindByID id) (ErrNotFound "Match not found") in
  if String.eqb (Status (row match_)) "completed"
  then fail (ErrBadRequest "Cannot update schedule of a completed match")
  else
    let* homeTeamID := parsed (uuid_Parse (Update_HomeTeamID req))
                              (ErrBadRequest "Invalid home_team_id format") in
    let* awayTeamID := parsed (uuid_Parse (Update_AwayTeamID req))
                              (ErrBadRequest "Invalid away_team_id format") in
    if (homeTeamID =? awayTeamID)%N
    then fail (ErrBadRequest "Home team and away team cannot be the same")
    else
      query (teamRepo.FindByID homeTeamID) (ErrNotFound "Home team not found") ;;;
      query (teamRepo.FindByID awayTeamID) (ErrNotFound "Away team not found") ;;;
      let match_ := with_row (with_schedule homeTeamID awayTeamID
                                (Update_MatchDate req) (Update_MatchTime req)
                                (row match_)) match_ in
      let* match_ := mutate (matchRepo.Update match_) in
      ret (toMatchResponse match_).

Definition Delete (id : N) : Svc unit :=
  query (matchRepo.FindByID id) (ErrNotFound "Match not found") ;;;
  exec (matchRepo.Delete id).

(** [fmt.Sprintf("Goal #%d: ...", i+1)]. *)
Definition goalMessage (i : nat) (text : string) : string :=
  "Goal #" +:+ pretty (i + 1)%nat +:+ ": " +:+ text.

(** The loop of [processResult] from goal number [i] on, with the running
    counters and the goals collected so far. *)
Fixpoint processGoals (match_ : MatchDetails) (inputs : list GoalInput) (i : nat)
    (homeScore awayScore : Z) (goals : list Goal) : Svc (Z * Z * list Goal) :=
  match inputs with
  | [] => ret (homeScore, awayScore, goals)
  | goalInput :: rest =>
    let* playerID := parsed (uuid_Parse (In_PlayerID goalInput))
                            (ErrBadRequest (goalMessage i "invalid player_id format")) in
    let* teamID := parsed (uuid_Parse (In_TeamID goalInput))
                          (ErrBadRequest (goalMessage i "invalid team_id format")) in
    if negb (teamID =? HomeTeamID (row match_))%N && negb (teamID =? AwayTeamID (row match_))%N
    then fail (ErrBadRequest (goalMessage i "team_id must be either home or away team"))
    else
      let* player := query (playerRepo.FindByID playerID)
                           (ErrNotFound (goalMessage i "player not found")) in
      if negb (Player_TeamID player =? teamID)%N
      then fail (ErrBadRequest
                   (goalMessage i "player does not belong to the specified team"))
      else
        let homeScore' := if (teamID =? HomeTeamID (row match_))%N
                          then (homeScore + 1)%Z else homeScore in
        let awayScore' := if (teamID =? HomeTeamID (row match_))%N
                          then awayScore else (awayScore + 1)%Z in
        processGoals match_ rest (S i) homeScore' awayScore'
          (goals ++ [ {| Goal_MatchID := Match_ID (row match_);
                         Goal_PlayerID := playerID;
                         Goal_TeamID := teamID;
                         Minute := In_Minute goalInput;
                         Goal_DeletedAt := false |} ])
  end.

Definition processResult (match_ : MatchDetails) (req : MatchResultRequest)
    : Svc MatchResponse :=
  let* counted := processGoals match_ (In_Goals req) 0 0%Z 0%Z [] in
  let '(homeScore, awayScore, goals) := counted in
  (if (0 <? length goals)%nat then tryExec (goalRepo.CreateBatch goals) else ret tt) ;;;
  let match_ := with_row (with_result homeScore awayScore "completed" (row match_))
                         match_ in
  let* match_ := mutate (matchRepo.Update match_) in
  let* updated := query (matchRepo.FindByIDWithDetails (Match_ID (row match_)))
                        (ErrInternal "Internal server error") in
  ret (toMatchResponse updated).

Definition SubmitResult (matchID : N) (req : MatchResultRequest) : Svc MatchResponse :=
  let* match_ := query (matchRepo.FindByID matchID) (ErrNotFound "Match not found") in
  if String.eqb (Status (row match_)) "completed"
  then fail (ErrBadRequest "Match result already submitted. Use PUT to update.")
  else processResult match_ req.

Definition UpdateResult (matchID : N) (req : MatchResultRequest) : Svc MatchResponse :=
  let* match_ := query (matchRepo.FindByID matchID) (ErrNotFound "Match not found") in
  if negb (String.eqb (Status (row match_)) "completed")
  then fail (ErrBadRequest
    "Cannot update result of a match that has not been completed. Use POST to submit first.")
  else
    exec (goalRepo.DeleteByMatchID matchID) ;;;
    processResult match_ req.

End matchService.

(** ** The match handler: path parameter, request binding, service call *)

Section matchHandler.

Variable uuid_Parse : string → option N.

(** The [uuid] tag of the request validator: whether a string has the
    canonical textual form of an identifier. *)
Variable isUUID : string → bool.

(** The text in which the validator reports the tags that failed. *)
Variable validationText : option (list GoalInput) → string.

(** [binding:"required,uuid"] *)
Definition validID (s : string) : bool := negb (String.eqb s "") && isUUID s.

(** [binding:"required,gte=1"]: not the zero value, and at least 1. *)
Definition validMinute (minute : Z) : bool := negb (minute =? 0)%Z && (1 <=? minute)%Z.

Definition validGoalInput (g : GoalInput) : bool :=
  validID (In_PlayerID g) && validID (In_TeamID g) && validMinute (In_Minute g).

(** [c.ShouldBindJSON(&req)] on a decoded body; [None] is a body without a
    [goals] array (a nil slice).  [binding:"required,dive"] wants the array
    present and every element valid. *)
Definition ShouldBindJSON (body : option (list GoalInput)) : string + MatchResultRequest :=
  match body with
  | None => inl (validationText body)
  | Some gs => if forallb validGoalInput gs then inr {| In_Goals := gs |}
               else inl (validationText body)
  end.

Definition parseUUID (param : string) : Svc N :=
  parsed (uuid_Parse param) (ErrBadRequest "Invalid UUID format for parameter").

Definition MatchHandler_SubmitResult (idParam : string) (body : option (list GoalInput))
    : Svc MatchResponse :=
  let* id := parseUUID idParam in
  match ShouldBindJSON body with
  | inl err => fail (ErrBadRequest ("Invalid request body: " +:+ err))
  | inr req => SubmitResult uuid_Parse id req
  end.

Definition MatchHandler_UpdateResult (idParam : string) (body : option (list GoalInput))
    : Svc MatchResponse :=
  let* id := parseUUID idParam in
  match ShouldBindJSON body with
  | inl err => fail (ErrBadRequest ("Invalid request body: " +:+ err))
  | inr req => UpdateResult uuid_Parse id req
  end.

End matchHandler.

(** ** The report service *)

(** A repository read that cannot fail in the model. *)
Definition read {A} (q : DB → A) : Svc A := λ db, (inr (q db), db).

Record playerGoalCount := {
  PlayerName : string;
  TeamName : string;
  Count : Z
}.

Definition counted (pg : playerGoalCount) : playerGoalCount :=
  {| PlayerName := PlayerName pg; TeamName := TeamName pg; Count := (Count pg + 1)%Z |}.

Definition playerNameOf (g : GoalDetails) : string :=
  match Goal_Player g with
  | Some p => Player_Name p
  | None => ""
  end.

Definition teamNameOf (g : GoalDetails) : string :=
  match Goal_Team g with
  | Some t => Team_Name t
  | None => ""
  end.

(** One round of the loop over [match.Goals]: the entry of the scorer is
    created on the first goal and its counter incremented. *)
Definition countGoal (playerGoals : gmap N playerGoalCount) (g : GoalDetails)
    : gmap N playerGoalCount :=
  let playerGoals :=
    match playerGoals !! Goal_PlayerID (goal g) with
    | None => <[Goal_PlayerID (goal g) :=
                 {| PlayerName := playerNameOf g; TeamName := teamNameOf g; Count := 0 |}]>
              playerGoals
    | Some _ => playerGoals
    end in
  alter counted (Goal_PlayerID (goal g)) playerGoals.

Definition tally (goals : list GoalDetails) : gmap N playerGoalCount :=
  fold_left countGoal goals ∅.

(** One round of the loop over [playerGoals]: the running maximum and the
    scorer holding it. *)
Definition toTopScorer (pg : playerGoalCount) : TopScorerResponse :=
  {| TS_PlayerName := PlayerName pg;
     TS_TeamName := TeamName pg;
     GoalsInMatch := Count pg |}.

Definition pickTop (acc : Z * option TopScorerResponse) (pg : playerGoalCount)
    : Z * option TopScorerResponse :=
  if (Count pg >? acc.1)%Z then (Count pg, Some (toTopScorer pg)) else acc.

Section reportService.

(** The order in which [range] visits the entries of a Go map; the language
    leaves it open. *)
Variable rangeOrder : gmap N playerGoalCount → list (N * playerGoalCount).

Definition topScorerOf (playerGoals : gmap N playerGoalCount) : option TopScorerResponse :=
  (fold_left pickTop (map snd (rangeOrder playerGoals)) (0%Z, None)).2.

Definition GetMatchReportByID (matchID : N) : Svc MatchReportResponse :=
  let* match_ := query (matchRepo.FindByIDWithDetails matchID)
                       (ErrNotFound "Match not found") in
  if negb (String.eqb (Status (row match_)) "completed")
  then fail (ErrBadRequest "Match has not been completed yet")
  else
    let reportGoals :=
      map (λ g, {| RG_PlayerName := playerNameOf g;
                   RG_TeamName := teamNameOf g;
                   RG_Minute := Minute (goal g) |}) (Goals match_) in
    let playerGoals := tally (Goals match_) in
    let topScorer := topScorerOf playerGoals in
    let* homeTeamWins := read (matchRepo.CountWins (HomeTeamID (row match_))) in
    let* awayTeamWins := read (matchRepo.CountWins (AwayTeamID (row match_))) in
    ret {| Rep_MatchID := Match_ID (row match_);
           Rep_MatchDate := MatchDate (row match_);
           Rep_MatchTime := MatchTime (row match_);
           Rep_HomeTeam := option_map toTeamResponse (HomeTeam match_);
           Rep_AwayTeam := option_map toTeamResponse (AwayTeam match_);
           Rep_HomeScore := HomeScore (row match_);
           Rep_AwayScore := AwayScore (row match_);
           MatchResult := computeMatchResult (HomeScore (row match_))
                                             (AwayScore (row match_));
           Rep_Goals := reportGoals;
           TopScorer := topScorer;
           HomeTeamTotalWins := homeTeamWins;
           AwayTeamTotalWins := awayTeamWins |}.

End reportService.

(** ** Sequences of operations *)

Inductive Op :=
  | OpCreate (newID : N) (req : CreateMatchRequest)
  | OpUpdate (id : N) (req : UpdateMatchRequest)
  | OpDelete (id : N)
  | OpSubmitResult (id : N) (req : MatchResultRequest)
  | OpUpdateResult (id : N) (req : MatchResultRequest).

(** The store an operation leaves behind, whether it succeeds or fails. *)
Definition step (uuid_Parse : string → option N) (db : DB) (op : Op) : DB :=
  match op with
  | OpCreate newID req => (Create uuid_Parse newID req db).2
  | OpUpdate id req => (Update uuid_Parse id req db).2
  | OpDelete id => (Delete id db).2
  | OpSubmitResult id req => (SubmitResult uuid_Parse id req db).2
  | OpUpdateResult id req => (UpdateResult uuid_Parse id req db).2
  end.

Definition run (uuid_Parse : string → option N) (ops : list Op) (db : DB) : DB :=
  fold_left (step uuid_Parse) ops db.

(** The row of [matches] with a given primary key, deleted or not. *)
Definition rowOf (id : N) (db : DB) : option Match :=
  List.find (λ m, (Match_ID m =? id)%N) (matches db).

(** ** The quantities the properties speak about *)

(** The number of submitted goals whose [team_id] denotes a given team. *)
Definition goalsFor (uuid_Parse : string → option N) (teamID : N)
    (inputs : list GoalInput) : Z :=
  Z.of_nat (length (List.filter
    (λ g, match uuid_Parse (In_TeamID g) with
          | Some t => (t =? teamID)%N
          | None => false
          end) inputs)).

(** The number of goals of a player among the goals of a match. *)
Definition goalsOf (playerID : N) (goals : list GoalDetails) : Z :=
  Z.of_nat (length (List.filter (λ g, (Goal_PlayerID (goal g) =? playerID)%N) goals)).


(** A team is on the winning side of a match: it is the home team of a
    "Home Win" or the away team of an "Away Win". *)
Definition onWinningSide (teamID : N) (m : Match) : Prop :=
  (HomeTeamID m = teamID ∧
   computeMatchResult (HomeScore m) (AwayScore m) = "Home Win") ∨
  (AwayTeamID m = teamID ∧
   computeMatchResult (HomeScore m) (AwayScore m) = "Away Win").

(** The completed matches of the store that a team has won. *)
Definition wonMatches (teamID : N) (db : DB) : list Match :=
  filter (λ m, Match_DeletedAt m = false ∧ Status m = "completed" ∧
               onWinningSide teamID m) (matches db).

(** ** Store invariants of the data model *)

(** Primary keys are unique, statuses are valid, the two teams of a match
    differ, and every live goal belongs to a completed match. *)
Record wellFormed (db : DB) : Prop := {
  wf_keys : NoDup (Match_ID <$> matches db);
  wf_status : ∀ m, m ∈ matches db → Status m ∈ ValidMatchStatuses;
  wf_teams : ∀ m, m ∈ matches db → HomeTeamID m ≠ AwayTeamID m;
  wf_goals : ∀ g, g ∈ goals db → Goal_DeletedAt g = false →
             ∃ m, m ∈ matches db ∧ Match_ID m = Goal_MatchID g ∧
                  Status m = "completed"
}.

(** The two teams of every live match are found: no team of a match that
    is still to be played or reported has been deleted. *)
Definition teamsFound (db : DB) : Prop :=
  ∀ m, m ∈ matches db → Match_DeletedAt m = false →
       is_Some (teamRepo.FindByID (HomeTeamID m) db) ∧
       is_Some (teamRepo.FindByID (AwayTeamID m) db).

(** A record whose loaded teams are those of its foreign keys, as every
    repository read hands it out. *)
Definition loaded (m : MatchDetails) : Prop :=
  (∀ team, HomeTeam m = Some team → Team_ID team = HomeTeamID (row m)) ∧
  (∀ team, AwayTeam m = Some team → Team_ID team = AwayTeamID (row m)).

(** ** A small league to run the definitions on *)

Module league.

(** Identifiers are written as short names here. *)
Definition parse (s : string) : option N :=
  if String.eqb s "garuda" then Some 1%N
  else if String.eqb s "rajawali" then Some 2%N
  else if String.eqb s "elang" then Some 3%N
  else if String.eqb s "bambang" then Some 11%N
  else if String.eqb s "atep" then Some 12%N
  else if String.eqb s "final" then Some 100%N
  else if String.eqb s "opener" then Some 101%N
  else None.

Definition garuda : Team := {| Team_ID := 1; Team_Name := "Garuda"; Team_DeletedAt := false |}.
Definition rajawali : Team := {| Team_ID := 2; Team_Name := "Rajawali"; Team_DeletedAt := false |}.
Definition elang : Team := {| Team_ID := 3; Team_Name := "Elang"; Team_DeletedAt := false |}.

Definition bambang : Player :=
  {| Player_ID := 11; Player_TeamID := 1; Player_Name := "Bambang"; Player_DeletedAt := false |}.
Definition atep : Player :=
  {| Player_ID := 12; Player_TeamID := 2; Player_Name := "Atep"; Player_DeletedAt := false |}.

(** A scheduled match and a completed one (1-0, one goal of Bambang). *)
Definition final : Match :=
  {| Match_ID := 100; HomeTeamID := 1; AwayTeamID := 2;
     MatchDate := "2026-03-15"; MatchTime := "19:30";
     HomeScore := 0; AwayScore := 0; Status := "scheduled"; Match_DeletedAt := false |}.
Definition opener : Match :=
  {| Match_ID := 101; HomeTeamID := 1; AwayTeamID := 2;
     MatchDate := "2026-03-01"; MatchTime := "16:00";
     HomeScore := 1; AwayScore := 0; Status := "completed"; Match_DeletedAt := false |}.

Definition openerGoal : Goal :=
  {| Goal_MatchID := 101; Goal_PlayerID := 11; Goal_TeamID := 1; Minute := 7;
     Goal_DeletedAt := false |}.

Definition db : DB :=
  {| teams := [garuda; rajawali; elang];
     players := [bambang; atep];
     matches := [final; opener];
     goals := [openerGoal] |}.

Definition goalBy (player team : string) (minute : Z) : GoalInput :=
  {| In_PlayerID := player; In_TeamID := team; In_Minute := minute |}.

(** Two goals of Bambang for the home team, one of Atep for the away team. *)
Definition twoOne : MatchResultRequest :=
  {| In_Goals := [goalBy "bambang" "garuda" 10; goalBy "atep" "rajawali" 55;
                  goalBy "bambang" "garuda" 80] |}.

(** A goal credited to a team that does not play the match. *)
Definition stranger : MatchResultRequest :=
  {| In_Goals := [goalBy "bambang" "elang" 23] |}.

(** A goal in minute 0. *)
Definition kickoff : MatchResultRequest :=
  {| In_Goals := [goalBy "bambang" "garuda" 0] |}.

(** The validator's [uuid] tag, on the short names. *)
Definition isName (s : string) : bool :=
  match parse s with Some _ => true | None => false end.

Definition text (body : option (list GoalInput)) : string := "validation failed".

(** A [range] that visits the entries in key order. *)
Definition inKeyOrder (m : gmap N playerGoalCount) : list (N * playerGoalCount) :=
  map_to_list m.

End league.

(** ** Reading a match (the match service) *)

Definition GetByID (id : N) : Svc MatchResponse :=
  let* match_ := query (matchRepo.FindByIDWithDetails id) (ErrNotFound "Match not found") in
  ret (toMatchResponse match_).

(** A submitted goal passes every check of the loop of [processResult]:
    both identifiers parse, the team plays the match, the player is found
    and belongs to the team. *)
Definition validGoal (uuid_Parse : string → option N) (db : DB) (m : Match)
    (g : GoalInput) : bool :=
  match uuid_Parse (In_PlayerID g), uuid_Parse (In_TeamID g) with
  | Some playerID, Some teamID =>
    ((teamID =? HomeTeamID m)%N || (teamID =? AwayTeamID m)%N) &&
    match playerRepo.FindByID playerID db with
    | Some player => (Player_TeamID player =? teamID)%N
    | None => false
    end
  | _, _ => false
  end.

(** A goal row holds what a submitted goal says about a match. *)
Definition storesInput (uuid_Parse : string → option N) (matchID : N)
    (g : Goal) (input : GoalInput) : Prop :=
  Goal_MatchID g = matchID ∧
  uuid_Parse (In_PlayerID input) = Some (Goal_PlayerID g) ∧
  uuid_Parse (In_TeamID input) = Some (Goal_TeamID g) ∧
  Minute g = In_Minute input ∧
  Goal_DeletedAt g = false.

(** ** Pagination (internal/dto/pagination_dto.go, pkg/response) *)

(** Go's [int] arithmetic on 64 bits. *)
Definition wrap (x : Z) : Z := ((x + 2 ^ 63) mod 2 ^ 64 - 2 ^ 63)%Z.

Record PaginationQuery := {
  Page : Z;
  PerPage : Z;
  SortBy : string;
  SortOrder : string
}.

Record PaginationMeta := {
  Meta_Page : Z;
  Meta_PerPage : Z;
  Total : Z;
  TotalPages : Z
}.

Definition GetOffset (p : PaginationQuery) : Z :=
  wrap (wrap (Page p - 1) * PerPage p).

Definition Sanitize (p : PaginationQuery) : PaginationQuery :=
  let page := if (Page p <=? 0)%Z then 1%Z else Page p in
  let perPage := if (PerPage p <=? 0)%Z then 10%Z else PerPage p in
  let perPage := if (perPage >? 100)%Z then 100%Z else perPage in
  let sortBy := if String.eqb (SortBy p) "" then "created_at" else SortBy p in
  let sortOrder := if String.eqb (SortOrder p) "" then "desc" else SortOrder p in
  {| Page := page; PerPage := perPage; SortBy := sortBy; SortOrder := sortOrder |}.

(** [int(total) / perPage], one more when there is a remainder. *)
Definition totalPagesOf (total perPage : Z) : Z :=
  let totalPages := (total ÷ perPage)%Z in
  if (Z.rem total perPage >? 0)%Z then wrap (totalPages + 1) else totalPages.

(** ** The list of reports (report_service.go) *)

Record MatchReportListItem := {
  Item_MatchID : N;
  Item_MatchDate : string;
  Item_MatchTime : string;
  Item_HomeTeam : option TeamResponse;
  Item_AwayTeam : option TeamResponse;
  Item_HomeScore : Z;
  Item_AwayScore : Z;
  Item_MatchResult : string
}.

Definition isCompleted (m : Match) : bool :=
  negb (Match_DeletedAt m) && String.eqb (Status m) "completed".

Definition CountCompletedMatches (db : DB) : Z :=
  Z.of_nat (length (List.filter isCompleted (matches db))).

Section reportList.

(** The order of the database on text columns (its collation), as a test
    for "at most". *)
Variable textLe : string → string → bool.

(** [ORDER BY match_date desc]; rows of equal date keep the order of the
    table. *)
Fixpoint insertByDateDesc (m : Match) (l : list Match) : list Match :=
  match l with
  | [] => [m]
  | h :: t => if textLe (MatchDate h) (MatchDate m) then m :: h :: t
              else h :: insertByDateDesc m t
  end.

Definition orderByDateDesc (l : list Match) : list Match :=
  foldr insertByDateDesc [] l.

(** The service calls it with an offset that is not negative and a limit
    from 1 to 100; GORM leaves [OFFSET] out when the offset is not
    positive. *)
Definition FindCompletedMatches (offset limit : Z) (db : DB) : list MatchDetails :=
  map (λ r, {| row := r;
               HomeTeam := teamRepo.FindByID (HomeTeamID r) db;
               AwayTeam := teamRepo.FindByID (AwayTeamID r) db;
               Goals := [] |})
      (take (Z.to_nat limit)
         (drop (Z.to_nat offset)
            (orderByDateDesc (List.filter isCompleted (matches db))))).

Definition toListItem (match_ : MatchDetails) : MatchReportListItem :=
  {| Item_MatchID := Match_ID (row match_);
     Item_MatchDate := MatchDate (row match_);
     Item_MatchTime := MatchTime (row match_);
     Item_HomeTeam := option_map toTeamResponse (HomeTeam match_);
     Item_AwayTeam := option_map toTeamResponse (AwayTeam match_);
     Item_HomeScore := HomeScore (row match_);
     Item_AwayScore := AwayScore (row match_);
     Item_MatchResult := computeMatchResult (HomeScore (row match_))
                                            (AwayScore (row match_)) |}.

Definition GetMatchReports (pagination : PaginationQuery)
    : Svc (list MatchReportListItem * PaginationMeta) :=
  let pagination := Sanitize pagination in
  let* matches := read (FindCompletedMatches (GetOffset pagination) (PerPage pagination)) in
  let* total := read CountCompletedMatches in
  let items := map toListItem matches in
  ret (items, {| Meta_Page := Page pagination;
                 Meta_PerPage := PerPage pagination;
                 Total := total;
                 TotalPages := totalPagesOf total (PerPage pagination) |}).

End reportList.

(** ** Authentication (auth_service.go and its repositories) *)

(** Times are instants on the clock, as integers.  The clock and the random
    sources are read outside: a call takes the instant it reads with
    [time.Now], the access token that [GenerateAccessToken] signs, and the
    key, the string and the expiry that [BeforeCreate] and
    [GenerateRefreshToken] produce. *)
Module auth.

Definition ErrUnauthorized (message : string) : AppError := New 401 message.

Record Admin := {
  Admin_ID : N;
  Username : string;
  Password : string;
  Admin_DeletedAt : bool
}.

Record RefreshToken := {
  Token_ID : N;
  AdminID : N;
  Token : string;
  ExpiresAt : Z;
  Token_DeletedAt : bool
}.

Record TokenPair := {
  AccessToken : string;
  RefreshTokenString : string
}.

Record Store := {
  admins : list Admin;
  refresh_tokens : list RefreshToken
}.

Definition set_tokens (ts : list RefreshToken) (db : Store) : Store :=
  {| admins := admins db; refresh_tokens := ts |}.

(** [time.Now().After(r.ExpiresAt)] *)
Definition IsExpired (now : Z) (r : RefreshToken) : bool := (ExpiresAt r <? now)%Z.

Module adminRepo.

Definition FindByUsername (username : string) (db : Store) : option Admin :=
  List.find (λ a, String.eqb (Username a) username && negb (Admin_DeletedAt a)) (admins db).

Definition FindByID (id : N) (db : Store) : option Admin :=
  List.find (λ a, (Admin_ID a =? id)%N && negb (Admin_DeletedAt a)) (admins db).

End adminRepo.

Module refreshTokenRepo.

(** An insert; the primary key and the token string are unique. *)
Definition Create (token : RefreshToken) (db : Store) : option Store :=
  if existsb (λ r, (Token_ID r =? Token_ID token)%N || String.eqb (Token r) (Token token))
       (refresh_tokens db)
  then None
  else Some (set_tokens (refresh_tokens db ++ [token]) db).

(** Token strings are unique, so at most one live row matches. *)
Definition FindByToken (token : string) (db : Store) : option RefreshToken :=
  List.find (λ r, String.eqb (Token r) token && negb (Token_DeletedAt r)) (refresh_tokens db).

(** A hard delete: the rows are gone. *)
Definition DeleteByToken (token : string) (db : Store) : Store :=
  set_tokens (List.filter (λ r, negb (String.eqb (Token r) token)) (refresh_tokens db)) db.

Definition DeleteByAdminID (adminID : N) (db : Store) : Store :=
  set_tokens (List.filter (λ r, negb (AdminID r =? adminID)%N) (refresh_tokens db)) db.

End refreshTokenRepo.

Section service.

(** [bcrypt.CompareHashAndPassword]: whether a password matches a hash. *)
Variable checkPassword : string → string → bool.

Definition Result (A : Type) : Type := (AppError + A) * Store.

Definition issue (admin : Admin) (accessToken : string) (newID : N)
    (refreshTokenStr : string) (expiresAt : Z) (db : Store) : Result TokenPair :=
  let refreshToken := {| Token_ID := newID; AdminID := Admin_ID admin;
                         Token := refreshTokenStr; ExpiresAt := expiresAt;
                         Token_DeletedAt := false |} in
  match refreshTokenRepo.Create refreshToken db with
  | None => (inl (ErrInternal "Internal server error"), db)
  | Some db' => (inr {| AccessToken := accessToken;
                        RefreshTokenString := refreshTokenStr |}, db')
  end.

Definition Login (accessToken : string) (newID : N) (refreshTokenStr : string)
    (expiresAt : Z) (username password : string) (db : Store)
    : Result (TokenPair * Admin) :=
  match adminRepo.FindByUsername username db with
  | None => (inl (ErrUnauthorized "Invalid username or password"), db)
  | Some admin =>
    if negb (checkPassword (Password admin) password)
    then (inl (ErrUnauthorized "Invalid username or password"), db)
    else
      match issue admin accessToken newID refreshTokenStr expiresAt db with
      | (inl e, db') => (inl e, db')
      | (inr tokenPair, db') => (inr (tokenPair, admin), db')
      end
  end.

(** [authService.RefreshToken]; the record of that name is the row. *)
Definition RefreshToken_ (now : Z) (newAccessToken : string) (newID : N)
    (newRefreshTokenStr : string) (expiresAt : Z) (refreshTokenStr : string)
    (db : Store) : Result TokenPair :=
  match refreshTokenRepo.FindByToken refreshTokenStr db with
  | None => (inl (ErrUnauthorized "Invalid refresh token"), db)
  | Some storedToken =>
    if IsExpired now storedToken
    then (inl (ErrUnauthorized "Refresh token has expired"),
          refreshTokenRepo.DeleteByToken refreshTokenStr db)
    else
      match adminRepo.FindByID (AdminID storedToken) db with
      | None => (inl (ErrInternal "Internal server error"), db)
      | Some admin =>
        issue admin newAccessToken newID newRefreshTokenStr expiresAt
          (refreshTokenRepo.DeleteByToken refreshTokenStr db)
      end
  end.

Definition Logout (refreshTokenStr : string) (db : Store) : Result unit :=
  (inr tt, refreshTokenRepo.DeleteByToken refreshTokenStr db).

End service.

End auth.

(** ** The league, later in the season *)

Module season.

(** The league after the final was played 2-1. *)
Definition played : DB := (SubmitResult league.parse 100 league.twoOne league.db).2.

(** The goals of the final as a report loads them. *)
Definition finalGoals : list GoalDetails :=
  matchRepo.orderByMinute (map (matchRepo.preloadGoal played) (goalRepo.ofMatch 100 played)).

(** A goal of a player nobody knows, and one of Atep credited to Garuda. *)
Definition unknown : GoalInput := league.goalBy "final" "garuda" 30.
Definition misplaced : GoalInput := league.goalBy "atep" "garuda" 30.

Definition derby : CreateMatchRequest :=
  {| Create_HomeTeamID := "garuda"; Create_AwayTeamID := "garuda";
     Create_MatchDate := "2026-06-01"; Create_MatchTime := "20:00" |}.

Definition rematch : CreateMatchRequest :=
  {| Create_HomeTeamID := "rajawali"; Create_AwayTeamID := "elang";
     Create_MatchDate := "2026-06-01"; Create_MatchTime := "20:00" |}.

Definition postponed : UpdateMatchRequest :=
  {| Update_HomeTeamID := "rajawali"; Update_AwayTeamID := "garuda";
     Update_MatchDate := "2026-04-01"; Update_MatchTime := "21:00" |}.

(** A goal in a minute that does not fit the column. *)
Definition endless : MatchResultRequest :=
  {| In_Goals := [league.goalBy "bambang" "garuda" 10;
                  league.goalBy "atep" "rajawali" 2147483648] |}.

(** The league after Rajawali has been dissolved: its row is soft-deleted,
    and the final still names it as the away team. *)
Definition dissolved : DB :=
  {| teams := [league.garuda;
               {| Team_ID := 2; Team_Name := "Rajawali"; Team_DeletedAt := true |};
               league.elang];
     players := players league.db;
     matches := matches league.db;
     goals := goals league.db |}.

(** The final, moved to another day, with Elang at home against Garuda. *)
Definition swapped : UpdateMatchRequest :=
  {| Update_HomeTeamID := "elang"; Update_AwayTeamID := "garuda";
     Update_MatchDate := "2026-04-01"; Update_MatchTime := "21:00" |}.

Definition firstPage : PaginationQuery :=
  {| Page := 0; PerPage := 0; SortBy := ""; SortOrder := "" |}.

(** A toy password check and a store with one admin and one session. *)
Definition samePassword (hash password : string) : bool := String.eqb hash password.

Definition admin : auth.Admin :=
  {| auth.Admin_ID := 1; auth.Username := "admin"; auth.Password := "secret";
     auth.Admin_DeletedAt := false |}.

Definition session : auth.RefreshToken :=
  {| auth.Token_ID := 7; auth.AdminID := 1; auth.Token := "first";
     auth.ExpiresAt := 1000; auth.Token_DeletedAt := false |}.

Definition sessions : auth.Store :=
  {| auth.admins := [admin]; auth.refresh_tokens := [session] |}.

End season.

(** * Properties *)

(** ** Repository lemmas *)

Lemma findRow_Some id db m :
  matchRepo.findRow id db = Some m →
  Match_ID m = id ∧ Match_DeletedAt m = false ∧ m ∈ matches db.
Proof.
  unfold matchRepo.findRow. intros H.
  destruct (find_some _ _ H) as [Hin Hb].
  apply andb_prop in Hb as [Hid Hdel].
  apply N.eqb_eq in Hid. apply negb_true_iff in Hdel.
  split; [done | split; [done |]]. by apply list_elem_of_In.
Qed.

Lemma FindByID_findRow id db :
  matchRepo.FindByID id db =
  (λ r, {| row := r;
           HomeTeam := teamRepo.FindByID (HomeTeamID r) db;
           AwayTeam := teamRepo.FindByID (AwayTeamID r) db;
           Goals := [] |}) <$> matchRepo.findRow id db.
Proof. unfold matchRepo.FindByID. by destruct (matchRepo.findRow id db). Qed.

Lemma FindByID_key id db team :
  teamRepo.FindByID id db = Some team → Team_ID team = id.
Proof.
  unfold teamRepo.FindByID. intros H. apply find_some in H as [_ Hb].
  apply andb_prop in Hb as [Hid _]. by apply N.eqb_eq.
Qed.

(** A match that a repository hands out is loaded with the teams of its
    foreign keys. *)
Lemma FindByID_loaded id db match_ :
  matchRepo.FindByID id db = Some match_ →
  matchRepo.findRow id db = Some (row match_) ∧ loaded match_.
Proof.
  rewrite FindByID_findRow.
  destruct (matchRepo.findRow id db) as [r |]; [| done]. intros [= <-].
  split; [done |]. split; intros team H; simpl in *; by apply FindByID_key in H.
Qed.

Lemma foreignKey_loaded (team : option Team) key :
  (∀ t, team = Some t → Team_ID t = key) → matchRepo.foreignKey team key = key.
Proof. destruct team as [t |]; simpl; [| done]. intros H. by apply H. Qed.

(** [Save] of a loaded record whose foreign keys were not touched writes
    the record as it is. *)
Lemma saved_result match_ homeScore awayScore status :
  loaded match_ →
  matchRepo.saved (with_row (with_result homeScore awayScore status (row match_)) match_) =
  with_row (with_result homeScore awayScore status (row match_)) match_.
Proof.
  intros [Hh Ha]. unfold matchRepo.saved. simpl.
  by rewrite !foreignKey_loaded.
Qed.

Lemma Update_result match_ homeScore awayScore status db :
  loaded match_ →
  matchRepo.Update (with_row (with_result homeScore awayScore status (row match_)) match_) db =
  (with_row (with_result homeScore awayScore status (row match_)) match_,
   matchRepo.write (with_result homeScore awayScore status (row match_)) db).
Proof. intros Hld. unfold matchRepo.Update. by rewrite saved_result. Qed.

Lemma valid_status_cases s :
  s ∈ ValidMatchStatuses → s = "scheduled" ∨ s = "completed".
Proof.
  unfold ValidMatchStatuses. rewrite !elem_of_cons, elem_of_nil. tauto.
Qed.

(** ** The outcome of a match *)

(** C5. [computeMatchResult] is a total function of two integers; it returns
    "Home Win" exactly when the home score is greater, "Away Win" exactly when
    the away score is greater, and "Draw" in the remaining case. *)
Theorem computeMatchResult_spec (homeScore awayScore : Z) :
  (computeMatchResult homeScore awayScore = "Home Win" ↔ (homeScore > awayScore)%Z) ∧
  (computeMatchResult homeScore awayScore = "Away Win" ↔ (awayScore > homeScore)%Z) ∧
  (computeMatchResult homeScore awayScore = "Draw" ↔
     ¬ (homeScore > awayScore)%Z ∧ ¬ (awayScore > homeScore)%Z) ∧
  (computeMatchResult homeScore awayScore = "Home Win" ∨
   computeMatchResult homeScore awayScore = "Away Win" ∨
   computeMatchResult homeScore awayScore = "Draw").
Proof.
  unfold computeMatchResult.
  destruct (Z.gtb_spec homeScore awayScore) as [Hh | Hh];
    [| destruct (Z.gtb_spec awayScore homeScore) as [Ha | Ha]];
    repeat split; intros; try discriminate; try lia; auto.
Qed.

(** ** The guards of SubmitResult and UpdateResult *)

Section guards.

Variable uuid_Parse : string → option N.

(** C6. When the match is found and its status is not "scheduled" (so, among
    the valid statuses, it is "completed"), [SubmitResult] answers the
    "already submitted" bad request whatever the goals are, and leaves the
    store as it was. *)
Theorem SubmitResult_not_scheduled db matchID m req :
  matchRepo.findRow matchID db = Some m →
  Status m ∈ ValidMatchStatuses →
  Status m ≠ "scheduled" →
  SubmitResult uuid_Parse matchID req db =
    (inl (ErrBadRequest "Match result already submitted. Use PUT to update."), db).
Proof.
  intros Hfind Hvalid Hns.
  destruct (valid_status_cases _ Hvalid) as [? | Hc]; [done |].
  unfold SubmitResult, bind, query. rewrite FindByID_findRow, Hfind. simpl.
  by rewrite Hc.
Qed.

(** C7. When the match is found and its status is not "completed",
    [UpdateResult] answers the "has not been completed" bad request and
    leaves the store, so the match row and the goal rows, as it was. *)
Theorem UpdateResult_not_completed db matchID m req :
  matchRepo.findRow matchID db = Some m →
  Status m ≠ "completed" →
  UpdateResult uuid_Parse matchID req db =
    (inl (ErrBadRequest
      "Cannot update result of a match that has not been completed. Use POST to submit first."),
     db).
Proof.
  intros Hfind Hnc.
  unfold UpdateResult, bind, query. rewrite FindByID_findRow, Hfind. simpl.
  apply String.eqb_neq in Hnc. by rewrite Hnc.
Qed.

End guards.

(** [SubmitResult_not_scheduled] on the completed opener of the league. *)
Lemma SubmitResult_not_scheduled_witness :
  SubmitResult league.parse 101 league.twoOne league.db =
    (inl (ErrBadRequest "Match result already submitted. Use PUT to update."), league.db).
Proof.
  apply (SubmitResult_not_scheduled league.parse league.db 101 league.opener).
  - reflexivity.
  - vm_compute. apply list_elem_of_In. simpl. auto.
  - discriminate.
Defined.

(** [UpdateResult_not_completed] on the scheduled final of the league. *)
Lemma UpdateResult_not_completed_witness :
  UpdateResult league.parse 100 league.twoOne league.db =
    (inl (ErrBadRequest
      "Cannot update result of a match that has not been completed. Use POST to submit first."),
     league.db).
Proof.
  apply (UpdateResult_not_completed league.parse league.db 100 league.final).
  - reflexivity.
  - discriminate.
Defined.

(** ** Writing a match row back *)

Ltac svc :=
  unfold bind, parsed, query, exec, mutate, tryExec, read, ret, fail in *; simpl in *.

Lemma find_replace (l : list Match) id m' :
  Match_ID m' = id → Match_DeletedAt m' = false →
  existsb (λ r, (Match_ID r =? id)%N) l = true →
  List.find (λ r, (Match_ID r =? id)%N && negb (Match_DeletedAt r))
    (map (λ r, if (Match_ID r =? id)%N then m' else r) l) = Some m'.
Proof.
  intros Hid Hlive. induction l as [| r l IH]; simpl; [done |].
  destruct (Match_ID r =? id)%N eqn:Hr; simpl.
  - intros _. by rewrite Hid, N.eqb_refl, Hlive.
  - rewrite Hr. simpl. exact IH.
Qed.

Lemma existsb_row (l : list Match) m :
  m ∈ l → existsb (λ r, (Match_ID r =? Match_ID m)%N) l = true.
Proof.
  intros Hin. apply existsb_exists. exists m.
  split; [by apply list_elem_of_In | apply N.eqb_refl].
Qed.

Lemma write_matches db m m' :
  m ∈ matches db → Match_ID m' = Match_ID m →
  matchRepo.write m' db =
  set_matches (map (λ r, if (Match_ID r =? Match_ID m')%N then m' else r) (matches db)) db.
Proof.
  intros Hin Hid. unfold matchRepo.write.
  by rewrite Hid, (existsb_row _ _ Hin).
Qed.

Lemma findRow_write db id m m' :
  matchRepo.findRow id db = Some m →
  Match_ID m' = id → Match_DeletedAt m' = false →
  matchRepo.findRow id (matchRepo.write m' db) = Some m'.
Proof.
  intros Hfind Hid Hlive.
  destruct (findRow_Some _ _ _ Hfind) as (Hm & _ & Hin).
  rewrite (write_matches db m m') by congruence.
  unfold matchRepo.findRow. simpl. rewrite Hid.
  apply find_replace; [done | done |].
  rewrite <- Hm. by apply existsb_row.
Qed.

Lemma goals_write db m : goals (matchRepo.write m db) = goals db.
Proof. unfold matchRepo.write. by destruct (existsb _ _). Qed.

Lemma ofMatch_write id db m :
  goalRepo.ofMatch id (matchRepo.write m db) = goalRepo.ofMatch id db.
Proof. unfold goalRepo.ofMatch. by rewrite goals_write. Qed.

Section emptyResult.

Variable uuid_Parse : string → option N.

(** C10. [SubmitResult] with an empty goal list on a scheduled match
    succeeds: the goal rows stay as they are, the match row gets both scores
    0 and the status "completed", and the report of the match calls it a
    "Draw". *)
Theorem SubmitResult_empty db matchID m :
  matchRepo.findRow matchID db = Some m →
  Status m = "scheduled" →
  let m' := with_result 0 0 "completed" m in
  let db' := matchRepo.write m' db in
  (∃ resp, SubmitResult uuid_Parse matchID {| In_Goals := [] |} db = (inr resp, db') ∧
           MR_Status resp = "completed" ∧
           MR_HomeScore resp = 0%Z ∧ MR_AwayScore resp = 0%Z) ∧
  goals db' = goals db ∧
  matchRepo.findRow matchID db' = Some m' ∧
  ∀ rangeOrder, ∃ report,
    GetMatchReportByID rangeOrder matchID db' = (inr report, db') ∧
    MatchResult report = "Draw".
Proof.
  intros Hfind Hs m' db'.
  destruct (findRow_Some _ _ _ Hfind) as (Hid & Hlive & Hin).
  assert (Hfind' : matchRepo.findRow matchID db' = Some m')
    by (by apply (findRow_write db matchID m m')).
  split; [| split; [apply goals_write | split; [done |]]].
  - destruct (matchRepo.FindByID matchID db) as [match_ |] eqn:Hload;
      [| by rewrite FindByID_findRow, Hfind in Hload].
    destruct (FindByID_loaded _ _ _ Hload) as [Hrow Hld].
    assert (row match_ = m) as Hm by congruence.
    unfold SubmitResult, processResult, bind, query, mutate. rewrite Hload.
    cbn [processGoals In_Goals ret length Nat.ltb Nat.leb]. rewrite Hm, Hs. cbn [String.eqb Ascii.eqb Bool.eqb].
    rewrite <- Hm, Update_result by done. rewrite Hm. fold m'. fold db'.
    unfold matchRepo.FindByIDWithDetails. cbn [row with_row Match_ID with_result].
    change (Match_ID m') with (Match_ID m). rewrite Hid, Hfind'. eauto.
  - intros rangeOrder. unfold GetMatchReportByID. svc.
    unfold matchRepo.FindByIDWithDetails. rewrite Hfind'. simpl. eauto.
Qed.

End emptyResult.

(** [SubmitResult_empty] on the scheduled final of the league. *)
Lemma SubmitResult_empty_witness :
  let m' := with_result 0 0 "completed" league.final in
  let db' := matchRepo.write m' league.db in
  (∃ resp, SubmitResult league.parse 100 {| In_Goals := [] |} league.db = (inr resp, db') ∧
           MR_Status resp = "completed" ∧
           MR_HomeScore resp = 0%Z ∧ MR_AwayScore resp = 0%Z) ∧
  goals db' = goals league.db ∧
  matchRepo.findRow 100 db' = Some m' ∧
  ∀ rangeOrder, ∃ report,
    GetMatchReportByID rangeOrder 100 db' = (inr report, db') ∧
    MatchResult report = "Draw".
Proof.
  apply (SubmitResult_empty league.parse league.db 100 league.final); reflexivity.
Defined.

(** ** Cumulative wins *)

Lemma homeWin_iff homeScore awayScore :
  computeMatchResult homeScore awayScore = "Home Win" ↔ (homeScore >? awayScore)%Z = true.
Proof.
  unfold computeMatchResult.
  destruct (homeScore >? awayScore)%Z; [done |].
  destruct (awayScore >? homeScore)%Z; split; discriminate.
Qed.

Lemma awayWin_iff homeScore awayScore :
  computeMatchResult homeScore awayScore = "Away Win" ↔ (awayScore >? homeScore)%Z = true.
Proof.
  unfold computeMatchResult.
  destruct (Z.gtb_spec homeScore awayScore) as [Hh | Hh];
    destruct (Z.gtb_spec awayScore homeScore) as [Ha | Ha];
    split; intros; try discriminate; try done; lia.
Qed.

Lemma isWin_spec teamID m :
  matchRepo.isWin teamID m = true ↔
  Match_DeletedAt m = false ∧ Status m = "completed" ∧ onWinningSide teamID m.
Proof.
  unfold matchRepo.isWin, onWinningSide.
  rewrite !andb_true_iff, orb_true_iff, !andb_true_iff, negb_true_iff.
  rewrite String.eqb_eq, !N.eqb_eq, homeWin_iff, awayWin_iff. tauto.
Qed.

(** C9. For every team and every store, [CountWins] is the number of live
    match rows with status "completed" in which the team is on the winning
    side as [computeMatchResult] classifies the scores: home team of a
    "Home Win" or away team of an "Away Win". *)
Theorem CountWins_wonMatches teamID db :
  matchRepo.CountWins teamID db = Z.of_nat (length (wonMatches teamID db)).
Proof.
  unfold matchRepo.CountWins, wonMatches. do 2 f_equal.
  induction (matches db) as [| m l IH]; [done |].
  rewrite filter_cons. simpl.
  destruct (matchRepo.isWin teamID m) eqn:Hw.
  - rewrite decide_True by (by apply isWin_spec). simpl. by rewrite IH.
  - rewrite decide_False; [done |].
    intros HP. apply isWin_spec in HP. congruence.
Qed.

(** ** The loop of processResult *)

Lemma ofMatch_Delete id db :
  goalRepo.ofMatch id (goalRepo.DeleteByMatchID id db) = [].
Proof.
  unfold goalRepo.ofMatch, goalRepo.DeleteByMatchID. simpl.
  induction (goals db) as [| g l IH]; simpl; [done |].
  destruct ((Goal_MatchID g =? id)%N && negb (Goal_DeletedAt g)) eqn:Hg; simpl.
  - by rewrite andb_false_r.
  - by rewrite Hg.
Qed.

Lemma ofMatch_app id db new :
  goalRepo.ofMatch id (set_goals (goals db ++ new) db) =
  goalRepo.ofMatch id db ++
  List.filter (λ g, (Goal_MatchID g =? id)%N && negb (Goal_DeletedAt g)) new.
Proof. unfold goalRepo.ofMatch. simpl. apply List.filter_app. Qed.

Lemma filter_own_goals id (new : list Goal) :
  Forall (λ g, Goal_MatchID g = id ∧ Goal_DeletedAt g = false) new →
  List.filter (λ g, (Goal_MatchID g =? id)%N && negb (Goal_DeletedAt g)) new = new.
Proof.
  induction 1 as [| g l [Hid Hlive] _ IH]; simpl; [done |].
  by rewrite Hid, N.eqb_refl, Hlive, IH.
Qed.

Lemma insert_goals new db :
  goalRepo.insert new db = set_goals (goals db ++ new) db.
Proof.
  destruct new; [| done]. simpl. rewrite app_nil_r. by destruct db.
Qed.

Section scoring.

Variable uuid_Parse : string → option N.

(** The loop only reads the store. *)
Lemma processGoals_db match_ inputs :
  ∀ i homeScore awayScore goals db,
    (processGoals uuid_Parse match_ inputs i homeScore awayScore goals db).2 = db.
Proof.
  induction inputs as [| g rest IH]; intros; simpl; [done |]. svc.
  destruct (uuid_Parse (In_PlayerID g)); [| done].
  destruct (uuid_Parse (In_TeamID g)); [| done].
  destruct (negb _ && negb _); [done |].
  destruct (playerRepo.FindByID _ _); [| done].
  destruct (negb _); [done |]. apply IH.
Qed.

(** What the loop has computed when it runs to its end. *)
Lemma processGoals_ok match_ inputs :
  ∀ i homeScore awayScore goals db homeScore' awayScore' goals' db',
    processGoals uuid_Parse match_ inputs i homeScore awayScore goals db =
      (inr (homeScore', awayScore', goals'), db') →
    homeScore' = (homeScore + goalsFor uuid_Parse (HomeTeamID (row match_)) inputs)%Z ∧
    (homeScore' + awayScore' = homeScore + awayScore + Z.of_nat (length inputs))%Z ∧
    (HomeTeamID (row match_) ≠ AwayTeamID (row match_) →
     awayScore' = (awayScore + goalsFor uuid_Parse (AwayTeamID (row match_)) inputs)%Z) ∧
    ∃ new, goals' = goals ++ new ∧ length new = length inputs ∧
           Forall (λ g, Goal_MatchID g = Match_ID (row match_) ∧
                        Goal_DeletedAt g = false) new.
Proof.
  induction inputs as [| g rest IH]; intros i h a gs db h' a' gs' db' H; simpl in H.
  - svc. injection H as <- <- <- <-. unfold goalsFor. simpl.
    repeat split; try lia. exists []. by rewrite app_nil_r.
  - svc. unfold goalsFor in *. simpl.
    destruct (uuid_Parse (In_PlayerID g)) as [playerID |]; [| done].
    destruct (uuid_Parse (In_TeamID g)) as [teamID |]; [| done]. simpl in H.
    destruct (teamID =? HomeTeamID (row match_))%N eqn:Hhome;
      destruct (teamID =? AwayTeamID (row match_))%N eqn:Haway; simpl in H; try done;
      (destruct (playerRepo.FindByID playerID db); [| done]);
      (destruct (negb _); [done |]);
      apply IH in H as (-> & Hsum & Haw & new & -> & Hlen & Hall);
      (split; [simpl; lia |]); (split; [simpl; lia |]);
      (split;
       [ intros Hne; specialize (Haw Hne); simpl;
         apply N.eqb_eq in Hhome || apply N.eqb_eq in Haway;
         try (exfalso; apply N.eqb_eq in Haway; congruence); lia
       | eexists (_ :: new); rewrite <- app_assoc; simpl;
         split; [done | split; [lia |]];
         constructor; [by simpl | done] ]).
Qed.

End scoring.

(** ** processResult, from the outcome of its loop *)

Lemma findRow_insert id gs db :
  matchRepo.findRow id (goalRepo.insert gs db) = matchRepo.findRow id db.
Proof. by rewrite insert_goals. Qed.

(** The batch insert of [processResult]: it stores every row when every
    minute fits its column, and none otherwise. *)
Lemma batch_insert gs db :
  forallb (λ g, goalRepo.fitsColumn (Minute g)) gs = true →
  (if (0 <? length gs)%nat then tryExec (goalRepo.CreateBatch gs) else ret tt) db =
  (inr tt, goalRepo.insert gs db).
Proof.
  intros Hfit. destruct gs as [| g gs]; [done |].
  unfold tryExec, goalRepo.CreateBatch. by rewrite Hfit.
Qed.

Lemma batch_refused gs db :
  forallb (λ g, goalRepo.fitsColumn (Minute g)) gs = false →
  (if (0 <? length gs)%nat then tryExec (goalRepo.CreateBatch gs) else ret tt) db =
  (inl (ErrInternal "Internal server error"), db).
Proof.
  intros Hfit. destruct gs as [| g gs]; [done |].
  unfold tryExec, goalRepo.CreateBatch. by rewrite Hfit.
Qed.

Section processing.

Variable uuid_Parse : string → option N.

Lemma processResult_rejected match_ req db e db1 :
  processGoals uuid_Parse match_ (In_Goals req) 0 0%Z 0%Z [] db = (inl e, db1) →
  processResult uuid_Parse match_ req db = (inl e, db).
Proof.
  intros H. pose proof (processGoals_db uuid_Parse match_ (In_Goals req) 0 0%Z 0%Z [] db) as Hdb.
  rewrite H in Hdb. simpl in Hdb. subst db1.
  unfold processResult, bind. by rewrite H.
Qed.

(** The loop has run to its end and the batch insert fails. *)
Lemma processResult_refused match_ req db homeScore awayScore gs db1 :
  processGoals uuid_Parse match_ (In_Goals req) 0 0%Z 0%Z [] db =
    (inr (homeScore, awayScore, gs), db1) →
  forallb (λ g, goalRepo.fitsColumn (Minute g)) gs = false →
  processResult uuid_Parse match_ req db =
    (inl (ErrInternal "Internal server error"), db).
Proof.
  intros H Hfit.
  pose proof (processGoals_db uuid_Parse match_ (In_Goals req) 0 0%Z 0%Z [] db) as Hdb.
  rewrite H in Hdb. simpl in Hdb. subst db1.
  unfold processResult, bind at 1. rewrite H.
  unfold bind at 1. by rewrite batch_refused.
Qed.

Lemma processResult_accepted match_ req db id homeScore awayScore gs db1 :
  processGoals uuid_Parse match_ (In_Goals req) 0 0%Z 0%Z [] db =
    (inr (homeScore, awayScore, gs), db1) →
  matchRepo.findRow id db = Some (row match_) →
  loaded match_ →
  forallb (λ g, goalRepo.fitsColumn (Minute g)) gs = true →
  let m' := with_result homeScore awayScore "completed" (row match_) in
  let db' := matchRepo.write m' (goalRepo.insert gs db) in
  matchRepo.findRow id db' = Some m' ∧
  ∃ resp, processResult uuid_Parse match_ req db = (inr resp, db') ∧
          MR_HomeScore resp = homeScore ∧ MR_AwayScore resp = awayScore ∧
          MR_Status resp = "completed".
Proof.
  intros H Hfind Hld Hfit m' db'.
  pose proof (processGoals_db uuid_Parse match_ (In_Goals req) 0 0%Z 0%Z [] db) as Hdb.
  rewrite H in Hdb. simpl in Hdb. subst db1.
  destruct (findRow_Some _ _ _ Hfind) as (Hid & Hlive & Hin).
  assert (Hfind' : matchRepo.findRow id db' = Some m').
  { apply (findRow_write _ id (row match_)); [| done | done].
    by rewrite findRow_insert. }
  split; [done |].
  unfold processResult, bind at 1. rewrite H.
  unfold bind at 1. rewrite batch_insert by done.
  unfold bind at 1, mutate. rewrite Update_result by done. fold m'. fold db'.
  unfold bind, query, ret.
  unfold matchRepo.FindByIDWithDetails. cbn [row with_row].
  change (Match_ID m') with (Match_ID (row match_)).
  rewrite Hid, Hfind'. eauto.
Qed.

End processing.

(** ** SubmitResult and UpdateResult, by cases on the match they find *)

Section results.

Variable uuid_Parse : string → option N.

Lemma SubmitResult_cases db matchID req :
  (matchRepo.findRow matchID db = None ∧
   SubmitResult uuid_Parse matchID req db = (inl (ErrNotFound "Match not found"), db)) ∨
  (∃ m, matchRepo.findRow matchID db = Some m ∧ Status m = "completed" ∧
        SubmitResult uuid_Parse matchID req db =
          (inl (ErrBadRequest "Match result already submitted. Use PUT to update."), db)) ∨
  (∃ match_, matchRepo.findRow matchID db = Some (row match_) ∧
             Status (row match_) ≠ "completed" ∧
             loaded match_ ∧
             SubmitResult uuid_Parse matchID req db =
               processResult uuid_Parse match_ req db).
Proof.
  unfold SubmitResult, bind, query.
  destruct (matchRepo.FindByID matchID db) as [match_ |] eqn:Hload.
  - destruct (FindByID_loaded _ _ _ Hload) as [Hrow Hld]. rewrite Hrow.
    right. destruct (String.eqb_spec (Status (row match_)) "completed") as [Hc | Hc].
    + left. by exists (row match_).
    + right. by exists match_.
  - rewrite FindByID_findRow in Hload.
    destruct (matchRepo.findRow matchID db); [done | by left].
Qed.

Lemma UpdateResult_cases db matchID req :
  (matchRepo.findRow matchID db = None ∧
   UpdateResult uuid_Parse matchID req db = (inl (ErrNotFound "Match not found"), db)) ∨
  (∃ m, matchRepo.findRow matchID db = Some m ∧ Status m ≠ "completed" ∧
        UpdateResult uuid_Parse matchID req db =
          (inl (ErrBadRequest
            "Cannot update result of a match that has not been completed. Use POST to submit first."),
           db)) ∨
  (∃ match_, matchRepo.findRow matchID db = Some (row match_) ∧
             Status (row match_) = "completed" ∧
             loaded match_ ∧
             UpdateResult uuid_Parse matchID req db =
               processResult uuid_Parse match_ req (goalRepo.DeleteByMatchID matchID db)).
Proof.
  unfold UpdateResult, bind, query.
  destruct (matchRepo.FindByID matchID db) as [match_ |] eqn:Hload.
  - destruct (FindByID_loaded _ _ _ Hload) as [Hrow Hld]. rewrite Hrow.
    right. destruct (String.eqb_spec (Status (row match_)) "completed") as [Hc | Hc]; simpl.
    + right. by exists match_.
    + left. by exists (row match_).
  - rewrite FindByID_findRow in Hload.
    destruct (matchRepo.findRow matchID db); [done | by left].
Qed.

(** The scores and the goal rows after a successful [processResult] on a
    match that has no live goal rows when it starts. *)
Lemma processResult_scores match_ req db id resp db' :
  matchRepo.findRow id db = Some (row match_) →
  loaded match_ →
  HomeTeamID (row match_) ≠ AwayTeamID (row match_) →
  goalRepo.ofMatch id db = [] →
  processResult uuid_Parse match_ req db = (inr resp, db') →
  ∃ m', matchRepo.findRow id db' = Some m' ∧
        Status m' = "completed" ∧
        HomeScore m' = goalsFor uuid_Parse (HomeTeamID (row match_)) (In_Goals req) ∧
        AwayScore m' = goalsFor uuid_Parse (AwayTeamID (row match_)) (In_Goals req) ∧
        (HomeScore m' + AwayScore m')%Z = Z.of_nat (length (goalRepo.ofMatch id db')).
Proof.
  intros Hfind Hld Hne Hnone Hrun.
  destruct (processGoals uuid_Parse match_ (In_Goals req) 0 0%Z 0%Z [] db)
    as [[e | [[h a] gs]] db1] eqn:Hloop.
  { rewrite (processResult_rejected _ _ _ _ _ _ Hloop) in Hrun. discriminate. }
  destruct (forallb (λ g, goalRepo.fitsColumn (Minute g)) gs) eqn:Hfit;
    [| rewrite (processResult_refused _ _ _ _ _ _ _ _ Hloop Hfit) in Hrun; discriminate].
  destruct (processResult_accepted _ _ _ _ _ _ _ _ _ Hloop Hfind Hld Hfit)
    as (Hfind' & resp' & Hrun' & _).
  rewrite Hrun' in Hrun. injection Hrun as _ <-.
  destruct (findRow_Some _ _ _ Hfind) as (Hid & _ & _).
  apply processGoals_ok in Hloop as (Hh & Hsum & Ha & new & Hgs & Hlen & Hall).
  simpl in Hgs. subst gs. specialize (Ha Hne).
  eexists. split; [exact Hfind' |]. simpl.
  split; [done |]. split; [lia |]. split; [lia |].
  rewrite ofMatch_write, insert_goals, ofMatch_app, Hnone. simpl.
  rewrite filter_own_goals by (by rewrite <- Hid). lia.
Qed.


(** A failed [SubmitResult] leaves the store as it was. *)
Lemma SubmitResult_failure db matchID req e db' :
  SubmitResult uuid_Parse matchID req db = (inl e, db') → db' = db.
Proof.
  intros Hrun.
  destruct (SubmitResult_cases db matchID req)
    as [[_ E] | [(? & _ & _ & E) | (match_ & Hrow & Hnc & Hld & E)]];
    rewrite E in Hrun; try (by injection Hrun).
  destruct (processGoals uuid_Parse match_ (In_Goals req) 0 0%Z 0%Z [] db)
    as [[e' | [[h a] gs]] db1] eqn:Hloop.
  - rewrite (processResult_rejected _ _ _ _ _ _ Hloop) in Hrun. by injection Hrun.
  - destruct (forallb (λ g, goalRepo.fitsColumn (Minute g)) gs) eqn:Hfit.
    + destruct (processResult_accepted _ _ _ _ _ _ _ _ _ Hloop Hrow Hld Hfit)
        as (_ & resp' & Hrun' & _).
      rewrite Hrun' in Hrun. discriminate.
    + rewrite (processResult_refused _ _ _ _ _ _ _ _ Hloop Hfit) in Hrun.
      by injection Hrun.
Qed.

End results.


(** ** A rejected UpdateResult *)

(** C2. The claim fails on [UpdateResult]: the completed opener of the league
    has one goal row; an update whose only goal names a team outside the
    match is rejected as a bad request, the match row keeps its 1-0 and its
    status, and the goal row is gone. *)
Theorem UpdateResult_rejected_drops_goals :
  let out := UpdateResult league.parse 101 league.stranger league.db in
  out.1 = inl (ErrBadRequest "Goal #1: team_id must be either home or away team") ∧
  goalRepo.ofMatch 101 league.db = [league.openerGoal] ∧
  goalRepo.ofMatch 101 out.2 = [] ∧
  matchRepo.findRow 101 out.2 = Some league.opener.
Proof. vm_compute. auto. Qed.

(** ** The minute of a goal *)

(** C3, as stated, fails on the service: a goal in minute 0 submitted to
    [SubmitResult] is accepted and stored. *)
Lemma SubmitResult_accepts_minute_zero :
  ∃ resp db',
    SubmitResult league.parse 100 league.kickoff league.db = (inr resp, db') ∧
    MR_Status resp = "completed" ∧
    goalRepo.ofMatch 100 db' =
      [ {| Goal_MatchID := 100; Goal_PlayerID := 11; Goal_TeamID := 1;
           Minute := 0; Goal_DeletedAt := false |} ].
Proof. vm_compute. eauto. Qed.

Section binding.

Variable uuid_Parse : string → option N.
Variable isUUID : string → bool.
Variable validationText : option (list GoalInput) → string.

Lemma ShouldBindJSON_minute gs g :
  g ∈ gs → (In_Minute g < 1)%Z →
  ShouldBindJSON isUUID validationText (Some gs) = inl (validationText (Some gs)).
Proof.
  intros Hin Hmin. unfold ShouldBindJSON.
  destruct (forallb (validGoalInput isUUID) gs) eqn:Hall; [| done].
  rewrite forallb_forall in Hall.
  specialize (Hall g (proj1 (list_elem_of_In _ _) Hin)).
  unfold validGoalInput, validMinute in Hall.
  rewrite !andb_true_iff in Hall. destruct Hall as (_ & _ & Hle).
  apply Z.leb_le in Hle. lia.
Qed.

(** C3, amended. A request to the handler of [SubmitResult] or of
    [UpdateResult] that carries a goal whose minute is less than 1 is answered
    with a 400 bad request and leaves the store as it was; when the path
    parameter is an identifier, it is request binding that rejects it, before
    the service is called. *)
Theorem binding_rejects_minute idParam gs g db :
  g ∈ gs → (In_Minute g < 1)%Z →
  ∀ handler,
    handler = MatchHandler_SubmitResult uuid_Parse isUUID validationText ∨
    handler = MatchHandler_UpdateResult uuid_Parse isUUID validationText →
    ∃ e, handler idParam (Some gs) db = (inl e, db) ∧
         Code e = 400%Z ∧
         (is_Some (uuid_Parse idParam) →
          Message e = "Invalid request body: " +:+ validationText (Some gs)).
Proof.
  intros Hin Hmin handler [-> | ->];
    unfold MatchHandler_SubmitResult, MatchHandler_UpdateResult, parseUUID,
      bind, parsed;
    (destruct (uuid_Parse idParam) as [id |]; unfold ret, fail; cbv beta iota;
     [ rewrite (ShouldBindJSON_minute gs g Hin Hmin);
       eexists; split; [reflexivity | split; [done | done]]
     | eexists; split; [reflexivity | split; [done |]];
       intros [? ?]; discriminate ]).
Qed.

End binding.

(** [binding_rejects_minute] on the goal in minute 0, sent for the final of
    the league. *)
Lemma binding_rejects_minute_witness :
  ∃ e, MatchHandler_SubmitResult league.parse league.isName league.text
         "final" (Some (In_Goals league.kickoff)) league.db = (inl e, league.db) ∧
       Code e = 400%Z ∧
       (is_Some (league.parse "final") →
        Message e = "Invalid request body: " +:+ league.text (Some (In_Goals league.kickoff))).
Proof.
  apply (binding_rejects_minute league.parse league.isName league.text
           "final" (In_Goals league.kickoff) (league.goalBy "bambang" "garuda" 0) league.db).
  - apply list_elem_of_In. simpl. auto.
  - simpl. lia.
  - left. reflexivity.
Defined.

(** ** The top scorer of a match *)

Lemma goalsOf_snoc p gs g :
  goalsOf p (gs ++ [g]) =
  (goalsOf p gs + if (Goal_PlayerID (goal g) =? p)%N then 1 else 0)%Z.
Proof.
  unfold goalsOf. rewrite List.filter_app, length_app. simpl.
  destruct (Goal_PlayerID (goal g) =? p)%N; simpl; lia.
Qed.

Lemma tally_snoc gs g : tally (gs ++ [g]) = countGoal (tally gs) g.
Proof. unfold tally. by rewrite fold_left_app. Qed.

(** The entries of the map after the loop over the goals: one per scorer,
    holding the number of the scorer's goals and the names read off one of
    them. *)
Lemma tally_spec gs p :
  match tally gs !! p with
  | Some pg => Count pg = goalsOf p gs ∧ (1 ≤ Count pg)%Z ∧
               ∃ g, g ∈ gs ∧ Goal_PlayerID (goal g) = p ∧
                    PlayerName pg = playerNameOf g ∧ TeamName pg = teamNameOf g
  | None => goalsOf p gs = 0%Z
  end.
Proof.
  induction gs as [| g gs IH] using rev_ind.
  - unfold tally. simpl. by rewrite lookup_empty.
  - rewrite tally_snoc, goalsOf_snoc. unfold countGoal.
    destruct (decide (Goal_PlayerID (goal g) = p)) as [Hp | Hne].
    + subst p. rewrite N.eqb_refl, lookup_alter_eq.
      destruct (tally gs !! Goal_PlayerID (goal g)) as [pg |] eqn:Hl.
      * rewrite Hl. simpl.
        destruct IH as (Hc & H1 & g0 & Hin & Hid & Hn & Ht).
        split; [lia | split; [lia |]].
        exists g0. rewrite elem_of_app. auto.
      * rewrite lookup_insert_eq. simpl.
        split; [lia | split; [lia |]].
        exists g. rewrite elem_of_app, list_elem_of_singleton. auto.
    + apply N.eqb_neq in Hne as Hb. rewrite Hb, lookup_alter_ne by done.
      assert (Hl : ∀ M : gmap N playerGoalCount,
                 match M !! Goal_PlayerID (goal g) with
                 | None => <[Goal_PlayerID (goal g) :=
                              {| PlayerName := playerNameOf g; TeamName := teamNameOf g;
                                 Count := 0 |}]> M
                 | Some _ => M
                 end !! p = M !! p).
      { intros M. destruct (M !! Goal_PlayerID (goal g)); [done |].
        by rewrite lookup_insert_ne. }
      rewrite Hl. destruct (tally gs !! p) as [pg |].
      * destruct IH as (Hc & H1 & g0 & Hin & Hid & Hn & Ht).
        split; [lia | split; [lia |]].
        exists g0. rewrite elem_of_app. auto.
      * lia.
Qed.

(** The loop over the entries keeps an entry of greatest counter. *)
Lemma pickTop_fold (l : list playerGoalCount) :
  Forall (λ pg, (1 ≤ Count pg)%Z) l →
  (l = [] ∧ fold_left pickTop l (0%Z, None) = (0%Z, None)) ∨
  (∃ pg, pg ∈ l ∧
         fold_left pickTop l (0%Z, None) = (Count pg, Some (toTopScorer pg)) ∧
         ∀ q, q ∈ l → (Count q ≤ Count pg)%Z).
Proof.
  induction l as [| x l IH] using rev_ind; intros Hall; [by left |].
  apply Forall_app in Hall as [Hl Hx]. rewrite Forall_singleton in Hx.
  right. rewrite fold_left_app. simpl.
  destruct (IH Hl) as [[-> E] | (pg & Hin & E & Hmax)]; rewrite E; unfold pickTop; simpl.
  - destruct (Z.gtb_spec (Count x) 0); [| lia].
    exists x. split; [by apply list_elem_of_singleton |]. split; [done |].
    intros q Hq. apply list_elem_of_singleton in Hq. subst q. lia.
  - destruct (Z.gtb_spec (Count x) (Count pg)) as [Hgt | Hle].
    + exists x. rewrite elem_of_app, list_elem_of_singleton.
      split; [auto | split; [done |]].
      intros q Hq. apply elem_of_app in Hq as [Hq | Hq].
      * specialize (Hmax q Hq). lia.
      * apply list_elem_of_singleton in Hq. subst q. lia.
    + exists pg. rewrite elem_of_app.
      split; [auto | split; [done |]].
      intros q Hq. apply elem_of_app in Hq as [Hq | Hq]; [auto |].
      apply list_elem_of_singleton in Hq. subst q. lia.
Qed.

Lemma insertByMinute_perm g l : matchRepo.insertByMinute g l ≡ₚ g :: l.
Proof.
  induction l as [| h t IH]; simpl; [done |].
  destruct (_ <=? _)%Z; [done |]. rewrite IH. apply Permutation_swap.
Qed.

Lemma orderByMinute_perm l : matchRepo.orderByMinute l ≡ₚ l.
Proof.
  unfold matchRepo.orderByMinute. induction l as [| g l IH]; simpl; [done |].
  by rewrite insertByMinute_perm, IH.
Qed.








Section topScorer.

Variable rangeOrder : gmap N playerGoalCount → list (N * playerGoalCount).

(** Whatever the order, [range] visits every entry of the map once. *)
Hypothesis rangeOrder_perm : ∀ m, rangeOrder m ≡ₚ map_to_list m.




End topScorer.


(** ** The writes of one operation *)

Section steps.

Variable uuid_Parse : string → option N.

(** The team [Save] leaves on one side of a match whose schedule is
    updated: the team of the row when it is still found, the requested one
    otherwise. *)
Lemma foreignKey_found db key requested :
  matchRepo.foreignKey (teamRepo.FindByID key db) requested =
  match teamRepo.FindByID key db with
  | Some _ => key
  | None => requested
  end.
Proof.
  destruct (teamRepo.FindByID key db) as [team |] eqn:Hteam; simpl; [| done].
  by apply FindByID_key in Hteam.
Qed.

(** [Update] fails before its write, or saves the row it has found. *)
Lemma Update_cases db id req :
  (∃ e, Update uuid_Parse id req db = (inl e, db)) ∨
  (∃ r home away,
     matchRepo.findRow id db = Some r ∧ Status r ≠ "completed" ∧
     uuid_Parse (Update_HomeTeamID req) = Some home ∧
     uuid_Parse (Update_AwayTeamID req) = Some away ∧
     home ≠ away ∧
     is_Some (teamRepo.FindByID home db) ∧ is_Some (teamRepo.FindByID away db) ∧
     let r' := with_schedule
                 (match teamRepo.FindByID (HomeTeamID r) db with
                  | Some _ => HomeTeamID r
                  | None => home
                  end)
                 (match teamRepo.FindByID (AwayTeamID r) db with
                  | Some _ => AwayTeamID r
                  | None => away
                  end)
                 (Update_MatchDate req) (Update_MatchTime req) r in
     Update uuid_Parse id req db =
       (inr (toMatchResponse
               {| row := r';
                  HomeTeam := teamRepo.FindByID (HomeTeamID r) db;
                  AwayTeam := teamRepo.FindByID (AwayTeamID r) db;
                  Goals := [] |}),
        matchRepo.write r' db)).
Proof.
  unfold Update, bind, query, parsed, mutate. rewrite FindByID_findRow.
  destruct (matchRepo.findRow id db) as [r |] eqn:Hfind; [| left; by eexists].
  cbn [fmap option_fmap option_map row].
  destruct (String.eqb_spec (Status r) "completed") as [| Hnc]; [left; by eexists |].
  destruct (uuid_Parse (Update_HomeTeamID req)) as [home |]; [| left; by eexists].
  destruct (uuid_Parse (Update_AwayTeamID req)) as [away |]; [| left; by eexists].
  unfold ret. cbv beta iota.
  destruct (N.eqb_spec home away) as [| Hne]; [left; by eexists |].
  destruct (teamRepo.FindByID home db) as [th |] eqn:Hth; [| left; by eexists].
  destruct (teamRepo.FindByID away db) as [ta |] eqn:Hta; [| left; by eexists].
  right. exists r, home, away. rewrite Hth, Hta.
  do 7 (split; [done |]).
  unfold matchRepo.Update, matchRepo.saved. cbn [row with_row HomeTeam AwayTeam].
  unfold with_schedule at 2 4. cbn [HomeTeamID AwayTeamID].
  by rewrite !foreignKey_found.
Qed.

(** Every operation leaves the store as it was or does one of five writes:
    the insert of a scheduled match between two teams that are found, the
    save of a new schedule on a match that is not completed (a side keeps
    its team as long as that team is found), the soft delete of a match, the
    save of a result with its goals on a match that is not completed, and,
    on a completed match, the delete of its goals followed or not by the
    save of a result with its goals. *)
Lemma step_cases db op :
  step uuid_Parse db op = db ∨
  (∃ m, matchRepo.Create m db = Some (step uuid_Parse db op) ∧
        Status m = "scheduled" ∧ HomeTeamID m ≠ AwayTeamID m ∧
        is_Some (teamRepo.FindByID (HomeTeamID m) db) ∧
        is_Some (teamRepo.FindByID (AwayTeamID m) db)) ∨
  (∃ r home away date time,
      matchRepo.findRow (Match_ID r) db = Some r ∧ Status r ≠ "completed" ∧
      (home = HomeTeamID r ∨ teamRepo.FindByID (HomeTeamID r) db = None) ∧
      (away = AwayTeamID r ∨ teamRepo.FindByID (AwayTeamID r) db = None) ∧
      step uuid_Parse db op = matchRepo.write (with_schedule home away date time r) db) ∨
  (∃ id, step uuid_Parse db op = matchRepo.Delete id db) ∨
  (∃ r homeScore awayScore gs,
      matchRepo.findRow (Match_ID r) db = Some r ∧ Status r ≠ "completed" ∧
      Forall (λ g, Goal_MatchID g = Match_ID r ∧ Goal_DeletedAt g = false) gs ∧
      step uuid_Parse db op =
        matchRepo.write (with_result homeScore awayScore "completed" r)
          (goalRepo.insert gs db)) ∨
  (∃ r, matchRepo.findRow (Match_ID r) db = Some r ∧ Status r = "completed" ∧
        (step uuid_Parse db op = goalRepo.DeleteByMatchID (Match_ID r) db ∨
         ∃ homeScore awayScore gs,
           Forall (λ g, Goal_MatchID g = Match_ID r ∧ Goal_DeletedAt g = false) gs ∧
           step uuid_Parse db op =
             matchRepo.write (with_result homeScore awayScore "completed" r)
               (goalRepo.insert gs (goalRepo.DeleteByMatchID (Match_ID r) db)))).
Proof.
  destruct op as [newID req | id req | id | id req | id req]; simpl.
  - (* Create *)
    unfold Create. svc.
    destruct (uuid_Parse (Create_HomeTeamID req)) as [home |]; [| by left].
    destruct (uuid_Parse (Create_AwayTeamID req)) as [away |]; [| by left]. simpl.
    destruct (N.eqb_spec home away) as [| Hne]; [by left |].
    destruct (teamRepo.FindByID home db) as [th |] eqn:Hth; [| by left].
    destruct (teamRepo.FindByID away db) as [ta |] eqn:Hta; [| by left].
    match goal with |- context [matchRepo.Create ?m db] =>
      destruct (matchRepo.Create m db) as [db1 |] eqn:Hc; [| by left];
      right; left; exists m end.
    simpl. rewrite Hth, Hta. split; [| by repeat split]. rewrite Hc. f_equal.
    by destruct (matchRepo.FindByID newID db1).
  - (* Update *)
    destruct (Update_cases db id req)
      as [[e E] | (r & home & away & Hfind & Hnc & _ & _ & Hne & _ & _ & E)];
      rewrite E; [by left |].
    destruct (findRow_Some _ _ _ Hfind) as (Hid & _ & _).
    right; right; left. eexists r, _, _, _, _. rewrite Hid.
    split; [done |]. split; [done |]. split; [| split; [| reflexivity]].
    + destruct (teamRepo.FindByID (HomeTeamID r) db); auto.
    + destruct (teamRepo.FindByID (AwayTeamID r) db); auto.
  - (* Delete *)
    unfold Delete. svc.
    destruct (matchRepo.FindByID id db); [| by left].
    right; right; right; left. by exists id.
  - (* SubmitResult *)
    destruct (SubmitResult_cases uuid_Parse db id req)
      as [[_ E] | [(? & _ & _ & E) | (match_ & Hrow & Hnc & Hld & E)]];
      rewrite E; [by left | by left |].
    destruct (processGoals uuid_Parse match_ (In_Goals req) 0 0%Z 0%Z [] db)
      as [[e | [[h a] gs]] db1] eqn:Hloop.
    { rewrite (processResult_rejected _ _ _ _ _ _ Hloop). by left. }
    destruct (forallb (λ g, goalRepo.fitsColumn (Minute g)) gs) eqn:Hfit;
      [| rewrite (processResult_refused _ _ _ _ _ _ _ _ Hloop Hfit); by left].
    destruct (processResult_accepted _ _ _ _ _ _ _ _ _ Hloop Hrow Hld Hfit)
      as (_ & resp & Hrun & _).
    rewrite Hrun. simpl.
    destruct (findRow_Some _ _ _ Hrow) as (Hid & _ & _).
    apply processGoals_ok in Hloop as (_ & _ & _ & new & Hgs & _ & Hall).
    simpl in Hgs. subst gs.
    rewrite <- Hid in Hrow.
    do 4 right; left. by exists (row match_), h, a, new.
  - (* UpdateResult *)
    destruct (UpdateResult_cases uuid_Parse db id req)
      as [[_ E] | [(? & _ & _ & E) | (match_ & Hrow & Hc & Hld & E)]];
      rewrite E; [by left | by left |].
    destruct (findRow_Some _ _ _ Hrow) as (Hid & _ & _).
    do 5 right. exists (row match_). rewrite Hid. split; [done | split; [done |]].
    destruct (processGoals uuid_Parse match_ (In_Goals req) 0 0%Z 0%Z []
                (goalRepo.DeleteByMatchID id db))
      as [[e | [[h a] gs]] db1] eqn:Hloop.
    { rewrite (processResult_rejected _ _ _ _ _ _ Hloop). by left. }
    destruct (forallb (λ g, goalRepo.fitsColumn (Minute g)) gs) eqn:Hfit;
      [| rewrite (processResult_refused _ _ _ _ _ _ _ _ Hloop Hfit); by left].
    assert (Hrow' : matchRepo.findRow id (goalRepo.DeleteByMatchID id db)
                    = Some (row match_)) by done.
    destruct (processResult_accepted _ _ _ _ _ _ _ _ _ Hloop Hrow' Hld Hfit)
      as (_ & resp & Hrun & _).
    rewrite Hrun. simpl.
    apply processGoals_ok in Hloop as (_ & _ & _ & new & Hgs & _ & Hall).
    simpl in Hgs. subst gs. rewrite Hid in Hall.
    right. by exists h, a, new.
Qed.

End steps.

(** ** The table of matches under the writes *)

Lemma taken_iff (ms : list Match) id :
  existsb (λ r, (Match_ID r =? id)%N) ms = true ↔ id ∈ Match_ID <$> ms.
Proof.
  rewrite existsb_exists, list_elem_of_fmap. split.
  - intros (x & Hin & Hid). exists x. apply N.eqb_eq in Hid.
    split; [done | by apply list_elem_of_In].
  - intros (x & Hid & Hin). exists x.
    split; [by apply list_elem_of_In | by apply N.eqb_eq].
Qed.

Lemma key_unique (ms : list Match) r m :
  NoDup (Match_ID <$> ms) → r ∈ ms → m ∈ ms → Match_ID r = Match_ID m → r = m.
Proof.
  induction ms as [| a ms IH]; intros Hnd Hr Hm Heq.
  - by apply elem_of_nil in Hr.
  - rewrite fmap_cons in Hnd. apply NoDup_cons in Hnd as [Hnotin Hnd].
    apply elem_of_cons in Hr as [-> | Hr]; apply elem_of_cons in Hm as [-> | Hm];
      [done | | | by apply IH].
    + exfalso. apply Hnotin, list_elem_of_fmap. by exists m.
    + exfalso. apply Hnotin, list_elem_of_fmap. by exists r.
Qed.

Lemma rowOf_Some id db m :
  rowOf id db = Some m → m ∈ matches db ∧ Match_ID m = id.
Proof.
  unfold rowOf. intros H. destruct (find_some _ _ H) as [Hin Hid].
  split; [by apply list_elem_of_In | by apply N.eqb_eq].
Qed.

Lemma find_key_map (f : Match → Match) id (ms : list Match) :
  (∀ x, Match_ID (f x) = Match_ID x) →
  List.find (λ m, (Match_ID m =? id)%N) (map f ms) =
  f <$> List.find (λ m, (Match_ID m =? id)%N) ms.
Proof.
  intros Hf. induction ms as [| a ms IH]; simpl; [done |].
  rewrite Hf. by destruct (Match_ID a =? id)%N.
Qed.

Lemma keys_map (f : Match → Match) (ms : list Match) :
  (∀ x, Match_ID (f x) = Match_ID x) → Match_ID <$> map f ms = Match_ID <$> ms.
Proof.
  intros Hf. induction ms as [| a ms IH]; csimpl; [done |].
  by rewrite Hf, IH.
Qed.

Lemma find_key_app id (ms : list Match) m new :
  List.find (λ m, (Match_ID m =? id)%N) ms = Some m →
  List.find (λ m, (Match_ID m =? id)%N) (ms ++ new) = Some m.
Proof.
  induction ms as [| a ms IH]; simpl; [done |].
  by destruct (Match_ID a =? id)%N.
Qed.

Lemma replace_key m' x :
  Match_ID (if (Match_ID x =? Match_ID m')%N then m' else x) = Match_ID x.
Proof. destruct (N.eqb_spec (Match_ID x) (Match_ID m')); by simpl. Qed.

Lemma delete_key id x :
  Match_ID (if (Match_ID x =? id)%N && negb (Match_DeletedAt x)
            then match_deleted x else x) = Match_ID x.
Proof. by destruct (_ && _). Qed.

Lemma Create_Some m db db' :
  matchRepo.Create m db = Some db' →
  db' = set_matches (matches db ++ [m]) db ∧ Match_ID m ∉ Match_ID <$> matches db.
Proof.
  unfold matchRepo.Create.
  destruct (existsb _ _) eqn:Ht; [done |]. intros [= <-].
  split; [done |]. intros Hin. apply taken_iff in Hin. congruence.
Qed.

(** A completed row stays completed under each write, and keys stay unique. *)
Lemma completed_write db id m r m' :
  NoDup (Match_ID <$> matches db) →
  rowOf id db = Some m → Status m = "completed" →
  matchRepo.findRow (Match_ID m') db = Some r →
  (Status r = "completed" → Status m' = "completed") →
  NoDup (Match_ID <$> matches (matchRepo.write m' db)) ∧
  ∃ m2, rowOf id (matchRepo.write m' db) = Some m2 ∧ Status m2 = "completed".
Proof.
  intros Hnd Hrow Hc Hfind Hst.
  destruct (findRow_Some _ _ _ Hfind) as (Hid & _ & Hin).
  rewrite (write_matches db r m') by done. simpl.
  rewrite keys_map by apply replace_key. split; [done |].
  unfold rowOf in *. simpl. rewrite find_key_map by apply replace_key.
  rewrite Hrow. simpl. eexists. split; [done |].
  destruct (N.eqb_spec (Match_ID m) (Match_ID m')) as [Heq | _]; [| done].
  apply rowOf_Some in Hrow as [Hm _].
  assert (r = m) by (apply (key_unique (matches db)); congruence).
  subst r. auto.
Qed.

Lemma completed_Delete db id m id' :
  NoDup (Match_ID <$> matches db) →
  rowOf id db = Some m → Status m = "completed" →
  NoDup (Match_ID <$> matches (matchRepo.Delete id' db)) ∧
  ∃ m2, rowOf id (matchRepo.Delete id' db) = Some m2 ∧ Status m2 = "completed".
Proof.
  intros Hnd Hrow Hc. unfold matchRepo.Delete, rowOf in *. simpl.
  rewrite keys_map by apply delete_key. split; [done |].
  rewrite find_key_map by apply delete_key. rewrite Hrow. simpl.
  eexists. split; [done |]. by destruct (_ && _).
Qed.

Lemma completed_Create db id m new db' :
  NoDup (Match_ID <$> matches db) →
  rowOf id db = Some m → Status m = "completed" →
  matchRepo.Create new db = Some db' →
  NoDup (Match_ID <$> matches db') ∧
  ∃ m2, rowOf id db' = Some m2 ∧ Status m2 = "completed".
Proof.
  intros Hnd Hrow Hc Hcreate.
  apply Create_Some in Hcreate as [-> Hfresh]. simpl. split.
  - rewrite fmap_app. apply NoDup_app. split; [done |]. split.
    + intros x Hx Hx'. apply list_elem_of_singleton in Hx'. by subst x.
    + apply NoDup_singleton.
  - exists m. split; [| done]. unfold rowOf in *. simpl. by apply find_key_app.
Qed.

(** ** The status of a completed match *)

Section stateMachine.

Variable uuid_Parse : string → option N.

Lemma step_completed db op id m :
  NoDup (Match_ID <$> matches db) →
  rowOf id db = Some m → Status m = "completed" →
  NoDup (Match_ID <$> matches (step uuid_Parse db op)) ∧
  ∃ m', rowOf id (step uuid_Parse db op) = Some m' ∧ Status m' = "completed".
Proof.
  intros Hnd Hrow Hst.
  destruct (step_cases uuid_Parse db op)
    as [E | [(new & Hc & _) | [(r & h & a & d & t & Hfind & Hnc & _ & _ & E) |
       [(id' & E) | [(r & h & a & gs & Hfind & Hnc & Hall & E) |
       (r & Hfind & Hc & [E | (h & a & gs & Hall & E)])]]]]].
  - rewrite E. eauto.
  - by apply (completed_Create db id m new).
  - rewrite E. by apply (completed_write db id m r).
  - rewrite E. by apply (completed_Delete db id m).
  - rewrite E, insert_goals.
    by apply (completed_write (set_goals (goals db ++ gs) db) id m r).
  - rewrite E. split; [done |]. by exists m.
  - rewrite E, insert_goals.
    by apply (completed_write (set_goals _ (goalRepo.DeleteByMatchID (Match_ID r) db))
                id m r).
Qed.

(** C4. In a table with unique primary keys, a match row that is completed
    is still there and still completed, hence not scheduled, after any
    sequence of Create, Update, Delete, SubmitResult and UpdateResult calls,
    whether they succeed or fail. *)
Theorem completed_never_rescheduled ops :
  ∀ db id m,
    NoDup (Match_ID <$> matches db) →
    rowOf id db = Some m → Status m = "completed" →
    ∃ m', rowOf id (run uuid_Parse ops db) = Some m' ∧
          Status m' = "completed" ∧ Status m' ≠ "scheduled".
Proof.
  induction ops as [| op ops IH]; intros db id m Hnd Hrow Hst; simpl.
  - exists m. rewrite Hst. by repeat split.
  - destruct (step_completed db op id m Hnd Hrow Hst) as (Hnd' & m' & Hrow' & Hst').
    by apply (IH _ id m').
Qed.

End stateMachine.

(** [completed_never_rescheduled] on the completed opener of the league: a
    new schedule, a replaced result, a delete and an insert under its key are
    tried on it. *)
Lemma completed_never_rescheduled_witness :
  ∃ m', rowOf 101
          (run league.parse
             [ OpUpdate 101 {| Update_HomeTeamID := "rajawali"; Update_AwayTeamID := "elang";
                               Update_MatchDate := "2026-04-01"; Update_MatchTime := "20:00" |};
               OpUpdateResult 101 league.twoOne;
               OpDelete 101;
               OpCreate 101 {| Create_HomeTeamID := "garuda"; Create_AwayTeamID := "elang";
                               Create_MatchDate := "2026-05-01"; Create_MatchTime := "18:00" |};
               OpSubmitResult 101 league.kickoff ]
             league.db) = Some m' ∧
        Status m' = "completed" ∧ Status m' ≠ "scheduled".
Proof.
  apply (completed_never_rescheduled league.parse _ league.db 101 league.opener).
  - apply NoDup_ListNoDup. vm_compute. repeat constructor; simpl; intuition discriminate.
  - reflexivity.
  - reflexivity.
Defined.

(** ** The store invariants are kept by every operation *)

Lemma elem_of_map {A B} (f : A → B) (l : list A) y :
  y ∈ map f l ↔ ∃ x, y = f x ∧ x ∈ l.
Proof.
  rewrite list_elem_of_In, in_map_iff. split.
  - intros (x & Hy & Hin). exists x. split; [done | by apply list_elem_of_In].
  - intros (x & Hy & Hin). exists x. split; [done | by apply list_elem_of_In].
Qed.

Lemma wellFormed_empty :
  wellFormed {| teams := []; players := []; matches := []; goals := [] |}.
Proof.
  split; simpl.
  - apply NoDup_nil_2.
  - intros m Hm. by apply elem_of_nil in Hm.
  - intros m Hm. by apply elem_of_nil in Hm.
  - intros g Hg. by apply elem_of_nil in Hg.
Qed.

(** What the invariants say about a match that is found. *)
Lemma wellFormed_found db id m :
  wellFormed db → matchRepo.findRow id db = Some m →
  Status m ∈ ValidMatchStatuses ∧
  HomeTeamID m ≠ AwayTeamID m ∧
  (Status m ≠ "completed" → goalRepo.ofMatch id db = []).
Proof.
  intros [Hkeys Hstatus Hteams Hgoals] Hfind.
  destruct (findRow_Some _ _ _ Hfind) as (Hid & _ & Hin).
  split; [auto | split; [auto |]]. intros Hnc.
  destruct (goalRepo.ofMatch id db) as [| g l] eqn:Hof; [done |]. exfalso.
  assert (Hg : In g (goalRepo.ofMatch id db)) by (rewrite Hof; by left).
  apply filter_In in Hg as [Hg Hb]. apply andb_prop in Hb as [Hgid Hlive].
  apply N.eqb_eq in Hgid. apply negb_true_iff in Hlive.
  destruct (Hgoals g (proj2 (list_elem_of_In _ _) Hg) Hlive) as (m0 & Hin0 & Hid0 & Hc).
  assert (m0 = m) by (apply (key_unique (matches db)); congruence).
  congruence.
Qed.

Lemma wellFormed_Create db m db' :
  wellFormed db → matchRepo.Create m db = Some db' →
  Status m = "scheduled" → HomeTeamID m ≠ AwayTeamID m →
  wellFormed db'.
Proof.
  intros [Hkeys Hstatus Hteams Hgoals] Hc Hs Hne.
  apply Create_Some in Hc as [-> Hfresh]. split; simpl.
  - rewrite fmap_app. apply NoDup_app. split; [done |]. split.
    + intros x Hx Hx'. apply list_elem_of_singleton in Hx'. by subst x.
    + apply NoDup_singleton.
  - intros x Hx. apply elem_of_app in Hx as [Hx | Hx]; [auto |].
    apply list_elem_of_singleton in Hx. subst x. rewrite Hs.
    unfold ValidMatchStatuses. apply list_elem_of_here.
  - intros x Hx. apply elem_of_app in Hx as [Hx | Hx]; [auto |].
    apply list_elem_of_singleton in Hx. by subst x.
  - intros g Hg Hlive. destruct (Hgoals g Hg Hlive) as (m0 & Hin & Hid & Hc).
    exists m0. rewrite elem_of_app. auto.
Qed.

Lemma wellFormed_Delete db id :
  wellFormed db → wellFormed (matchRepo.Delete id db).
Proof.
  intros [Hkeys Hstatus Hteams Hgoals]. unfold matchRepo.Delete. split; simpl.
  - by rewrite keys_map by apply delete_key.
  - intros x Hx. apply elem_of_map in Hx as (y & -> & Hy).
    destruct (_ && _); simpl; auto.
  - intros x Hx. apply elem_of_map in Hx as (y & -> & Hy).
    destruct (_ && _); simpl; auto.
  - intros g Hg Hlive. destruct (Hgoals g Hg Hlive) as (m0 & Hin & Hid & Hc).
    eexists. split; [apply elem_of_map; exists m0; split; [reflexivity | done] |].
    destruct (_ && _); simpl; auto.
Qed.

Lemma wellFormed_DeleteByMatchID db id :
  wellFormed db → wellFormed (goalRepo.DeleteByMatchID id db).
Proof.
  intros [Hkeys Hstatus Hteams Hgoals]. split; simpl; [done | done | done |].
  intros g Hg Hlive. apply elem_of_map in Hg as (g0 & -> & Hg0).
  destruct (_ && _); simpl in *; [done | auto].
Qed.

(** The save of a row over the found one, after the insert of goals of the
    match. *)
Lemma wellFormed_save db r m' gs :
  wellFormed db →
  matchRepo.findRow (Match_ID m') db = Some r →
  Status m' ∈ ValidMatchStatuses →
  HomeTeamID m' ≠ AwayTeamID m' →
  (Status r = "completed" → Status m' = "completed") →
  Forall (λ g, Goal_MatchID g = Match_ID m' ∧ Goal_DeletedAt g = false) gs →
  (gs ≠ [] → Status m' = "completed") →
  wellFormed (matchRepo.write m' (goalRepo.insert gs db)).
Proof.
  intros [Hkeys Hstatus Hteams Hgoals] Hfind Hvalid Hne Hkeep Hown Hbatch.
  destruct (findRow_Some _ _ _ Hfind) as (Hid & _ & Hin).
  rewrite insert_goals.
  rewrite (write_matches (set_goals (goals db ++ gs) db) r m') by done.
  assert (Hsaved : ∀ m0, m0 ∈ matches db →
            (if (Match_ID m0 =? Match_ID m')%N then m' else m0)
              ∈ map (λ x, if (Match_ID x =? Match_ID m')%N then m' else x) (matches db)).
  { intros m0 H0. apply elem_of_map. by exists m0. }
  split; simpl.
  - by rewrite keys_map by apply replace_key.
  - intros x Hx. apply elem_of_map in Hx as (y & -> & Hy).
    destruct (_ =? _)%N; auto.
  - intros x Hx. apply elem_of_map in Hx as (y & -> & Hy).
    destruct (_ =? _)%N; auto.
  - intros g Hg Hlive. apply elem_of_app in Hg as [Hg | Hg].
    + destruct (Hgoals g Hg Hlive) as (m0 & Hin0 & Hid0 & Hc).
      eexists. split; [exact (Hsaved m0 Hin0) |].
      rewrite replace_key. split; [done |].
      destruct (N.eqb_spec (Match_ID m0) (Match_ID m')) as [Heq | _]; [| done].
      assert (r = m0) by (apply (key_unique (matches db)); congruence).
      subst r. auto.
    + rewrite Forall_forall in Hown. destruct (Hown g Hg) as [Hgid _].
      eexists. split; [exact (Hsaved r Hin) |].
      rewrite replace_key. split; [congruence |].
      rewrite Hid, N.eqb_refl. apply Hbatch. intros ->. by apply elem_of_nil in Hg.
Qed.

(** The teams of the live matches stay found: no operation on matches
    touches a team, a new match names two teams that are found, and a save
    leaves the teams of a match whose teams are found as they are. *)
Lemma teamsFound_write db r m' :
  teamsFound db → matchRepo.findRow (Match_ID m') db = Some r →
  HomeTeamID m' = HomeTeamID r → AwayTeamID m' = AwayTeamID r →
  teamsFound (matchRepo.write m' db).
Proof.
  intros Hfound Hfind Hh Ha.
  destruct (findRow_Some _ _ _ Hfind) as (Hid & Hlive & Hin).
  rewrite (write_matches db r m') by done.
  intros m Hm Hl. simpl in Hm. apply elem_of_map in Hm as (y & -> & Hy).
  change (is_Some (teamRepo.FindByID
                     (HomeTeamID (if (Match_ID y =? Match_ID m')%N then m' else y)) db) ∧
          is_Some (teamRepo.FindByID
                     (AwayTeamID (if (Match_ID y =? Match_ID m')%N then m' else y)) db)).
  destruct (Match_ID y =? Match_ID m')%N.
  - rewrite Hh, Ha. by apply Hfound.
  - by apply Hfound.
Qed.

Lemma teamsFound_insert db gs : teamsFound db → teamsFound (goalRepo.insert gs db).
Proof. intros Hfound. rewrite insert_goals. exact Hfound. Qed.

Section invariants.

Variable uuid_Parse : string → option N.

Lemma teamsFound_step db op :
  teamsFound db → teamsFound (step uuid_Parse db op).
Proof.
  intros Hfound.
  destruct (step_cases uuid_Parse db op)
    as [E | [(new & Hc & _ & _ & Hth & Hta) |
       [(r & h & a & d & t & Hfind & Hnc & Hh & Ha & E) |
       [(id' & E) | [(r & h & a & gs & Hfind & Hnc & Hall & E) |
       (r & Hfind & Hc & [E | (h & a & gs & Hall & E)])]]]]].
  - by rewrite E.
  - apply Create_Some in Hc as [-> _]. intros m Hm Hl. simpl in Hm.
    apply elem_of_app in Hm as [Hm | Hm]; [by apply Hfound |].
    apply list_elem_of_singleton in Hm. by subst m.
  - rewrite E.
    destruct (findRow_Some _ _ _ Hfind) as (_ & Hlive & Hin).
    destruct (Hfound r Hin Hlive) as [[th Hth] [ta Hta]].
    destruct Hh as [-> | Hh]; [| congruence]. destruct Ha as [-> | Ha]; [| congruence].
    by apply (teamsFound_write db r).
  - rewrite E. intros m Hm Hl. unfold matchRepo.Delete in Hm. simpl in Hm.
    apply elem_of_map in Hm as (y & -> & Hy).
    destruct (_ && _); [done | by apply Hfound].
  - rewrite E. apply (teamsFound_write _ r); [by apply teamsFound_insert | | done | done].
    by rewrite findRow_insert.
  - rewrite E. exact Hfound.
  - rewrite E. apply (teamsFound_write _ r); [apply teamsFound_insert; exact Hfound | | done | done].
    by rewrite findRow_insert.
Qed.

Lemma wellFormed_step db op :
  wellFormed db → teamsFound db → wellFormed (step uuid_Parse db op).
Proof.
  intros Hwf Hfound.
  assert (Hcompleted : "completed" ∈ ValidMatchStatuses)
    by (unfold ValidMatchStatuses; rewrite !elem_of_cons; auto).
  destruct (step_cases uuid_Parse db op)
    as [E | [(new & Hc & Hs & Hne & _) |
       [(r & h & a & d & t & Hfind & Hnc & Hh & Ha & E) |
       [(id' & E) | [(r & h & a & gs & Hfind & Hnc & Hall & E) |
       (r & Hfind & Hc & [E | (h & a & gs & Hall & E)])]]]]].
  - by rewrite E.
  - by apply (wellFormed_Create db new).
  - rewrite E.
    destruct (wellFormed_found _ _ _ Hwf Hfind) as (Hvalid & Hteams & _).
    destruct (findRow_Some _ _ _ Hfind) as (_ & Hlive & Hin).
    destruct (Hfound r Hin Hlive) as [[th Hth] [ta Hta]].
    destruct Hh as [-> | Hh]; [| congruence]. destruct Ha as [-> | Ha]; [| congruence].
    by apply (wellFormed_save db r _ []).
  - rewrite E. by apply wellFormed_Delete.
  - rewrite E.
    destruct (wellFormed_found _ _ _ Hwf Hfind) as (_ & Hteams & _).
    by apply (wellFormed_save db r).
  - rewrite E. by apply wellFormed_DeleteByMatchID.
  - rewrite E.
    destruct (wellFormed_found _ _ _ Hwf Hfind) as (_ & Hteams & _).
    apply (wellFormed_save _ r); try done.
    by apply wellFormed_DeleteByMatchID.
Qed.

(** The invariants hold in every store reached by the operations from a
    store whose live matches name teams that are found. *)
Lemma wellFormed_run ops :
  ∀ db, wellFormed db → teamsFound db →
        wellFormed (run uuid_Parse ops db) ∧ teamsFound (run uuid_Parse ops db).
Proof.
  induction ops as [| op ops IH]; intros db Hwf Hfound; simpl; [done |].
  apply IH; [by apply wellFormed_step | by apply teamsFound_step].
Qed.

End invariants.

(** ** The league, played *)

(** Two goals of Bambang for the home team and one of Atep for the away
    team make the final a 2-1 "Home Win" with Bambang as top scorer. *)
Example final_two_one :
  let out := SubmitResult league.parse 100 league.twoOne league.db in
  (∃ resp, out.1 = inr resp ∧ MR_Status resp = "completed" ∧
           MR_HomeScore resp = 2%Z ∧ MR_AwayScore resp = 1%Z) ∧
  ∃ report, (GetMatchReportByID league.inKeyOrder 100 out.2).1 = inr report ∧
            MatchResult report = "Home Win" ∧
            TopScorer report =
              Some {| TS_PlayerName := "Bambang"; TS_TeamName := "Garuda";
                      GoalsInMatch := 2 |} ∧
            HomeTeamTotalWins report = 2%Z ∧ AwayTeamTotalWins report = 0%Z.
Proof. vm_compute. split; eexists; (split; [reflexivity |]); by repeat split. Qed.

(** Valid goals, one of them in minute 2147483648: the batch insert fails,
    [SubmitResult] answers the internal error and the final stays scheduled
    without goals; [UpdateResult] on the opener answers the same error
    after it has deleted the goal of the opener. *)
Example final_endless :
  SubmitResult league.parse 100 season.endless league.db =
    (inl (ErrInternal "Internal server error"), league.db) ∧
  UpdateResult league.parse 101 season.endless league.db =
    (inl (ErrInternal "Internal server error"), goalRepo.DeleteByMatchID 101 league.db) ∧
  goalRepo.ofMatch 101 (goalRepo.DeleteByMatchID 101 league.db) = [].
Proof. by vm_compute. Qed.

(** A goal credited to a team outside the match is refused by
    [SubmitResult], and the final stays scheduled without goals. *)
Example final_stranger :
  SubmitResult league.parse 100 league.stranger league.db =
    (inl (ErrBadRequest "Goal #1: team_id must be either home or away team"), league.db).
Proof. reflexivity. Qed.

(** The league satisfies the store invariants. *)
Example league_wellFormed : wellFormed league.db.
Proof.
  split.
  - apply NoDup_ListNoDup. vm_compute. repeat constructor; simpl; intuition discriminate.
  - intros m Hm. apply list_elem_of_In in Hm. simpl in Hm.
    destruct Hm as [<- | [<- | []]]; apply list_elem_of_In; simpl; auto.
  - intros m Hm. apply list_elem_of_In in Hm. simpl in Hm.
    destruct Hm as [<- | [<- | []]]; discriminate.
  - intros g Hg _. apply list_elem_of_In in Hg. simpl in Hg.
    destruct Hg as [<- | []]. exists league.opener.
    split; [| done]. apply list_elem_of_In. simpl. auto.
Qed.

(** Every match of the league is played by teams that are found. *)
Example league_teamsFound : teamsFound league.db.
Proof.
  intros m Hm _. apply list_elem_of_In in Hm. simpl in Hm.
  destruct Hm as [<- | [<- | []]]; split; vm_compute; eauto.
Qed.

(** * Further properties of the services *)

(** ** Which results are accepted *)

Section validation.

Variable uuid_Parse : string → option N.

(** The loop passes over valid goals. *)
Lemma processGoals_app match_ pre rest :
  ∀ i homeScore awayScore goals db,
    forallb (validGoal uuid_Parse db (row match_)) pre = true →
    ∃ homeScore' awayScore' new,
      Forall2 (storesInput uuid_Parse (Match_ID (row match_))) new pre ∧
      processGoals uuid_Parse match_ (pre ++ rest) i homeScore awayScore goals db =
      processGoals uuid_Parse match_ rest (i + length pre) homeScore' awayScore'
        (goals ++ new) db.
Proof.
  induction pre as [| g pre IH]; intros i h a gs db Hvalid; simpl.
  - exists h, a, []. rewrite Nat.add_0_r, app_nil_r. by split; [constructor |].
  - simpl in Hvalid. apply andb_prop in Hvalid as [Hg Hpre].
    unfold validGoal in Hg. svc.
    destruct (uuid_Parse (In_PlayerID g)) as [playerID |] eqn:Hp; [| done].
    destruct (uuid_Parse (In_TeamID g)) as [teamID |] eqn:Ht; [| done]. simpl.
    apply andb_prop in Hg as [Hteam Hplayer].
    destruct (playerRepo.FindByID playerID db) as [player |] eqn:Hfound; [| done].
    assert (Hin : negb (teamID =? HomeTeamID (row match_))%N &&
                  negb (teamID =? AwayTeamID (row match_))%N = false).
    { apply orb_prop in Hteam as [-> | ->]; simpl; [done | apply andb_false_r]. }
    rewrite Hin, Hfound. simpl. rewrite Hplayer. simpl.
    destruct (IH (S i) (if (teamID =? HomeTeamID (row match_))%N then (h + 1)%Z else h)
                (if (teamID =? HomeTeamID (row match_))%N then a else (a + 1)%Z)
                (gs ++ [ {| Goal_MatchID := Match_ID (row match_);
                            Goal_PlayerID := playerID; Goal_TeamID := teamID;
                            Minute := In_Minute g; Goal_DeletedAt := false |} ])
                db Hpre) as (h' & a' & new & Hnew & E).
    eexists h', a', (_ :: new).
    split; [| rewrite E, <- app_assoc; simpl; do 2 f_equal; lia].
    constructor; [| exact Hnew]. by repeat split.
Qed.

(** A loop that runs to its end has seen only valid goals. *)
Lemma processGoals_valid match_ inputs :
  ∀ i homeScore awayScore goals db out db',
    processGoals uuid_Parse match_ inputs i homeScore awayScore goals db = (inr out, db') →
    forallb (validGoal uuid_Parse db (row match_)) inputs = true.
Proof.
  induction inputs as [| g rest IH]; intros i h a gs db out db' H; simpl; [done |].
  simpl in H. unfold validGoal. svc.
  destruct (uuid_Parse (In_PlayerID g)) as [playerID |]; [| done].
  destruct (uuid_Parse (In_TeamID g)) as [teamID |]; [| done]. simpl in *.
  destruct (teamID =? HomeTeamID (row match_))%N eqn:Hhome;
    destruct (teamID =? AwayTeamID (row match_))%N eqn:Haway; simpl in *; try done;
    (destruct (playerRepo.FindByID playerID db) as [player |]; [| done]);
    (destruct (Player_TeamID player =? teamID)%N; simpl in *; [| done]);
    by apply IH in H.
Qed.

End validation.

Section acceptance.

Variable uuid_Parse : string → option N.

(** The loop over valid goals runs to its end and collects one row per
    goal, in the order of the request. *)
Lemma processGoals_all_valid match_ inputs db :
  forallb (validGoal uuid_Parse db (row match_)) inputs = true →
  ∃ homeScore awayScore new,
    Forall2 (storesInput uuid_Parse (Match_ID (row match_))) new inputs ∧
    processGoals uuid_Parse match_ inputs 0 0%Z 0%Z [] db =
      (inr (homeScore, awayScore, new), db).
Proof.
  intros Hvalid.
  destruct (processGoals_app uuid_Parse match_ inputs [] 0 0%Z 0%Z [] db Hvalid)
    as (h & a & new & Hnew & E).
  rewrite app_nil_r in E. exists h, a, new. by rewrite E.
Qed.

(** The rows the loop collects carry the minutes of the request. *)
Lemma stored_minutes id (new : list Goal) inputs :
  Forall2 (storesInput uuid_Parse id) new inputs →
  forallb (λ g, goalRepo.fitsColumn (Minute g)) new =
  forallb (λ g, goalRepo.fitsColumn (In_Minute g)) inputs.
Proof.
  induction 1 as [| g input new inputs (_ & _ & _ & Hminute & _) _ IH]; simpl; [done |].
  by rewrite Hminute, IH.
Qed.

Lemma processResult_accepted_iff match_ req db id :
  matchRepo.findRow id db = Some (row match_) →
  loaded match_ →
  (∃ resp db', processResult uuid_Parse match_ req db = (inr resp, db')) ↔
  forallb (validGoal uuid_Parse db (row match_)) (In_Goals req) = true ∧
  forallb (λ g, goalRepo.fitsColumn (In_Minute g)) (In_Goals req) = true.
Proof.
  intros Hfind Hld. split.
  - intros (resp & db' & Hrun).
    destruct (processGoals uuid_Parse match_ (In_Goals req) 0 0%Z 0%Z [] db)
      as [[e | [[h a] gs]] db1] eqn:Hloop.
    + rewrite (processResult_rejected _ _ _ _ _ _ Hloop) in Hrun. discriminate.
    + apply processGoals_valid in Hloop as Hvalid. split; [done |].
      destruct (processGoals_all_valid match_ (In_Goals req) db Hvalid)
        as (h' & a' & new & Hnew & Hloop').
      rewrite Hloop' in Hloop. injection Hloop as -> -> -> _.
      rewrite <- (stored_minutes _ _ _ Hnew).
      destruct (forallb (λ g, goalRepo.fitsColumn (Minute g)) gs) eqn:Hfit; [done |].
      rewrite (processResult_refused _ _ _ _ _ _ _ _ Hloop' Hfit) in Hrun. discriminate.
  - intros [Hvalid Hfit].
    destruct (processGoals_all_valid match_ (In_Goals req) db Hvalid)
      as (h & a & new & Hnew & Hloop).
    rewrite <- (stored_minutes _ _ _ Hnew) in Hfit.
    destruct (processResult_accepted _ _ _ _ _ _ _ _ _ Hloop Hfind Hld Hfit)
      as (_ & resp & Hrun & _).
    eauto.
Qed.

(** Valid goals, one of which does not fit the column of its minute. *)
Lemma processResult_overflow match_ req db :
  forallb (validGoal uuid_Parse db (row match_)) (In_Goals req) = true →
  forallb (λ g, goalRepo.fitsColumn (In_Minute g)) (In_Goals req) = false →
  processResult uuid_Parse match_ req db =
    (inl (ErrInternal "Internal server error"), db).
Proof.
  intros Hvalid Hfit.
  destruct (processGoals_all_valid match_ (In_Goals req) db Hvalid)
    as (h & a & new & Hnew & Hloop).
  rewrite <- (stored_minutes _ _ _ Hnew) in Hfit.
  by apply (processResult_refused _ _ _ _ _ _ _ _ Hloop Hfit).
Qed.

(** X1. Which results are accepted.  [SubmitResult] on a match that is
    found and not completed, and [UpdateResult] on a match that is found and
    completed, succeed if and only if every submitted goal is valid (both
    identifiers parse, the team is the home or the away team, the player is
    found and belongs to that team) and every minute fits the [int] column
    of the goal table.  When the goals are valid and a minute does not fit,
    the batch insert fails and the answer is the internal error; no goal of
    the request is stored, and [UpdateResult] has deleted the old goals. *)
Theorem result_accepted_iff db matchID m req :
  matchRepo.findRow matchID db = Some m →
  let valid := forallb (validGoal uuid_Parse db m) (In_Goals req) = true in
  let fitting := Forall (λ g, (-2147483648 ≤ In_Minute g ≤ 2147483647)%Z)
                   (In_Goals req) in
  (Status m ≠ "completed" →
   ((∃ resp db', SubmitResult uuid_Parse matchID req db = (inr resp, db')) ↔
    valid ∧ fitting) ∧
   (valid → ¬ fitting →
    SubmitResult uuid_Parse matchID req db =
      (inl (ErrInternal "Internal server error"), db))) ∧
  (Status m = "completed" →
   ((∃ resp db', UpdateResult uuid_Parse matchID req db = (inr resp, db')) ↔
    valid ∧ fitting) ∧
   (valid → ¬ fitting →
    UpdateResult uuid_Parse matchID req db =
      (inl (ErrInternal "Internal server error"),
       goalRepo.DeleteByMatchID matchID db))).
Proof.
  intros Hfind valid fitting.
  assert (Hfitting : forallb (λ g, goalRepo.fitsColumn (In_Minute g)) (In_Goals req) = true
                     ↔ fitting).
  { unfold fitting. rewrite forallb_forall, Forall_forall.
    apply forall_proper. intros g. rewrite <- list_elem_of_In.
    unfold goalRepo.fitsColumn. rewrite andb_true_iff, !Z.leb_le. done. }
  split; intros Hst.
  - destruct (SubmitResult_cases uuid_Parse db matchID req)
      as [[Hnone _] | [(m0 & Hrow & Hc & _) | (match_ & Hrow & _ & Hld & E)]];
      [congruence | congruence |].
    rewrite E. assert (row match_ = m) as Hm by congruence.
    unfold valid. rewrite <- Hm, <- Hfitting. split.
    + by apply processResult_accepted_iff with (id := matchID).
    + intros Hvalid Hno. apply processResult_overflow; [done |].
      by apply not_true_is_false.
  - destruct (UpdateResult_cases uuid_Parse db matchID req)
      as [[Hnone _] | [(m0 & Hrow & Hc & _) | (match_ & Hrow & _ & Hld & E)]];
      [congruence | congruence |].
    rewrite E. assert (row match_ = m) as Hm by congruence.
    unfold valid. rewrite <- Hm, <- Hfitting. split.
    + by apply (processResult_accepted_iff match_ req
                  (goalRepo.DeleteByMatchID matchID db) matchID).
    + intros Hvalid Hno.
      apply (processResult_overflow match_ req (goalRepo.DeleteByMatchID matchID db));
        [done |].
      by apply not_true_is_false.
Qed.

(** The rows a successful [processResult] has written. *)
Lemma processResult_rows match_ req d matchID resp db' :
  matchRepo.findRow matchID d = Some (row match_) →
  loaded match_ →
  processResult uuid_Parse match_ req d = (inr resp, db') →
  ∃ new, goals db' = goals d ++ new ∧
         Forall2 (storesInput uuid_Parse matchID) new (In_Goals req) ∧
         teams db' = teams d ∧ players db' = players d.
Proof.
  intros Hrow Hld Hrun.
  assert (Hok : forallb (validGoal uuid_Parse d (row match_)) (In_Goals req) = true ∧
                forallb (λ g, goalRepo.fitsColumn (In_Minute g)) (In_Goals req) = true)
    by (apply (processResult_accepted_iff match_ req d matchID Hrow Hld); eauto).
  destruct Hok as [Hvalid Hfit].
  destruct (processGoals_all_valid match_ (In_Goals req) d Hvalid)
    as (h & a & new & Hnew & Hloop).
  rewrite <- (stored_minutes _ _ _ Hnew) in Hfit.
  destruct (processResult_accepted _ _ _ _ _ _ _ _ _ Hloop Hrow Hld Hfit)
    as (_ & resp' & Hrun' & _).
  rewrite Hrun' in Hrun. injection Hrun as _ <-.
  destruct (findRow_Some _ _ _ Hrow) as (Hid & _ & Hin).
  rewrite Hid in Hnew. exists new.
  rewrite goals_write, insert_goals.
  rewrite (write_matches _ (row match_)) by done. done.
Qed.

(** X2. A successful [SubmitResult] appends to the goal table one live row
    per submitted goal, in the order of the request, each with the match,
    the player, the team and the minute of its goal, and leaves the teams
    and the players as they were; a successful [UpdateResult] does the same
    after the old goals of the match are deleted. *)
Theorem result_rows db matchID req resp db' :
  (SubmitResult uuid_Parse matchID req db = (inr resp, db') →
   ∃ new, goals db' = goals db ++ new ∧
          Forall2 (storesInput uuid_Parse matchID) new (In_Goals req) ∧
          teams db' = teams db ∧ players db' = players db) ∧
  (UpdateResult uuid_Parse matchID req db = (inr resp, db') →
   ∃ new, goals db' = goals (goalRepo.DeleteByMatchID matchID db) ++ new ∧
          Forall2 (storesInput uuid_Parse matchID) new (In_Goals req) ∧
          teams db' = teams db ∧ players db' = players db).
Proof.
  split; intros Hrun.
  - destruct (SubmitResult_cases uuid_Parse db matchID req)
      as [[_ E] | [(? & _ & _ & E) | (match_ & Hrow & _ & Hld & E)]];
      rewrite E in Hrun; try discriminate.
    by apply (processResult_rows match_ req db matchID resp).
  - destruct (UpdateResult_cases uuid_Parse db matchID req)
      as [[_ E] | [(? & _ & _ & E) | (match_ & Hrow & _ & Hld & E)]];
      rewrite E in Hrun; try discriminate.
    by apply (processResult_rows match_ req (goalRepo.DeleteByMatchID matchID db)
                matchID resp).
Qed.

End acceptance.

(** ** Which goal a rejection names *)

Section rejection.

Variable uuid_Parse : string → option N.

(** When the loop stops at a goal after valid ones, both operations answer
    with the error of that goal; [SubmitResult] has written nothing,
    [UpdateResult] has deleted the old goals of the match. *)
Lemma result_rejected db matchID m pre g post (e : AppError) :
  matchRepo.findRow matchID db = Some m →
  forallb (validGoal uuid_Parse db m) pre = true →
  (∀ match_ homeScore awayScore goals d,
     row match_ = m → players d = players db →
     processGoals uuid_Parse match_ (g :: post) (0 + length pre) homeScore awayScore goals d
       = (inl e, d)) →
  let req := {| In_Goals := pre ++ g :: post |} in
  (Status m ≠ "completed" →
   SubmitResult uuid_Parse matchID req db = (inl e, db)) ∧
  (Status m = "completed" →
   UpdateResult uuid_Parse matchID req db = (inl e, goalRepo.DeleteByMatchID matchID db)).
Proof.
  intros Hfind Hpre Hstop req.
  assert (Hcore : ∀ match_ d,
            row match_ = m → players d = players db →
            processResult uuid_Parse match_ req d = (inl e, d)).
  { intros match_ d Hrow Hplayers.
    assert (Hpre' : forallb (validGoal uuid_Parse d (row match_)) pre = true).
    { rewrite Hrow. unfold validGoal, playerRepo.FindByID in *. by rewrite Hplayers. }
    destruct (processGoals_app uuid_Parse match_ pre (g :: post) 0 0%Z 0%Z [] d Hpre')
      as (h & a & new & _ & E).
    eapply processResult_rejected. simpl. rewrite E. by apply Hstop. }
  split; intros Hst.
  - destruct (SubmitResult_cases uuid_Parse db matchID req)
      as [[Hnone _] | [(m0 & Hrow & Hc & _) | (match_ & Hrow & _ & Hld & E)]];
      [congruence | congruence |].
    rewrite E. apply Hcore; congruence.
  - destruct (UpdateResult_cases uuid_Parse db matchID req)
      as [[Hnone _] | [(m0 & Hrow & Hc & _) | (match_ & Hrow & _ & Hld & E)]];
      [congruence | congruence |].
    rewrite E. apply Hcore; [congruence | done].
Qed.

(** X3. A goal whose team is neither the home nor the away team of the
    match, coming after valid goals, is refused with the bad request "Goal
    #n: team_id must be either home or away team", n being its position in
    the request, whether its player exists or not. *)
Theorem goal_team_not_in_match db matchID m pre g post playerID teamID :
  matchRepo.findRow matchID db = Some m →
  forallb (validGoal uuid_Parse db m) pre = true →
  uuid_Parse (In_PlayerID g) = Some playerID →
  uuid_Parse (In_TeamID g) = Some teamID →
  teamID ≠ HomeTeamID m → teamID ≠ AwayTeamID m →
  let req := {| In_Goals := pre ++ g :: post |} in
  let e := ErrBadRequest
             (goalMessage (length pre) "team_id must be either home or away team") in
  (Status m ≠ "completed" →
   SubmitResult uuid_Parse matchID req db = (inl e, db)) ∧
  (Status m = "completed" →
   UpdateResult uuid_Parse matchID req db = (inl e, goalRepo.DeleteByMatchID matchID db)).
Proof.
  intros Hfind Hpre Hp Ht Hh Ha.
  apply result_rejected; [done | done |].
  intros match_ h a gs d <- _. simpl. svc. rewrite Hp, Ht. simpl.
  apply N.eqb_neq in Hh, Ha. by rewrite Hh, Ha.
Qed.

(** X4. A goal of a team of the match whose player is not found, coming
    after valid goals, is refused with the not-found error "Goal #n: player
    not found"; one whose player belongs to another team is refused with
    the bad request "Goal #n: player does not belong to the specified
    team". *)
Theorem goal_player_rejected db matchID m pre g post playerID teamID :
  matchRepo.findRow matchID db = Some m →
  forallb (validGoal uuid_Parse db m) pre = true →
  uuid_Parse (In_PlayerID g) = Some playerID →
  uuid_Parse (In_TeamID g) = Some teamID →
  teamID = HomeTeamID m ∨ teamID = AwayTeamID m →
  validGoal uuid_Parse db m g = false →
  let req := {| In_Goals := pre ++ g :: post |} in
  let e := match playerRepo.FindByID playerID db with
           | None => ErrNotFound (goalMessage (length pre) "player not found")
           | Some _ => ErrBadRequest
                         (goalMessage (length pre)
                            "player does not belong to the specified team")
           end in
  (Status m ≠ "completed" →
   SubmitResult uuid_Parse matchID req db = (inl e, db)) ∧
  (Status m = "completed" →
   UpdateResult uuid_Parse matchID req db = (inl e, goalRepo.DeleteByMatchID matchID db)).
Proof.
  intros Hfind Hpre Hp Ht Hteam Hinvalid.
  apply result_rejected; [done | done |].
  intros match_ h a gs d <- Hplayers. simpl. svc. rewrite Hp, Ht. simpl.
  unfold validGoal in Hinvalid. rewrite Hp, Ht in Hinvalid.
  assert (Hin : negb (teamID =? HomeTeamID (row match_))%N &&
                negb (teamID =? AwayTeamID (row match_))%N = false).
  { destruct Hteam as [<- | <-]; rewrite N.eqb_refl; simpl;
      [done | apply andb_false_r]. }
  assert (Hor : (teamID =? HomeTeamID (row match_))%N ||
                (teamID =? AwayTeamID (row match_))%N = true).
  { destruct Hteam as [<- | <-]; rewrite N.eqb_refl; simpl;
      [done | apply orb_true_r]. }
  rewrite Hor in Hinvalid. simpl in Hinvalid. rewrite Hin.
  unfold playerRepo.FindByID in *. rewrite Hplayers.
  destruct (List.find _ (players db)) as [player |]; [| done].
  by rewrite Hinvalid.
Qed.

End rejection.

(** ** After a result *)

Section afterResult.

Variable uuid_Parse : string → option N.

(** The response of a successful [processResult] is what [GetByID] reads
    from the store it leaves. *)
Lemma processResult_reload match_ req db id resp db' :
  matchRepo.findRow id db = Some (row match_) →
  loaded match_ →
  processResult uuid_Parse match_ req db = (inr resp, db') →
  GetByID id db' = (inr resp, db') ∧
  ∃ m', matchRepo.findRow id db' = Some m' ∧ Status m' = "completed".
Proof.
  intros Hfind Hld Hrun.
  destruct (processGoals uuid_Parse match_ (In_Goals req) 0 0%Z 0%Z [] db)
    as [[e | [[h a] gs]] db1] eqn:Hloop.
  { rewrite (processResult_rejected _ _ _ _ _ _ Hloop) in Hrun. discriminate. }
  destruct (forallb (λ g, goalRepo.fitsColumn (Minute g)) gs) eqn:Hfit;
    [| rewrite (processResult_refused _ _ _ _ _ _ _ _ Hloop Hfit) in Hrun; discriminate].
  pose proof (processGoals_db uuid_Parse match_ (In_Goals req) 0 0%Z 0%Z [] db) as Hdb.
  rewrite Hloop in Hdb. simpl in Hdb. subst db1.
  destruct (processResult_accepted _ _ _ _ _ _ _ _ _ Hloop Hfind Hld Hfit) as (Hfind' & _).
  destruct (findRow_Some _ _ _ Hfind) as (Hid & _ & _).
  revert Hrun. unfold processResult, bind at 1. rewrite Hloop.
  unfold bind at 1. rewrite batch_insert by done.
  unfold bind at 1, mutate. rewrite Update_result by done.
  unfold GetByID, bind, query, ret.
  unfold matchRepo.FindByIDWithDetails. cbn [row with_row].
  change (Match_ID (with_result h a "completed" (row match_))) with (Match_ID (row match_)).
  rewrite Hid, Hfind'.
  intros [= <- <-]. rewrite Hfind'. split; [done |]. by eexists.
Qed.

Lemma result_reload db matchID req resp db' :
  SubmitResult uuid_Parse matchID req db = (inr resp, db') ∨
  UpdateResult uuid_Parse matchID req db = (inr resp, db') →
  GetByID matchID db' = (inr resp, db') ∧
  ∃ m', matchRepo.findRow matchID db' = Some m' ∧ Status m' = "completed".
Proof.
  intros [Hrun | Hrun].
  - destruct (SubmitResult_cases uuid_Parse db matchID req)
      as [[_ E] | [(? & _ & _ & E) | (match_ & Hrow & _ & Hld & E)]];
      rewrite E in Hrun; try discriminate.
    by apply (processResult_reload match_ req db).
  - destruct (UpdateResult_cases uuid_Parse db matchID req)
      as [[_ E] | [(? & _ & _ & E) | (match_ & Hrow & _ & Hld & E)]];
      rewrite E in Hrun; try discriminate.
    by apply (processResult_reload match_ req (goalRepo.DeleteByMatchID matchID db)).
Qed.

(** X5. The response of a successful [SubmitResult] or [UpdateResult] is
    exactly what [GetByID] answers for the match in the store the call
    leaves behind. *)
Theorem result_then_GetByID db matchID req resp db' :
  SubmitResult uuid_Parse matchID req db = (inr resp, db') ∨
  UpdateResult uuid_Parse matchID req db = (inr resp, db') →
  GetByID matchID db' = (inr resp, db').
Proof. intros Hrun. by apply result_reload in Hrun as [? _]. Qed.

(** X6. Once a result is stored, every further [SubmitResult] on the match
    is refused as already submitted and every [Update] of its schedule is
    refused as a completed match, whatever the request; both leave the store
    as it is. *)
Theorem result_is_final db matchID req resp db' :
  SubmitResult uuid_Parse matchID req db = (inr resp, db') ∨
  UpdateResult uuid_Parse matchID req db = (inr resp, db') →
  (∀ again, SubmitResult uuid_Parse matchID again db' =
     (inl (ErrBadRequest "Match result already submitted. Use PUT to update."), db')) ∧
  (∀ schedule, Update uuid_Parse matchID schedule db' =
     (inl (ErrBadRequest "Cannot update schedule of a completed match"), db')).
Proof.
  intros Hrun. apply result_reload in Hrun as (_ & m' & Hfind & Hc).
  split; intros r.
  - unfold SubmitResult, bind, query. rewrite FindByID_findRow, Hfind. simpl.
    by rewrite Hc.
  - unfold Update, bind, query. rewrite FindByID_findRow, Hfind. simpl.
    by rewrite Hc.
Qed.

End afterResult.

(** ** Replaying an update *)

Lemma replace_twice (m' : Match) (ms : list Match) :
  map (λ r, if (Match_ID r =? Match_ID m')%N then m' else r)
    (map (λ r, if (Match_ID r =? Match_ID m')%N then m' else r) ms) =
  map (λ r, if (Match_ID r =? Match_ID m')%N then m' else r) ms.
Proof.
  rewrite map_map. apply map_ext. intros r.
  destruct (Match_ID r =? Match_ID m')%N eqn:Hr; [by rewrite N.eqb_refl | by rewrite Hr].
Qed.

Lemma others_write m db :
  teams (matchRepo.write m db) = teams db ∧
  players (matchRepo.write m db) = players db.
Proof. unfold matchRepo.write. by destruct (existsb _ _). Qed.

Lemma others_insert gs db :
  teams (goalRepo.insert gs db) = teams db ∧
  players (goalRepo.insert gs db) = players db.
Proof. by rewrite insert_goals. Qed.

Lemma own_goals uuid_Parse id (new : list Goal) inputs :
  Forall2 (storesInput uuid_Parse id) new inputs →
  Forall (λ g, Goal_MatchID g = id ∧ Goal_DeletedAt g = false) new.
Proof.
  induction 1 as [| g input new inputs (Hid & _ & _ & _ & Hlive) _ IH]; constructor; auto.
Qed.

Section replay.

Variable uuid_Parse : string → option N.

(** The loop reads the match only for its key and its two teams, and the
    store only for its players. *)
Lemma processGoals_ext match_ match_' inputs :
  Match_ID (row match_) = Match_ID (row match_') →
  HomeTeamID (row match_) = HomeTeamID (row match_') →
  AwayTeamID (row match_) = AwayTeamID (row match_') →
  ∀ i homeScore awayScore goals d d',
    players d = players d' →
    (processGoals uuid_Parse match_ inputs i homeScore awayScore goals d).1 =
    (processGoals uuid_Parse match_' inputs i homeScore awayScore goals d').1.
Proof.
  intros Hid Hhome Haway.
  induction inputs as [| g rest IH]; intros i h a gs d d' Hplayers; simpl; [done |].
  svc. rewrite <- Hid, <- Hhome, <- Haway.
  destruct (uuid_Parse (In_PlayerID g)) as [playerID |]; [| done].
  destruct (uuid_Parse (In_TeamID g)) as [teamID |]; [| done]. simpl.
  destruct (negb _ && negb _); [done |].
  unfold playerRepo.FindByID. rewrite <- Hplayers.
  destruct (List.find _ (players d)) as [player |]; [| done].
  destruct (negb _); [done |]. by apply IH.
Qed.

(** X7. [UpdateResult] can be replayed, up to goal identities and time
    stamps: after a successful update, the same request succeeds again; its
    response agrees with the first one in every field but the generated
    identifiers of the goals and the [created_at] and [updated_at] stamps,
    and the match rows and the live goal rows of the match agree with those
    the first update left in every column but these.  (The rows and the
    responses of this embedding do not carry the generated identifiers and
    the stamps, which are new on every run; equality here is equality up to
    them.) *)
Theorem UpdateResult_replay db matchID req resp db1 :
  UpdateResult uuid_Parse matchID req db = (inr resp, db1) →
  ∃ db2, UpdateResult uuid_Parse matchID req db1 = (inr resp, db2) ∧
         matches db2 = matches db1 ∧
         goalRepo.ofMatch matchID db2 = goalRepo.ofMatch matchID db1.
Proof.
  intros Hrun.
  destruct (UpdateResult_cases uuid_Parse db matchID req)
    as [[_ E] | [(? & _ & _ & E) | (match_ & Hrow & Hc & Hld & E)]];
    rewrite E in Hrun; try discriminate.
  set (d0 := goalRepo.DeleteByMatchID matchID db) in *.
  assert (Hrow0 : matchRepo.findRow matchID d0 = Some (row match_)) by done.
  assert (Hok : forallb (validGoal uuid_Parse d0 (row match_)) (In_Goals req) = true ∧
                forallb (λ g, goalRepo.fitsColumn (In_Minute g)) (In_Goals req) = true)
    by (apply (processResult_accepted_iff uuid_Parse match_ req d0 matchID Hrow0 Hld);
        eauto).
  destruct Hok as [Hvalid Hfit].
  destruct (processGoals_all_valid uuid_Parse match_ (In_Goals req) d0 Hvalid)
    as (h & a & new & Hnew & Hloop).
  rewrite <- (stored_minutes uuid_Parse _ _ _ Hnew) in Hfit.
  destruct (processResult_accepted _ _ _ _ _ _ _ _ _ Hloop Hrow0 Hld Hfit)
    as (Hfind1 & resp' & Hrun' & _).
  rewrite Hrun' in Hrun. injection Hrun as -> <-.
  destruct (findRow_Some _ _ _ Hrow0) as (Hid & _ & Hin).
  rewrite Hid in Hnew. apply own_goals in Hnew as Hown.
  set (m1 := with_result h a "completed" (row match_)) in *.
  set (db1 := matchRepo.write m1 (goalRepo.insert new d0)) in *.
  (* the second run *)
  destruct (UpdateResult_cases uuid_Parse db1 matchID req)
    as [[Hnone _] | [(m0 & Hrow1 & Hnc & _) | (match_1 & Hrow1 & _ & Hld1 & E1)]];
    [congruence | rewrite Hfind1 in Hrow1; by injection Hrow1 as <- |].
  rewrite Hfind1 in Hrow1. injection Hrow1 as Hrow1.
  set (d1 := goalRepo.DeleteByMatchID matchID db1) in *.
  assert (Hfind1' : matchRepo.findRow matchID d1 = Some (row match_1))
    by (by rewrite <- Hrow1).
  assert (Hplayers : players d0 = players d1).
  { unfold d1, db1. simpl.
    by rewrite (proj2 (others_write _ _)), (proj2 (others_insert _ _)). }
  pose proof (processGoals_ext match_ match_1 (In_Goals req)) as Hext.
  rewrite <- Hrow1 in Hext.
  specialize (Hext eq_refl eq_refl eq_refl 0 0%Z 0%Z [] d0 d1 Hplayers).
  rewrite Hloop in Hext. simpl in Hext.
  destruct (processGoals uuid_Parse match_1 (In_Goals req) 0 0%Z 0%Z [] d1)
    as [out d1'] eqn:Hloop1.
  simpl in Hext. subst out.
  destruct (processResult_accepted _ _ _ _ _ _ _ _ _ Hloop1 Hfind1' Hld1 Hfit)
    as (Hfind2 & resp2 & Hrun2 & _).
  rewrite <- Hrow1 in Hfind2, Hrun2.
  change (with_result h a "completed" m1) with m1 in Hfind2, Hrun2.
  set (db2 := matchRepo.write m1 (goalRepo.insert new d1)) in *.
  assert (Hm1 : matches db1 =
                map (λ r, if (Match_ID r =? Match_ID m1)%N then m1 else r) (matches db)).
  { unfold db1. rewrite (write_matches _ (row match_) m1); [| | done].
    - by rewrite insert_goals.
    - by rewrite insert_goals. }
  assert (Hmatches : matches db2 = matches db1).
  { unfold db2. rewrite (write_matches _ m1 m1); [| | done].
    - rewrite insert_goals.
      unfold d1, goalRepo.DeleteByMatchID, set_matches, set_goals. cbn [matches].
      rewrite Hm1. apply replace_twice.
    - rewrite insert_goals.
      unfold d1, goalRepo.DeleteByMatchID, set_matches, set_goals. cbn [matches].
      by destruct (findRow_Some _ _ _ Hfind1) as (_ & _ & ?). }
  assert (Hgoals1 : goalRepo.ofMatch matchID db1 = new).
  { unfold db1. rewrite ofMatch_write, insert_goals, ofMatch_app.
    unfold d0. by rewrite ofMatch_Delete, filter_own_goals. }
  assert (Hgoals2 : goalRepo.ofMatch matchID db2 = new).
  { unfold db2. rewrite ofMatch_write, insert_goals, ofMatch_app.
    unfold d1. by rewrite ofMatch_Delete, filter_own_goals. }
  exists db2. rewrite E1, Hrun2. split; [| split; [done | congruence]].
  f_equal. f_equal.
  (* both responses are read back from stores that agree on the match *)
  destruct (processResult_reload uuid_Parse match_ req d0 matchID resp db1 Hrow0 Hld Hrun')
    as [Hget1 _].
  destruct (processResult_reload uuid_Parse match_1 req d1 matchID resp2 db2 Hfind1' Hld1)
    as [Hget2 _].
  { exact Hrun2. }
  revert Hget1 Hget2. unfold GetByID, bind, query, ret.
  unfold matchRepo.FindByIDWithDetails. rewrite Hfind1, Hfind2, Hgoals1, Hgoals2.
  assert (Hteams : teams db2 = teams db1).
  { unfold db2. rewrite (proj1 (others_write _ _)), (proj1 (others_insert _ _)).
    done. }
  assert (Hpl : players db2 = players db1).
  { unfold db2. rewrite (proj2 (others_write _ _)), (proj2 (others_insert _ _)).
    done. }
  unfold matchRepo.preloadGoal, teamRepo.FindByID, playerRepo.FindByID.
  rewrite Hteams, Hpl. intros [= <-] [= <-]. done.
Qed.

End replay.

(** ** Scheduling *)

Lemma find_live_key_app id (ms : list Match) m :
  Match_ID m = id → Match_DeletedAt m = false →
  Match_ID m ∉ Match_ID <$> ms →
  List.find (λ r, (Match_ID r =? id)%N && negb (Match_DeletedAt r)) (ms ++ [m]) = Some m.
Proof.
  intros Hid Hlive. induction ms as [| a ms IH]; intros Hfresh; simpl.
  - by rewrite Hid, N.eqb_refl, Hlive.
  - rewrite fmap_cons, not_elem_of_cons in Hfresh. destruct Hfresh as [Hne Hfresh].
    destruct (N.eqb_spec (Match_ID a) id) as [Ha | _]; [congruence |]. simpl. auto.
Qed.

Lemma find_deleted id (ms : list Match) :
  List.find (λ r, (Match_ID r =? id)%N && negb (Match_DeletedAt r))
    (map (λ r, if (Match_ID r =? id)%N && negb (Match_DeletedAt r)
               then match_deleted r else r) ms) = None.
Proof.
  induction ms as [| a ms IH]; simpl; [done |].
  destruct ((Match_ID a =? id)%N && negb (Match_DeletedAt a)) eqn:Ha; simpl.
  - by rewrite andb_false_r.
  - by rewrite Ha.
Qed.

Section scheduling.

Variable uuid_Parse : string → option N.

(** X8. [Create] with the same team on both sides is refused with the bad
    request "Home team and away team cannot be the same" and writes nothing,
    whether that team exists or not. *)
Theorem Create_same_team db newID req teamID :
  uuid_Parse (Create_HomeTeamID req) = Some teamID →
  uuid_Parse (Create_AwayTeamID req) = Some teamID →
  Create uuid_Parse newID req db =
    (inl (ErrBadRequest "Home team and away team cannot be the same"), db).
Proof.
  intros Hh Ha. unfold Create. svc. rewrite Hh, Ha. simpl. by rewrite N.eqb_refl.
Qed.

(** X9. A successful [Create] has found two different live teams and a free
    key; it appends one row, scheduled at 0-0 with the teams, date and time
    of the request, which is the row then found under the new key, and
    leaves the other rows and the goals as they were. *)
Theorem Create_scheduled db newID req resp db' :
  Create uuid_Parse newID req db = (inr resp, db') →
  ∃ home away,
    uuid_Parse (Create_HomeTeamID req) = Some home ∧
    uuid_Parse (Create_AwayTeamID req) = Some away ∧
    home ≠ away ∧
    is_Some (teamRepo.FindByID home db) ∧ is_Some (teamRepo.FindByID away db) ∧
    (newID ∉ Match_ID <$> matches db) ∧
    (let m := {| Match_ID := newID; HomeTeamID := home; AwayTeamID := away;
                 MatchDate := Create_MatchDate req; MatchTime := Create_MatchTime req;
                 HomeScore := 0; AwayScore := 0; Status := "scheduled";
                 Match_DeletedAt := false |} in
     db' = set_matches (matches db ++ [m]) db ∧
     matchRepo.findRow newID db' = Some m ∧
     MR_ID resp = newID ∧ MR_Status resp = "scheduled" ∧
     MR_HomeScore resp = 0%Z ∧ MR_AwayScore resp = 0%Z).
Proof.
  unfold Create. svc.
  destruct (uuid_Parse (Create_HomeTeamID req)) as [home |]; [| done].
  destruct (uuid_Parse (Create_AwayTeamID req)) as [away |]; [| done]. simpl.
  destruct (N.eqb_spec home away) as [| Hne]; [done |].
  destruct (teamRepo.FindByID home db) as [th |] eqn:Hth; [| done].
  destruct (teamRepo.FindByID away db) as [ta |] eqn:Hta; [| done].
  match goal with |- context [matchRepo.Create ?m db] =>
    destruct (matchRepo.Create m db) as [db1 |] eqn:Hc; [| done] end.
  apply Create_Some in Hc as [-> Hfresh]. simpl in Hfresh.
  rewrite FindByID_findRow. unfold matchRepo.findRow at 1. simpl.
  rewrite find_live_key_app by done. simpl.
  intros [= <- <-]. exists home, away.
  rewrite Hth, Hta. unfold matchRepo.findRow. simpl.
  rewrite find_live_key_app by done. by repeat split.
Qed.

(** X10. A successful [Update] of a schedule has found a match that is not
    completed and two different requested teams that are found, and has
    written the date and the time of the request on the row.  The teams are
    another matter: [Save] takes the foreign key of a side from the team the
    record has loaded, so a side whose team is still found keeps that team
    whatever the request asks for, and only a side whose team has been
    deleted gets the requested team.  The response shows the identifiers
    that were written; the scores and the status of the row, the goal rows
    and the teams are as before. *)
Theorem Update_schedule db id req resp db' :
  Update uuid_Parse id req db = (inr resp, db') →
  ∃ m home away,
    matchRepo.findRow id db = Some m ∧ Status m ≠ "completed" ∧
    uuid_Parse (Update_HomeTeamID req) = Some home ∧
    uuid_Parse (Update_AwayTeamID req) = Some away ∧
    home ≠ away ∧
    is_Some (teamRepo.FindByID home db) ∧ is_Some (teamRepo.FindByID away db) ∧
    let home' := match teamRepo.FindByID (HomeTeamID m) db with
                 | Some _ => HomeTeamID m
                 | None => home
                 end in
    let away' := match teamRepo.FindByID (AwayTeamID m) db with
                 | Some _ => AwayTeamID m
                 | None => away
                 end in
    matchRepo.findRow id db' =
      Some {| Match_ID := id; HomeTeamID := home'; AwayTeamID := away';
              MatchDate := Update_MatchDate req; MatchTime := Update_MatchTime req;
              HomeScore := HomeScore m; AwayScore := AwayScore m;
              Status := Status m; Match_DeletedAt := false |} ∧
    MR_HomeTeamID resp = home' ∧ MR_AwayTeamID resp = away' ∧
    MR_MatchDate resp = Update_MatchDate req ∧
    MR_MatchTime resp = Update_MatchTime req ∧
    goals db' = goals db ∧ teams db' = teams db.
Proof.
  intros Hrun.
  destruct (Update_cases uuid_Parse db id req)
    as [[e E] | (m & home & away & Hfind & Hnc & Hh & Ha & Hne & Hth & Hta & E)];
    rewrite E in Hrun; [discriminate |].
  injection Hrun as <- <-. exists m, home, away.
  do 7 (split; [done |]). intros home' away'.
  destruct (findRow_Some _ _ _ Hfind) as (Hid & Hlive & _).
  rewrite goals_write, (proj1 (others_write _ _)).
  rewrite (findRow_write db id m) by done.
  unfold with_schedule. rewrite Hid, Hlive. by repeat split.
Qed.

(** X11. After a successful [Delete] the match is not found any more:
    [SubmitResult], [UpdateResult], [Update], [GetByID] and a second
    [Delete] all answer "Match not found" and change nothing.  The delete
    itself leaves the goal rows of the match in the table. *)
Theorem Delete_not_found db id db' :
  Delete id db = (inr tt, db') →
  goals db' = goals db ∧
  matchRepo.findRow id db' = None ∧
  (∀ req, SubmitResult uuid_Parse id req db' = (inl (ErrNotFound "Match not found"), db')) ∧
  (∀ req, UpdateResult uuid_Parse id req db' = (inl (ErrNotFound "Match not found"), db')) ∧
  (∀ req, Update uuid_Parse id req db' = (inl (ErrNotFound "Match not found"), db')) ∧
  GetByID id db' = (inl (ErrNotFound "Match not found"), db') ∧
  Delete id db' = (inl (ErrNotFound "Match not found"), db').
Proof.
  unfold Delete at 1. svc.
  destruct (matchRepo.FindByID id db); [| done]. intros [= <-].
  assert (Hnone : matchRepo.findRow id (matchRepo.Delete id db) = None)
    by apply find_deleted.
  split; [done |]. split; [done |].
  unfold SubmitResult, UpdateResult, Update, GetByID, Delete, bind, query.
  unfold matchRepo.FindByIDWithDetails. rewrite FindByID_findRow, Hnone. simpl.
  by repeat split.
Qed.

End scheduling.

(** ** Reports *)

Lemma insertByMinute_sorted g l :
  StronglySorted (λ a b, (Minute (goal a) ≤ Minute (goal b))%Z) l →
  StronglySorted (λ a b, (Minute (goal a) ≤ Minute (goal b))%Z)
    (matchRepo.insertByMinute g l).
Proof.
  induction 1 as [| h t Ht IH Hh]; simpl.
  - repeat constructor.
  - destruct (Z.leb_spec (Minute (goal g)) (Minute (goal h))) as [Hle | Hgt].
    + constructor; [by constructor |]. constructor; [done |].
      eapply Forall_impl; [exact Hh |]. simpl. intros. lia.
    + constructor; [done |].
      rewrite insertByMinute_perm. constructor; [lia | done].
Qed.

Lemma orderByMinute_sorted l :
  StronglySorted (λ a b, (Minute (goal a) ≤ Minute (goal b))%Z)
    (matchRepo.orderByMinute l).
Proof.
  unfold matchRepo.orderByMinute. induction l as [| g l IH]; simpl; [constructor |].
  by apply insertByMinute_sorted.
Qed.

Section reports.

Variable rangeOrder : gmap N playerGoalCount → list (N * playerGoalCount).

(** X12. [GetMatchReportByID] answers "Match not found" when the match is
    not found and the bad request "Match has not been completed yet" when
    its status is not completed; for a completed match it always produces a
    report.  It never changes the store. *)
Theorem report_requires_completed db matchID :
  (matchRepo.findRow matchID db = None →
   GetMatchReportByID rangeOrder matchID db = (inl (ErrNotFound "Match not found"), db)) ∧
  (∀ m, matchRepo.findRow matchID db = Some m → Status m ≠ "completed" →
        GetMatchReportByID rangeOrder matchID db =
          (inl (ErrBadRequest "Match has not been completed yet"), db)) ∧
  (∀ m, matchRepo.findRow matchID db = Some m → Status m = "completed" →
        ∃ report, GetMatchReportByID rangeOrder matchID db = (inr report, db) ∧
                  Rep_HomeScore report = HomeScore m ∧
                  Rep_AwayScore report = AwayScore m ∧
                  MatchResult report = computeMatchResult (HomeScore m) (AwayScore m)).
Proof.
  unfold GetMatchReportByID, matchRepo.FindByIDWithDetails. svc.
  split; [| split].
  - by intros ->.
  - intros m -> Hnc. simpl. apply String.eqb_neq in Hnc. by rewrite Hnc.
  - intros m -> Hc. simpl. rewrite Hc. simpl. eauto.
Qed.

(** X13. The goals of a report come in ascending order of minute, and their
    minutes are those of the live goal rows of the match, each as often as
    it occurs. *)
Theorem report_goals_ordered db matchID report db' :
  GetMatchReportByID rangeOrder matchID db = (inr report, db') →
  StronglySorted Z.le (RG_Minute <$> Rep_Goals report) ∧
  RG_Minute <$> Rep_Goals report ≡ₚ Minute <$> goalRepo.ofMatch matchID db.
Proof.
  unfold GetMatchReportByID, matchRepo.FindByIDWithDetails. svc.
  destruct (matchRepo.findRow matchID db) as [m |]; [| done]. simpl.
  destruct (negb _); [done |]. intros [= <- <-]. simpl.
  set (loaded := map (matchRepo.preloadGoal db) (goalRepo.ofMatch matchID db)).
  assert (Hmin : ∀ l : list GoalDetails,
            RG_Minute <$> map (λ g, {| RG_PlayerName := playerNameOf g;
                                       RG_TeamName := teamNameOf g;
                                       RG_Minute := Minute (goal g) |}) l
            = (λ g, Minute (goal g)) <$> l).
  { induction l as [| g l IH]; csimpl; [done |]. by rewrite IH. }
  rewrite Hmin. split.
  - pose proof (orderByMinute_sorted loaded) as Hs.
    induction Hs as [| h t Ht IH Hh]; csimpl; constructor; [done |].
    clear -Hh. induction Hh; csimpl; constructor; auto.
  - rewrite (orderByMinute_perm loaded). unfold loaded.
    induction (goalRepo.ofMatch matchID db) as [| g l IH]; csimpl; [done |].
    by rewrite IH.
Qed.

End reports.

(** ** The report after a result *)

Section reportAfterResult.

Variable uuid_Parse : string → option N.
Variable rangeOrder : gmap N playerGoalCount → list (N * playerGoalCount).

(** X14. In a store that satisfies the invariants, the report read after a
    successful [SubmitResult] or [UpdateResult] shows scores that count the
    submitted goals of the home and of the away team, lists as many goals as
    the two scores add up to, and classifies the scores with
    [computeMatchResult]. *)
Theorem report_after_result db matchID m req resp db' :
  wellFormed db →
  matchRepo.findRow matchID db = Some m →
  SubmitResult uuid_Parse matchID req db = (inr resp, db') ∨
  UpdateResult uuid_Parse matchID req db = (inr resp, db') →
  ∃ report,
    GetMatchReportByID rangeOrder matchID db' = (inr report, db') ∧
    Rep_HomeScore report = goalsFor uuid_Parse (HomeTeamID m) (In_Goals req) ∧
    Rep_AwayScore report = goalsFor uuid_Parse (AwayTeamID m) (In_Goals req) ∧
    (Rep_HomeScore report + Rep_AwayScore report)%Z =
      Z.of_nat (length (Rep_Goals report)) ∧
    MatchResult report =
      computeMatchResult (Rep_HomeScore report) (Rep_AwayScore report).
Proof.
  intros Hwf Hfind Hrun.
  destruct (wellFormed_found _ _ _ Hwf Hfind) as (_ & Hne & Hnone).
  assert (Hscores : ∃ m', matchRepo.findRow matchID db' = Some m' ∧
            Status m' = "completed" ∧
            HomeScore m' = goalsFor uuid_Parse (HomeTeamID m) (In_Goals req) ∧
            AwayScore m' = goalsFor uuid_Parse (AwayTeamID m) (In_Goals req) ∧
            (HomeScore m' + AwayScore m')%Z =
              Z.of_nat (length (goalRepo.ofMatch matchID db'))).
  { destruct Hrun as [Hrun | Hrun].
    - destruct (SubmitResult_cases uuid_Parse db matchID req)
        as [[_ E] | [(? & _ & _ & E) | (match_ & Hrow & Hnc & Hld & E)]];
        rewrite E in Hrun; try discriminate.
      assert (row match_ = m) as <- by congruence.
      eapply processResult_scores; eauto.
    - destruct (UpdateResult_cases uuid_Parse db matchID req)
        as [[_ E] | [(? & _ & _ & E) | (match_ & Hrow & Hc & Hld & E)]];
        rewrite E in Hrun; try discriminate.
      assert (row match_ = m) as <- by congruence.
      eapply processResult_scores; [| done | done | | exact Hrun].
      + exact Hfind.
      + apply ofMatch_Delete. }
  destruct Hscores as (m' & Hfind' & Hc & Hh & Ha & Hsum).
  unfold GetMatchReportByID, matchRepo.FindByIDWithDetails. svc.
  rewrite Hfind'. simpl. rewrite Hc. simpl.
  eexists. split; [reflexivity |]. simpl.
  split; [done |]. split; [done |]. split; [| done].
  rewrite Hsum, length_map. f_equal.
  rewrite (Permutation_length (orderByMinute_perm _)). by rewrite length_map.
Qed.

End reportAfterResult.

(** ** Ties for the top scorer *)

(** The loop over the entries keeps the first entry of greatest counter. *)
Lemma pickTop_first (l : list playerGoalCount) top :
  Forall (λ pg, (1 ≤ Count pg)%Z) l →
  (fold_left pickTop l (0%Z, None)).2 = Some top →
  ∃ before pg after,
    l = before ++ pg :: after ∧ top = toTopScorer pg ∧
    (fold_left pickTop l (0%Z, None)).1 = Count pg ∧
    Forall (λ q, (Count q < Count pg)%Z) before ∧
    Forall (λ q, (Count q ≤ Count pg)%Z) after.
Proof.
  revert top. induction l as [| x l IH] using rev_ind; intros top Hall Htop; [done |].
  apply Forall_app in Hall as [Hl Hx]. rewrite Forall_singleton in Hx.
  rewrite fold_left_app in *. simpl in *.
  destruct (fold_left pickTop l (0%Z, None)) as [maxGoals [old |]] eqn:E;
    unfold pickTop at 1 in Htop; unfold pickTop at 1; simpl in *.
  - destruct (IH old Hl eq_refl) as (before & pg & after & -> & -> & Hmax & Hb & Ha).
    subst maxGoals.
    destruct (Z.gtb_spec (Count x) (Count pg)) as [Hgt | Hle]; simpl in *.
    + injection Htop as <-. exists (before ++ pg :: after), x, [].
      split; [done |]. split; [done |]. split; [done |]. split; [| constructor].
      apply Forall_app. split.
      * eapply Forall_impl; [exact Hb |]. simpl. intros. lia.
      * constructor; [lia |]. eapply Forall_impl; [exact Ha |]. simpl. intros. lia.
    + injection Htop as <-. exists before, pg, (after ++ [x]).
      rewrite <- app_assoc. split; [done |]. split; [done |]. split; [done |].
      split; [done |]. apply Forall_app. split; [done |]. by constructor.
  - pose proof (pickTop_fold l Hl) as [[-> E'] | (pg & _ & E' & _)];
      [| rewrite E in E'; discriminate].
    simpl in E. injection E as <-.
    destruct (Z.gtb_spec (Count x) 0) as [_ | Hle]; [| lia]. simpl in *.
    injection Htop as <-. exists [], x, []. by repeat split.
Qed.

Section ties.

Variable rangeOrder : gmap N playerGoalCount → list (N * playerGoalCount).
Hypothesis rangeOrder_perm : ∀ m, rangeOrder m ≡ₚ map_to_list m.

(** X15. Among the players with the most goals in a match, the report names
    the one that [range] visits first: every scorer visited before the top
    scorer has strictly fewer goals, every scorer visited after has at most
    as many. *)
Theorem topScorer_first_visited goals top :
  topScorerOf rangeOrder (tally goals) = Some top →
  ∃ before p pg after,
    rangeOrder (tally goals) = before ++ (p, pg) :: after ∧
    top = toTopScorer pg ∧
    GoalsInMatch top = goalsOf p goals ∧
    Forall (λ e, (goalsOf e.1 goals < GoalsInMatch top)%Z) before ∧
    Forall (λ e, (goalsOf e.1 goals ≤ GoalsInMatch top)%Z) after.
Proof.
  unfold topScorerOf. intros Htop.
  assert (Hentry : ∀ e, e ∈ rangeOrder (tally goals) →
            Count e.2 = goalsOf e.1 goals ∧ (1 ≤ Count e.2)%Z).
  { intros [p pg] He. rewrite rangeOrder_perm in He.
    apply elem_of_map_to_list in He. pose proof (tally_spec goals p) as Hs.
    rewrite He in Hs. simpl. tauto. }
  apply pickTop_first in Htop as (before & pg & after & Hl & -> & _ & Hb & Ha).
  - apply map_eq_app in Hl as (before' & rest & Hl & <- & Hrest).
    destruct rest as [| [p pg'] after']; [done |]. simpl in Hrest.
    injection Hrest as <- <-.
    exists before', p, pg', after'. split; [done |]. split; [done |].
    assert (Hpg : Count pg' = goalsOf p goals).
    { apply (Hentry (p, pg')). rewrite Hl. rewrite elem_of_app, elem_of_cons. auto. }
    simpl. split; [done |]. split.
    + apply Forall_forall. intros e He.
      destruct (Hentry e) as [<- _]; [rewrite Hl, elem_of_app; auto |].
      rewrite Forall_forall in Hb. apply Hb, list_elem_of_In, in_map.
      by apply list_elem_of_In.
    + apply Forall_forall. intros e He.
      destruct (Hentry e) as [<- _];
        [rewrite Hl, elem_of_app, elem_of_cons; auto |].
      rewrite Forall_forall in Ha. apply Ha, list_elem_of_In, in_map.
      by apply list_elem_of_In.
  - apply Forall_forall. intros pg Hpg.
    apply list_elem_of_In, in_map_iff in Hpg as (e & <- & He).
    apply Hentry. by apply list_elem_of_In.
Qed.

End ties.

(** ** Wins after a result *)

Lemma replace_absent (m' : Match) (ms : list Match) :
  Match_ID m' ∉ Match_ID <$> ms →
  map (λ r, if (Match_ID r =? Match_ID m')%N then m' else r) ms = ms.
Proof.
  induction ms as [| a ms IH]; intros Hfresh; simpl; [done |].
  rewrite fmap_cons, not_elem_of_cons in Hfresh. destruct Hfresh as [Hne Hfresh].
  destruct (N.eqb_spec (Match_ID a) (Match_ID m')) as [Ha | _]; [congruence |].
  by rewrite IH.
Qed.

Lemma count_replace (P : Match → bool) (ms : list Match) m m' :
  NoDup (Match_ID <$> ms) → m ∈ ms → Match_ID m' = Match_ID m →
  (length (List.filter P (map (λ r, if (Match_ID r =? Match_ID m')%N then m' else r) ms))
   + (if P m then 1 else 0) =
   length (List.filter P ms) + (if P m' then 1 else 0))%nat.
Proof.
  induction ms as [| a ms IH]; intros Hnd Hin Hid.
  - by apply elem_of_nil in Hin.
  - rewrite fmap_cons in Hnd. apply NoDup_cons in Hnd as [Hfresh Hnd]. simpl.
    destruct (N.eqb_spec (Match_ID a) (Match_ID m')) as [Ha | Hne].
    + assert (a = m).
      { apply elem_of_cons in Hin as [-> | Hin]; [done |]. exfalso.
        apply Hfresh, list_elem_of_fmap. exists m. split; [congruence | done]. }
      subst a. rewrite replace_absent by (by rewrite Hid).
      destruct (P m), (P m'); simpl; lia.
    + apply elem_of_cons in Hin as [-> | Hin]; [congruence |].
      specialize (IH Hnd Hin Hid). destruct (P a); simpl; lia.
Qed.

Section wins.

Variable uuid_Parse : string → option N.

(** The match rows after a successful result. *)
Lemma result_matches db matchID m req resp db' :
  matchRepo.findRow matchID db = Some m →
  SubmitResult uuid_Parse matchID req db = (inr resp, db') ∨
  UpdateResult uuid_Parse matchID req db = (inr resp, db') →
  let m' := with_result (MR_HomeScore resp) (MR_AwayScore resp) "completed" m in
  matches db' = map (λ r, if (Match_ID r =? Match_ID m')%N then m' else r) (matches db).
Proof.
  intros Hfind Hrun.
  assert (Hcore : ∀ match_ d,
            row match_ = m → matches d = matches db →
            matchRepo.findRow matchID d = Some (row match_) →
            loaded match_ →
            processResult uuid_Parse match_ req d = (inr resp, db') →
            matches db' =
            map (λ r, if (Match_ID r =? Match_ID m)%N
                      then with_result (MR_HomeScore resp) (MR_AwayScore resp)
                             "completed" m
                      else r) (matches db)).
  { intros match_ d <- Hms Hrow Hld Hp.
    destruct (processGoals uuid_Parse match_ (In_Goals req) 0 0%Z 0%Z [] d)
      as [[e | [[h a] gs]] d1] eqn:Hloop.
    { rewrite (processResult_rejected _ _ _ _ _ _ Hloop) in Hp. discriminate. }
    destruct (forallb (λ g, goalRepo.fitsColumn (Minute g)) gs) eqn:Hfit;
      [| rewrite (processResult_refused _ _ _ _ _ _ _ _ Hloop Hfit) in Hp; discriminate].
    destruct (processResult_accepted _ _ _ _ _ _ _ _ _ Hloop Hrow Hld Hfit)
      as (_ & resp' & Hp' & Hh & Ha & _).
    rewrite Hp' in Hp. injection Hp as -> <-.
    destruct (findRow_Some _ _ _ Hrow) as (_ & _ & Hin).
    rewrite (write_matches _ (row match_)); [| by rewrite insert_goals | done].
    rewrite insert_goals. simpl. by rewrite Hms, Hh, Ha. }
  destruct Hrun as [Hrun | Hrun].
  - destruct (SubmitResult_cases uuid_Parse db matchID req)
      as [[_ E] | [(? & _ & _ & E) | (match_ & Hrow & _ & Hld & E)]];
      rewrite E in Hrun; try discriminate.
    apply (Hcore match_ db); [congruence | done | done | done | done].
  - destruct (UpdateResult_cases uuid_Parse db matchID req)
      as [[_ E] | [(? & _ & _ & E) | (match_ & Hrow & _ & Hld & E)]];
      rewrite E in Hrun; try discriminate.
    apply (Hcore match_ (goalRepo.DeleteByMatchID matchID db));
      [congruence | done | done | done | done].
Qed.

(** X16. With unique primary keys, a successful [SubmitResult] raises the
    win count of the home team by one when the home score is greater, that
    of the away team by one when the away score is greater, and changes no
    other win count; a successful [UpdateResult] first takes back the win
    the old result gave. *)
Theorem wins_after_result db matchID m req resp db' teamID :
  NoDup (Match_ID <$> matches db) →
  matchRepo.findRow matchID db = Some m →
  SubmitResult uuid_Parse matchID req db = (inr resp, db') ∨
  UpdateResult uuid_Parse matchID req db = (inr resp, db') →
  (matchRepo.CountWins teamID db' + (if matchRepo.isWin teamID m then 1 else 0) =
   matchRepo.CountWins teamID db +
   (if ((HomeTeamID m =? teamID)%N && (MR_HomeScore resp >? MR_AwayScore resp)%Z) ||
       ((AwayTeamID m =? teamID)%N && (MR_AwayScore resp >? MR_HomeScore resp)%Z)
    then 1 else 0))%Z ∧
  (SubmitResult uuid_Parse matchID req db = (inr resp, db') →
   matchRepo.isWin teamID m = false).
Proof.
  intros Hnd Hfind Hrun.
  destruct (findRow_Some _ _ _ Hfind) as (Hid & Hlive & Hin). split.
  - unfold matchRepo.CountWins. rewrite (result_matches db matchID m req resp db' Hfind Hrun).
    pose proof (count_replace (matchRepo.isWin teamID) (matches db) m
                  (with_result (MR_HomeScore resp) (MR_AwayScore resp) "completed" m)
                  Hnd Hin eq_refl) as Hcount.
    assert (Hwin : matchRepo.isWin teamID
                     (with_result (MR_HomeScore resp) (MR_AwayScore resp) "completed" m) =
                   ((HomeTeamID m =? teamID)%N && (MR_HomeScore resp >? MR_AwayScore resp)%Z) ||
                   ((AwayTeamID m =? teamID)%N && (MR_AwayScore resp >? MR_HomeScore resp)%Z)).
    { unfold matchRepo.isWin. simpl. by rewrite Hlive. }
    rewrite Hwin in Hcount.
    destruct (matchRepo.isWin teamID m), (_ || _); lia.
  - intros Hs.
    destruct (SubmitResult_cases uuid_Parse db matchID req)
      as [[_ E] | [(? & _ & _ & E) | (match_ & Hrow & Hnc & Hld & E)]];
      rewrite E in Hs; try discriminate.
    assert (row match_ = m) as <- by congruence.
    unfold matchRepo.isWin. apply String.eqb_neq in Hnc. rewrite Hnc.
    apply andb_false_r.
Qed.

End wins.

(** ** What a result leaves alone *)

Lemma findRow_replace_other id (m' : Match) db :
  id ≠ Match_ID m' →
  matchRepo.findRow id (matchRepo.write m' db) = matchRepo.findRow id db.
Proof.
  intros Hne. unfold matchRepo.findRow, matchRepo.write.
  destruct (existsb _ _); simpl.
  - induction (matches db) as [| a ms IH]; simpl; [done |].
    destruct (N.eqb_spec (Match_ID a) (Match_ID m')) as [Ha | Hna].
    + destruct (N.eqb_spec (Match_ID m') id) as [| _]; [congruence |].
      destruct (N.eqb_spec (Match_ID a) id) as [| _]; [congruence |]. simpl. exact IH.
    + by rewrite IH.
  - induction (matches db) as [| a ms IH]; simpl.
    + by destruct (N.eqb_spec (Match_ID m') id) as [| _]; [congruence |].
    + by rewrite IH.
Qed.

Lemma ofMatch_Delete_other id id' db :
  id' ≠ id →
  goalRepo.ofMatch id' (goalRepo.DeleteByMatchID id db) = goalRepo.ofMatch id' db.
Proof.
  intros Hne. unfold goalRepo.ofMatch, goalRepo.DeleteByMatchID. simpl.
  induction (goals db) as [| g l IH]; simpl; [done |].
  destruct (N.eqb_spec (Goal_MatchID g) id) as [Hg | _]; simpl.
  - destruct (Goal_DeletedAt g) eqn:Hdel; simpl.
    + by rewrite Hdel, IH.
    + destruct (N.eqb_spec (Goal_MatchID g) id') as [| _]; [congruence |]. simpl.
      exact IH.
  - by rewrite IH.
Qed.

Lemma filter_other_goals id id' (new : list Goal) :
  id' ≠ id →
  Forall (λ g, Goal_MatchID g = id ∧ Goal_DeletedAt g = false) new →
  List.filter (λ g, (Goal_MatchID g =? id')%N && negb (Goal_DeletedAt g)) new = [].
Proof.
  intros Hne. induction 1 as [| g l [Hid _] _ IH]; simpl; [done |].
  destruct (N.eqb_spec (Goal_MatchID g) id') as [| _]; [congruence |]. simpl. exact IH.
Qed.

Section others.

Variable uuid_Parse : string → option N.

(** The stores a call on a match can leave behind. *)
Lemma result_store db matchID req out db' :
  SubmitResult uuid_Parse matchID req db = (out, db') ∨
  UpdateResult uuid_Parse matchID req db = (out, db') →
  ∃ d, (d = db ∨ d = goalRepo.DeleteByMatchID matchID db) ∧
       (db' = d ∨
        ∃ m' gs, Match_ID m' = matchID ∧
                 Forall (λ g, Goal_MatchID g = matchID ∧ Goal_DeletedAt g = false) gs ∧
                 db' = matchRepo.write m' (goalRepo.insert gs d)).
Proof.
  assert (Hcore : ∀ match_ d,
            matchRepo.findRow matchID d = Some (row match_) →
            loaded match_ →
            processResult uuid_Parse match_ req d = (out, db') →
            db' = d ∨
            ∃ m' gs, Match_ID m' = matchID ∧
                     Forall (λ g, Goal_MatchID g = matchID ∧ Goal_DeletedAt g = false) gs ∧
                     db' = matchRepo.write m' (goalRepo.insert gs d)).
  { intros match_ d Hrow Hld Hp.
    destruct (findRow_Some _ _ _ Hrow) as (Hid & _ & _).
    destruct (processGoals uuid_Parse match_ (In_Goals req) 0 0%Z 0%Z [] d)
      as [[e | [[h a] gs]] d1] eqn:Hloop.
    { rewrite (processResult_rejected _ _ _ _ _ _ Hloop) in Hp. left. congruence. }
    destruct (forallb (λ g, goalRepo.fitsColumn (Minute g)) gs) eqn:Hfit;
      [| rewrite (processResult_refused _ _ _ _ _ _ _ _ Hloop Hfit) in Hp;
         left; congruence].
    destruct (processResult_accepted _ _ _ _ _ _ _ _ _ Hloop Hrow Hld Hfit)
      as (_ & resp' & Hp' & _).
    rewrite Hp' in Hp. injection Hp as _ <-.
    apply processGoals_ok in Hloop as (_ & _ & _ & new & Hgs & _ & Hall).
    simpl in Hgs. subst gs. rewrite Hid in Hall.
    right. by exists (with_result h a "completed" (row match_)), new. }
  intros [Hrun | Hrun].
  - exists db. split; [by left |].
    destruct (SubmitResult_cases uuid_Parse db matchID req)
      as [[_ E] | [(? & _ & _ & E) | (match_ & Hrow & _ & Hld & E)]];
      rewrite E in Hrun; [left; congruence | left; congruence |].
    by apply (Hcore match_ db).
  - destruct (UpdateResult_cases uuid_Parse db matchID req)
      as [[_ E] | [(? & _ & _ & E) | (match_ & Hrow & _ & Hld & E)]];
      rewrite E in Hrun.
    + exists db. split; [by left | left; congruence].
    + exists db. split; [by left | left; congruence].
    + exists (goalRepo.DeleteByMatchID matchID db). split; [by right |].
      by apply (Hcore match_ (goalRepo.DeleteByMatchID matchID db)).
Qed.

(** X17. Whether it succeeds or fails, a [SubmitResult] or [UpdateResult]
    on one match changes neither the row nor the live goal rows of any
    other match, nor any team or player. *)
Theorem result_leaves_others db matchID req out db' other :
  SubmitResult uuid_Parse matchID req db = (out, db') ∨
  UpdateResult uuid_Parse matchID req db = (out, db') →
  other ≠ matchID →
  matchRepo.findRow other db' = matchRepo.findRow other db ∧
  goalRepo.ofMatch other db' = goalRepo.ofMatch other db ∧
  teams db' = teams db ∧ players db' = players db.
Proof.
  intros Hrun Hne.
  destruct (result_store db matchID req out db' Hrun) as (d & Hd & Hdb').
  assert (Hbase : matchRepo.findRow other d = matchRepo.findRow other db ∧
                  goalRepo.ofMatch other d = goalRepo.ofMatch other db ∧
                  teams d = teams db ∧ players d = players db).
  { destruct Hd as [-> | ->]; [done |].
    split; [done |]. split; [by apply ofMatch_Delete_other | done]. }
  destruct Hdb' as [-> | (m' & gs & Hid & Hown & ->)]; [done |].
  destruct Hbase as (Hrow & Hgoals & Hteams & Hplayers).
  rewrite findRow_replace_other by congruence.
  rewrite findRow_insert, ofMatch_write, insert_goals, ofMatch_app.
  rewrite (filter_other_goals matchID other gs) by done.
  rewrite app_nil_r.
  rewrite (proj1 (others_write _ _)), (proj2 (others_write _ _)).
  by repeat split.
Qed.

End others.

(** ** Pagination *)

Lemma wrap_small x : (- 2 ^ 63 ≤ x < 2 ^ 63)%Z → wrap x = x.
Proof. intros Hx. unfold wrap. rewrite Z.mod_small; lia. Qed.

Lemma Sanitize_range (p : PaginationQuery) :
  (1 ≤ Page (Sanitize p))%Z ∧ (1 ≤ PerPage (Sanitize p) ≤ 100)%Z ∧
  ((1 ≤ Page p)%Z → Page (Sanitize p) = Page p).
Proof.
  unfold Sanitize. simpl.
  destruct (Z.leb_spec (Page p) 0), (Z.leb_spec (PerPage p) 0); simpl;
    try destruct (Z.gtb_spec (PerPage p) 100); simpl; lia.
Qed.

(** X18. [Sanitize] always yields a page of at least 1, a page size from 1
    to 100 and sort fields that are not empty; it keeps a query that
    already is like that, so sanitizing twice is sanitizing once. *)
Theorem Sanitize_bounds (p : PaginationQuery) :
  (1 ≤ Page (Sanitize p))%Z ∧
  (1 ≤ PerPage (Sanitize p) ≤ 100)%Z ∧
  SortBy (Sanitize p) ≠ "" ∧ SortOrder (Sanitize p) ≠ "" ∧
  ((1 ≤ Page p)%Z → Page (Sanitize p) = Page p) ∧
  ((1 ≤ PerPage p ≤ 100)%Z → PerPage (Sanitize p) = PerPage p) ∧
  ((100 < PerPage p)%Z → PerPage (Sanitize p) = 100%Z) ∧
  Sanitize (Sanitize p) = Sanitize p.
Proof.
  destruct p as [page perPage sortBy sortOrder]. unfold Sanitize. simpl.
  destruct (Z.leb_spec page 0), (Z.leb_spec perPage 0); simpl;
    destruct (String.eqb_spec sortBy ""), (String.eqb_spec sortOrder ""); simpl;
    try destruct (Z.gtb_spec perPage 100); simpl;
    repeat match goal with
           | |- context [(?a <=? ?b)%Z] => destruct (Z.leb_spec a b); try lia
           | |- context [(?a >? ?b)%Z] => destruct (Z.gtb_spec a b); try lia
           | |- context [String.eqb ?a ""] => destruct (String.eqb_spec a ""); try done
           end; simpl;
    repeat split; try done; try lia.
Qed.

(** X19. For a count that is not negative and a page size from 1 to 100,
    [totalPagesOf] is the number of pages needed: the pages before the last
    one do not hold all rows, and all pages together do; it is 0 exactly
    when there is no row. *)
Theorem totalPagesOf_ceiling (total perPage : Z) :
  (0 ≤ total < 2 ^ 62)%Z → (1 ≤ perPage ≤ 100)%Z →
  ((totalPagesOf total perPage - 1) * perPage < total ≤
   totalPagesOf total perPage * perPage)%Z ∧
  (totalPagesOf total perPage = 0%Z ↔ total = 0%Z).
Proof.
  intros Ht Hp. unfold totalPagesOf.
  rewrite Z.quot_div_nonneg, Z.rem_mod_nonneg by lia.
  pose proof (Z.div_mod total perPage) as Hdm.
  pose proof (Z.mod_pos_bound total perPage) as Hm.
  assert (0 ≤ total / perPage ≤ total)%Z.
  { split; [apply Z.div_pos; lia |]. apply Z.div_le_upper_bound; nia. }
  destruct (Z.gtb_spec (total mod perPage) 0) as [Hr | Hr].
  - rewrite wrap_small by lia. split; [nia |]. split; intros; nia.
  - assert (total mod perPage = 0)%Z by lia. split; [nia |]. split; intros; nia.
Qed.

(** ** The list of reports *)

Section reportListProperties.

Variable textLe : string → string → bool.

Lemma insertByDateDesc_perm m l : insertByDateDesc textLe m l ≡ₚ m :: l.
Proof.
  induction l as [| h t IH]; simpl; [done |].
  destruct (textLe _ _); [done |]. rewrite IH. apply Permutation_swap.
Qed.

Lemma orderByDateDesc_perm l : orderByDateDesc textLe l ≡ₚ l.
Proof.
  unfold orderByDateDesc. induction l as [| m l IH]; simpl; [done |].
  by rewrite insertByDateDesc_perm, IH.
Qed.

(** X20. [GetMatchReports] always succeeds and changes nothing.  For a page
    number below 2^56 it returns the rows of the sanitized page: as many
    items as the page size allows and the completed matches after the
    offset provide, each one a live completed match of the store with its
    scores classified by [computeMatchResult]; the total is the number of
    completed matches. *)
Theorem GetMatchReports_page (p : PaginationQuery) db :
  (Page p < 2 ^ 56)%Z →
  ∃ items meta,
    GetMatchReports textLe p db = (inr (items, meta), db) ∧
    Meta_Page meta = Page (Sanitize p) ∧
    Meta_PerPage meta = PerPage (Sanitize p) ∧
    Total meta = CountCompletedMatches db ∧
    TotalPages meta = totalPagesOf (Total meta) (Meta_PerPage meta) ∧
    Z.of_nat (length items) =
      Z.min (Meta_PerPage meta)
            (Z.max 0 (Total meta - (Meta_Page meta - 1) * Meta_PerPage meta)) ∧
    Forall (λ item, ∃ m, m ∈ matches db ∧
                         Match_DeletedAt m = false ∧ Status m = "completed" ∧
                         Item_MatchID item = Match_ID m ∧
                         Item_HomeScore item = HomeScore m ∧
                         Item_AwayScore item = AwayScore m ∧
                         Item_MatchResult item =
                           computeMatchResult (HomeScore m) (AwayScore m)) items.
Proof.
  intros Hpage. unfold GetMatchReports, bind, read, ret. cbv beta iota zeta.
  eexists _, _. split; [reflexivity |]. cbn [Meta_Page Meta_PerPage Total TotalPages].
  destruct (Sanitize_range p) as (Hp1 & Hpp & Hkeep).
  assert (Hpq : (Page (Sanitize p) < 2 ^ 56)%Z).
  { destruct (Z.le_gt_cases 1 (Page p)) as [H1 | H0]; [rewrite Hkeep; lia |].
    unfold Sanitize. simpl. destruct (Z.leb_spec (Page p) 0); simpl; lia. }
  assert (Hoff : GetOffset (Sanitize p) =
                 ((Page (Sanitize p) - 1) * PerPage (Sanitize p))%Z).
  { unfold GetOffset. rewrite (wrap_small (Page (Sanitize p) - 1)) by lia.
    apply wrap_small. nia. }
  assert (Hoff0 : (0 ≤ (Page (Sanitize p) - 1) * PerPage (Sanitize p))%Z) by nia.
  repeat split.
  - unfold FindCompletedMatches, CountCompletedMatches.
    rewrite !length_map, length_take, length_drop.
    rewrite (Permutation_length (orderByDateDesc_perm _)). rewrite Hoff.
    set (offset := ((Page (Sanitize p) - 1) * PerPage (Sanitize p))%Z) in *. lia.
  - apply Forall_forall. intros item Hitem.
    apply elem_of_map in Hitem as (match_ & -> & Hmatch).
    unfold FindCompletedMatches in Hmatch.
    apply elem_of_map in Hmatch as (m & -> & Hm).
    apply elem_of_take in Hm as (i & Hm & _).
    rewrite lookup_drop in Hm. apply list_elem_of_lookup_2 in Hm.
    rewrite orderByDateDesc_perm in Hm.
    apply list_elem_of_In, filter_In in Hm as [Hin Hc].
    unfold isCompleted in Hc. apply andb_prop in Hc as [Hlive Hst].
    apply negb_true_iff in Hlive. apply String.eqb_eq in Hst.
    exists m. simpl. split; [by apply list_elem_of_In |]. by repeat split.
Qed.

End reportListProperties.

(** ** Results that come through the handlers *)

Section handlers.

Variable uuid_Parse : string → option N.
Variable isUUID : string → bool.
Variable validationText : option (list GoalInput) → string.

Lemma stored_rows db matchID req resp db' :
  SubmitResult uuid_Parse matchID req db = (inr resp, db') ∨
  UpdateResult uuid_Parse matchID req db = (inr resp, db') →
  ∃ d new, (d = db ∨ d = goalRepo.DeleteByMatchID matchID db) ∧
           goals db' = goals d ++ new ∧
           Forall2 (storesInput uuid_Parse matchID) new (In_Goals req).
Proof.
  intros [Hrun | Hrun].
  - destruct (SubmitResult_cases uuid_Parse db matchID req)
      as [[_ E] | [(? & _ & _ & E) | (match_ & Hrow & _ & Hld & E)]];
      rewrite E in Hrun; try discriminate.
    destruct (processResult_rows uuid_Parse match_ req db matchID resp db' Hrow Hld Hrun)
      as (new & Hg & Hnew & _).
    exists db, new. auto.
  - destruct (UpdateResult_cases uuid_Parse db matchID req)
      as [[_ E] | [(? & _ & _ & E) | (match_ & Hrow & _ & Hld & E)]];
      rewrite E in Hrun; try discriminate.
    destruct (processResult_rows uuid_Parse match_ req
                (goalRepo.DeleteByMatchID matchID db) matchID resp db' Hrow Hld Hrun)
      as (new & Hg & Hnew & _).
    exists (goalRepo.DeleteByMatchID matchID db), new. auto.
Qed.

Lemma bound_minutes id (new : list Goal) (gs : list GoalInput) :
  Forall2 (storesInput uuid_Parse id) new gs →
  forallb (validGoalInput isUUID) gs = true →
  Forall (λ g, (1 ≤ Minute g)%Z) new.
Proof.
  induction 1 as [| g input new gs (_ & _ & _ & Hmin & _) _ IH]; simpl; [constructor |].
  intros Hvalid. apply andb_prop in Hvalid as [Hg Hrest].
  constructor; [| by apply IH].
  unfold validGoalInput, validMinute in Hg. rewrite !andb_true_iff in Hg.
  destruct Hg as (_ & _ & Hle). apply Z.leb_le in Hle. lia.
Qed.

(** X21. A result that the handler of [SubmitResult] or of [UpdateResult]
    accepts has a path parameter that is an identifier and a body with a
    goal list, and every goal row it adds to the table has a minute of at
    least 1. *)
Theorem handler_minutes idParam body db resp db' :
  MatchHandler_SubmitResult uuid_Parse isUUID validationText idParam body db
    = (inr resp, db') ∨
  MatchHandler_UpdateResult uuid_Parse isUUID validationText idParam body db
    = (inr resp, db') →
  ∃ id gs d new,
    uuid_Parse idParam = Some id ∧ body = Some gs ∧
    (d = db ∨ d = goalRepo.DeleteByMatchID id db) ∧
    goals db' = goals d ++ new ∧
    Forall2 (storesInput uuid_Parse id) new gs ∧
    Forall (λ g, (1 ≤ Minute g)%Z) new.
Proof.
  unfold MatchHandler_SubmitResult, MatchHandler_UpdateResult, parseUUID, bind, parsed.
  destruct (uuid_Parse idParam) as [id |]; unfold ret, fail; cbv beta iota;
    [| intros [? | ?]; discriminate].
  unfold ShouldBindJSON.
  destruct body as [gs |]; [| intros [? | ?]; discriminate].
  destruct (forallb (validGoalInput isUUID) gs) eqn:Hvalid;
    [| intros [? | ?]; discriminate].
  intros Hrun.
  destruct (stored_rows db id {| In_Goals := gs |} resp db' Hrun)
    as (d & new & Hd & Hg & Hnew).
  exists id, gs, d, new. repeat split; try done.
  by apply (bound_minutes id new gs).
Qed.

End handlers.

(** ** All or nothing, and what always holds *)

Section guarantees.

Variable uuid_Parse : string → option N.

(** X22. [SubmitResult] is all or nothing: it either fails and leaves the
    store exactly as it was, or succeeds and leaves the match found and
    completed. *)
Theorem SubmitResult_all_or_nothing db matchID req out db' :
  SubmitResult uuid_Parse matchID req db = (out, db') →
  (∃ e, out = inl e ∧ db' = db) ∨
  (∃ resp m', out = inr resp ∧
              matchRepo.findRow matchID db' = Some m' ∧ Status m' = "completed").
Proof.
  intros Hrun. destruct out as [e | resp].
  - left. exists e. split; [done |]. by apply (SubmitResult_failure uuid_Parse db matchID req e).
  - right. destruct (result_reload uuid_Parse db matchID req resp db' (or_introl Hrun))
      as (_ & m' & Hfind & Hc).
    by exists resp, m'.
Qed.

(** X23. From a store that satisfies the invariants and in which the teams
    of every live match are found, whatever operations on matches are
    called, every match that is found has a valid status, two different
    teams that are both found, and, when it is not completed, no live goal
    rows.  (The teams must be found: [Update] on a match one of whose teams
    has been deleted can store the same team on both sides.) *)
Theorem invariants_kept db ops id m :
  wellFormed db → teamsFound db →
  matchRepo.findRow id (run uuid_Parse ops db) = Some m →
  Status m ∈ ValidMatchStatuses ∧
  HomeTeamID m ≠ AwayTeamID m ∧
  is_Some (teamRepo.FindByID (HomeTeamID m) (run uuid_Parse ops db)) ∧
  is_Some (teamRepo.FindByID (AwayTeamID m) (run uuid_Parse ops db)) ∧
  (Status m ≠ "completed" → goalRepo.ofMatch id (run uuid_Parse ops db) = []).
Proof.
  intros Hwf Hfound Hfind.
  destruct (wellFormed_run uuid_Parse ops db Hwf Hfound) as [Hwf' Hfound'].
  destruct (wellFormed_found _ _ _ Hwf' Hfind) as (Hvalid & Hne & Hnone).
  destruct (findRow_Some _ _ _ Hfind) as (_ & Hlive & Hin).
  destruct (Hfound' m Hin Hlive) as [Hh Ha].
  by repeat split.
Qed.

End guarantees.

(** ** Refresh tokens *)

Lemma find_token_deleted t (l : list auth.RefreshToken) :
  List.find (λ r, String.eqb (auth.Token r) t && negb (auth.Token_DeletedAt r))
    (List.filter (λ r, negb (String.eqb (auth.Token r) t)) l) = None.
Proof.
  induction l as [| r l IH]; simpl; [done |].
  destruct (String.eqb (auth.Token r) t) eqn:Hr; simpl; [done |]. by rewrite Hr.
Qed.

Lemma find_token_other t u (l : list auth.RefreshToken) :
  u ≠ t →
  List.find (λ r, String.eqb (auth.Token r) u && negb (auth.Token_DeletedAt r))
    (List.filter (λ r, negb (String.eqb (auth.Token r) t)) l) =
  List.find (λ r, String.eqb (auth.Token r) u && negb (auth.Token_DeletedAt r)) l.
Proof.
  intros Hne. induction l as [| r l IH]; simpl; [done |].
  destruct (String.eqb_spec (auth.Token r) t) as [Hr | Hr]; simpl.
  - destruct (String.eqb_spec (auth.Token r) u) as [| _]; [congruence |]. simpl. exact IH.
  - by rewrite IH.
Qed.

Lemma find_token_app u (l : list auth.RefreshToken) new :
  List.find (λ r, String.eqb (auth.Token r) u && negb (auth.Token_DeletedAt r)) (l ++ [new]) =
  match List.find (λ r, String.eqb (auth.Token r) u && negb (auth.Token_DeletedAt r)) l with
  | Some r => Some r
  | None => if String.eqb (auth.Token new) u && negb (auth.Token_DeletedAt new)
            then Some new else None
  end.
Proof.
  induction l as [| r l IH]; simpl; [done |].
  by destruct (String.eqb (auth.Token r) u && negb (auth.Token_DeletedAt r)).
Qed.

Lemma token_free s (l : list auth.RefreshToken) id :
  existsb (λ r, (auth.Token_ID r =? id)%N || String.eqb (auth.Token r) s) l = false →
  List.find (λ r, String.eqb (auth.Token r) s && negb (auth.Token_DeletedAt r)) l = None.
Proof.
  induction l as [| r l IH]; simpl; [done |].
  intros H. apply orb_false_elim in H as [Hr Hl].
  apply orb_false_elim in Hr as [_ Hr]. rewrite Hr. simpl. auto.
Qed.

(** X24. A refresh token that was used for [Logout] is invalid afterwards:
    every [RefreshToken] call with it is refused with "Invalid refresh
    token" and changes nothing. *)
Theorem Logout_invalidates token db now newAccessToken newID newToken expiresAt :
  let db' := (auth.Logout token db).2 in
  auth.RefreshToken_ now newAccessToken newID newToken expiresAt token db' =
    (inl (auth.ErrUnauthorized "Invalid refresh token"), db').
Proof.
  simpl. unfold auth.RefreshToken_, auth.refreshTokenRepo.FindByToken,
    auth.refreshTokenRepo.DeleteByToken. simpl.
  by rewrite find_token_deleted.
Qed.

(** X25. Refresh tokens rotate: a successful [RefreshToken] call found the
    old token alive and not expired, returns the new token string, stores
    it for the same admin with the new expiry, and leaves every other token
    as it was; when the new string differs from the old one, the old token
    is not found any more. *)
Theorem RefreshToken_rotates now newAccessToken newID newToken expiresAt token db pair db' :
  auth.RefreshToken_ now newAccessToken newID newToken expiresAt token db = (inr pair, db') →
  ∃ old,
    auth.refreshTokenRepo.FindByToken token db = Some old ∧
    (now ≤ auth.ExpiresAt old)%Z ∧
    pair = {| auth.AccessToken := newAccessToken; auth.RefreshTokenString := newToken |} ∧
    auth.refreshTokenRepo.FindByToken newToken db' =
      Some {| auth.Token_ID := newID; auth.AdminID := auth.AdminID old;
              auth.Token := newToken; auth.ExpiresAt := expiresAt;
              auth.Token_DeletedAt := false |} ∧
    (newToken ≠ token → auth.refreshTokenRepo.FindByToken token db' = None) ∧
    (∀ other, other ≠ token → other ≠ newToken →
       auth.refreshTokenRepo.FindByToken other db' =
       auth.refreshTokenRepo.FindByToken other db) ∧
    auth.admins db' = auth.admins db.
Proof.
  unfold auth.RefreshToken_.
  destruct (auth.refreshTokenRepo.FindByToken token db) as [old |] eqn:Hold; [| done].
  unfold auth.IsExpired. destruct (Z.ltb_spec (auth.ExpiresAt old) now) as [| Hlive]; [done |].
  destruct (auth.adminRepo.FindByID (auth.AdminID old) db) as [admin |] eqn:Hadmin; [| done].
  unfold auth.issue, auth.refreshTokenRepo.Create.
  destruct (existsb _ _) eqn:Hfree; [done |]. intros [= <- <-].
  exists old. split; [done |]. split; [lia |]. split; [done |].
  apply find_some in Hadmin as [_ Hid]. apply andb_prop in Hid as [Hid _].
  apply N.eqb_eq in Hid. simpl in Hfree.
  unfold auth.refreshTokenRepo.FindByToken, auth.refreshTokenRepo.DeleteByToken. simpl.
  rewrite !find_token_app. simpl.
  split; [| split; [| split; [| done]]].
  - rewrite (token_free _ _ _ Hfree), String.eqb_refl. simpl. by rewrite Hid.
  - intros Hne. rewrite find_token_deleted.
    by destruct (String.eqb_spec newToken token) as [| _]; [congruence |].
  - intros other Hot Hon. rewrite !find_token_app. simpl.
    rewrite find_token_other by done.
    destruct (List.find _ (auth.refresh_tokens db)); [done |].
    by destruct (String.eqb_spec newToken other) as [| _]; [congruence |].
Qed.

(** X26. A refresh token that is found but expired is refused with
    "Refresh token has expired" and deleted on the spot, so that its next
    use is refused as an invalid token. *)
Theorem RefreshToken_expired now newAccessToken newID newToken expiresAt token db old :
  auth.refreshTokenRepo.FindByToken token db = Some old →
  (auth.ExpiresAt old < now)%Z →
  let db' := auth.refreshTokenRepo.DeleteByToken token db in
  auth.RefreshToken_ now newAccessToken newID newToken expiresAt token db =
    (inl (auth.ErrUnauthorized "Refresh token has expired"), db') ∧
  auth.RefreshToken_ now newAccessToken newID newToken expiresAt token db' =
    (inl (auth.ErrUnauthorized "Invalid refresh token"), db').
Proof.
  intros Hold Hexp. simpl. split.
  - unfold auth.RefreshToken_. rewrite Hold. unfold auth.IsExpired.
    by destruct (Z.ltb_spec (auth.ExpiresAt old) now) as [_ |]; [| lia].
  - unfold auth.RefreshToken_, auth.refreshTokenRepo.FindByToken,
      auth.refreshTokenRepo.DeleteByToken. simpl.
    by rewrite find_token_deleted.
Qed.

Section login.

Variable checkPassword : string → string → bool.

(** X27. [Login] answers an unknown username and a wrong password with the
    same error, "Invalid username or password", and writes nothing in
    either case. *)
Theorem Login_refused accessToken newID newToken expiresAt username password db :
  auth.adminRepo.FindByUsername username db = None ∨
  (∃ admin, auth.adminRepo.FindByUsername username db = Some admin ∧
            checkPassword (auth.Password admin) password = false) →
  auth.Login checkPassword accessToken newID newToken expiresAt username password db =
    (inl (auth.ErrUnauthorized "Invalid username or password"), db).
Proof.
  unfold auth.Login. intros [-> | (admin & -> & ->)]; done.
Qed.

(** X28. A successful [Login] has found a live admin of that name whose
    password matches; it returns this admin with the two tokens and adds
    one refresh token row for the admin, leaving the rows of all other
    sessions in place. *)
Theorem Login_accepted accessToken newID newToken expiresAt username password db pair admin db' :
  auth.Login checkPassword accessToken newID newToken expiresAt username password db =
    (inr (pair, admin), db') →
  auth.adminRepo.FindByUsername username db = Some admin ∧
  checkPassword (auth.Password admin) password = true ∧
  pair = {| auth.AccessToken := accessToken; auth.RefreshTokenString := newToken |} ∧
  auth.refresh_tokens db' =
    auth.refresh_tokens db ++
    [ {| auth.Token_ID := newID; auth.AdminID := auth.Admin_ID admin;
         auth.Token := newToken; auth.ExpiresAt := expiresAt;
         auth.Token_DeletedAt := false |} ] ∧
  auth.refreshTokenRepo.FindByToken newToken db = None ∧
  auth.admins db' = auth.admins db.
Proof.
  unfold auth.Login.
  destruct (auth.adminRepo.FindByUsername username db) as [found |]; [| done].
  destruct (checkPassword (auth.Password found) password) eqn:Hpw; simpl; [| done].
  unfold auth.issue, auth.refreshTokenRepo.Create.
  destruct (existsb _ _) eqn:Hfree; [done |]. intros [= <- <- <-].
  repeat split; try done.
  by apply (token_free _ _ newID).
Qed.

End login.

(** * The further properties on the league *)

Ltac evaluated := vm_compute; reflexivity.

(** [result_accepted_iff] on the scheduled final and a request whose goals
    are valid, one of them in a minute that does not fit the column. *)
Lemma result_accepted_iff_witness :
  let valid := forallb (validGoal league.parse league.db league.final)
                 (In_Goals season.endless) = true in
  let fitting := Forall (λ g, (-2147483648 ≤ In_Minute g ≤ 2147483647)%Z)
                   (In_Goals season.endless) in
  (Status league.final ≠ "completed" →
   ((∃ resp db', SubmitResult league.parse 100 season.endless league.db = (inr resp, db')) ↔
    valid ∧ fitting) ∧
   (valid → ¬ fitting →
    SubmitResult league.parse 100 season.endless league.db =
      (inl (ErrInternal "Internal server error"), league.db))) ∧
  (Status league.final = "completed" →
   ((∃ resp db', UpdateResult league.parse 100 season.endless league.db = (inr resp, db')) ↔
    valid ∧ fitting) ∧
   (valid → ¬ fitting →
    UpdateResult league.parse 100 season.endless league.db =
      (inl (ErrInternal "Internal server error"),
       goalRepo.DeleteByMatchID 100 league.db))).
Proof.
  apply (result_accepted_iff league.parse league.db 100 league.final season.endless).
  reflexivity.
Defined.

(** [result_rows] on the final, submitted as a 2-1. *)
Lemma result_rows_witness :
  ∃ resp db',
    SubmitResult league.parse 100 league.twoOne league.db = (inr resp, db') ∧
    ∃ new, goals db' = goals league.db ++ new ∧
           Forall2 (storesInput league.parse 100) new (In_Goals league.twoOne) ∧
           teams db' = teams league.db ∧ players db' = players league.db.
Proof.
  eexists _, _. split; [evaluated |].
  eapply (proj1 (result_rows league.parse league.db 100 league.twoOne _ _)). evaluated.
Defined.

(** [goal_team_not_in_match] on the final: a goal for Elang after a valid
    one. *)
Lemma goal_team_not_in_match_witness :
  let req := {| In_Goals := [league.goalBy "bambang" "garuda" 10] ++
                            league.goalBy "bambang" "elang" 23 :: [] |} in
  let e := ErrBadRequest (goalMessage 1 "team_id must be either home or away team") in
  (Status league.final ≠ "completed" →
   SubmitResult league.parse 100 req league.db = (inl e, league.db)) ∧
  (Status league.final = "completed" →
   UpdateResult league.parse 100 req league.db =
     (inl e, goalRepo.DeleteByMatchID 100 league.db)).
Proof.
  apply (goal_team_not_in_match league.parse league.db 100 league.final
           [league.goalBy "bambang" "garuda" 10] (league.goalBy "bambang" "elang" 23) []
           11%N 3%N); try reflexivity; discriminate.
Defined.

(** [goal_player_rejected] on the final: a goal of Atep credited to
    Garuda. *)
Lemma goal_player_rejected_witness :
  let req := {| In_Goals := [] ++ season.misplaced :: [] |} in
  let e := match playerRepo.FindByID 12 league.db with
           | None => ErrNotFound (goalMessage 0 "player not found")
           | Some _ => ErrBadRequest
                         (goalMessage 0 "player does not belong to the specified team")
           end in
  (Status league.final ≠ "completed" →
   SubmitResult league.parse 100 req league.db = (inl e, league.db)) ∧
  (Status league.final = "completed" →
   UpdateResult league.parse 100 req league.db =
     (inl e, goalRepo.DeleteByMatchID 100 league.db)).
Proof.
  apply (goal_player_rejected league.parse league.db 100 league.final
           [] season.misplaced [] 12%N 1%N); try reflexivity.
  left. reflexivity.
Defined.

(** [result_then_GetByID] on the final, submitted as a 2-1. *)
Lemma result_then_GetByID_witness :
  ∃ resp db',
    SubmitResult league.parse 100 league.twoOne league.db = (inr resp, db') ∧
    GetByID 100 db' = (inr resp, db').
Proof.
  eexists _, _. split; [evaluated |].
  apply (result_then_GetByID league.parse league.db 100 league.twoOne). left. evaluated.
Defined.

(** [result_is_final] on the final, submitted as a 2-1. *)
Lemma result_is_final_witness :
  (∀ again, SubmitResult league.parse 100 again season.played =
     (inl (ErrBadRequest "Match result already submitted. Use PUT to update."),
      season.played)) ∧
  (∀ schedule, Update league.parse 100 schedule season.played =
     (inl (ErrBadRequest "Cannot update schedule of a completed match"), season.played)).
Proof.
  eapply (result_is_final league.parse league.db 100 league.twoOne).
  left. unfold season.played. evaluated.
Defined.

(** [UpdateResult_replay] on the opener, corrected to a 2-1. *)
Lemma UpdateResult_replay_witness :
  ∃ resp db1 db2,
    UpdateResult league.parse 101 league.twoOne league.db = (inr resp, db1) ∧
    UpdateResult league.parse 101 league.twoOne db1 = (inr resp, db2) ∧
    matches db2 = matches db1 ∧
    goalRepo.ofMatch 101 db2 = goalRepo.ofMatch 101 db1.
Proof.
  assert (H : ∃ resp db1,
            UpdateResult league.parse 101 league.twoOne league.db = (inr resp, db1))
    by (eexists _, _; evaluated).
  destruct H as (resp & db1 & H). exists resp, db1.
  destruct (UpdateResult_replay league.parse league.db 101 league.twoOne resp db1 H)
    as (db2 & H2). by exists db2.
Defined.

(** [Create_same_team] on a match of Garuda against itself. *)
Lemma Create_same_team_witness :
  Create league.parse 102 season.derby league.db =
    (inl (ErrBadRequest "Home team and away team cannot be the same"), league.db).
Proof.
  apply (Create_same_team league.parse league.db 102 season.derby 1%N); reflexivity.
Defined.

(** [Create_scheduled] on a match of Rajawali against Elang. *)
Lemma Create_scheduled_witness :
  ∃ resp db',
    Create league.parse 102 season.rematch league.db = (inr resp, db') ∧
    matchRepo.findRow 102 db' =
      Some {| Match_ID := 102; HomeTeamID := 2; AwayTeamID := 3;
              MatchDate := "2026-06-01"; MatchTime := "20:00";
              HomeScore := 0; AwayScore := 0; Status := "scheduled";
              Match_DeletedAt := false |} ∧
    MR_Status resp = "scheduled".
Proof.
  eexists _, _. split; [evaluated |].
  edestruct (Create_scheduled league.parse league.db 102 season.rematch)
    as (home & away & Hh & Ha & _ & _ & _ & _ & _ & Hfind & _ & Hst & _);
    [evaluated |].
  vm_compute in Hh, Ha. injection Hh as <-. injection Ha as <-.
  split; [exact Hfind | exact Hst].
Defined.

(** [Update_schedule] on the final after Rajawali, its away team, has been
    dissolved: the request names Elang at home against Garuda. *)
Lemma Update_schedule_witness :
  ∃ resp db',
    Update league.parse 100 season.swapped season.dissolved = (inr resp, db') ∧
    ∃ m home away,
      matchRepo.findRow 100 season.dissolved = Some m ∧ Status m ≠ "completed" ∧
      league.parse (Update_HomeTeamID season.swapped) = Some home ∧
      league.parse (Update_AwayTeamID season.swapped) = Some away ∧
      home ≠ away ∧
      is_Some (teamRepo.FindByID home season.dissolved) ∧
      is_Some (teamRepo.FindByID away season.dissolved) ∧
      let home' := match teamRepo.FindByID (HomeTeamID m) season.dissolved with
                   | Some _ => HomeTeamID m
                   | None => home
                   end in
      let away' := match teamRepo.FindByID (AwayTeamID m) season.dissolved with
                   | Some _ => AwayTeamID m
                   | None => away
                   end in
      matchRepo.findRow 100 db' =
        Some {| Match_ID := 100; HomeTeamID := home'; AwayTeamID := away';
                MatchDate := Update_MatchDate season.swapped;
                MatchTime := Update_MatchTime season.swapped;
                HomeScore := HomeScore m; AwayScore := AwayScore m;
                Status := Status m; Match_DeletedAt := false |} ∧
      MR_HomeTeamID resp = home' ∧ MR_AwayTeamID resp = away' ∧
      MR_MatchDate resp = Update_MatchDate season.swapped ∧
      MR_MatchTime resp = Update_MatchTime season.swapped ∧
      goals db' = goals season.dissolved ∧ teams db' = teams season.dissolved.
Proof.
  eexists _, _. split; [evaluated |].
  eapply (Update_schedule league.parse season.dissolved 100 season.swapped). evaluated.
Defined.

(** In the league, where both teams of the final are found, an update that
    asks for Rajawali at home against Garuda moves the date and leaves
    Garuda at home against Rajawali. *)
Example Update_keeps_teams :
  ∃ resp db' m,
    Update league.parse 100 season.postponed league.db = (inr resp, db') ∧
    matchRepo.findRow 100 db' = Some m ∧
    HomeTeamID m = 1%N ∧ AwayTeamID m = 2%N ∧ MatchDate m = "2026-04-01" ∧
    MR_HomeTeamID resp = 1%N ∧ MR_AwayTeamID resp = 2%N.
Proof. vm_compute. eexists _, _, _. by repeat split. Qed.

(** After Rajawali has been dissolved, an update that asks for Elang at
    home against Garuda is accepted and leaves Garuda on both sides of the
    final: Garuda, still found, stays at home, and only the away side gets
    the requested team. *)
Example Update_same_team :
  ∃ resp db' m,
    Update league.parse 100 season.swapped season.dissolved = (inr resp, db') ∧
    matchRepo.findRow 100 db' = Some m ∧
    HomeTeamID m = 1%N ∧ AwayTeamID m = 1%N.
Proof. vm_compute. eexists _, _, _. by repeat split. Qed.

(** [Delete_not_found] on the final. *)
Lemma Delete_not_found_witness :
  ∃ db',
    Delete 100 league.db = (inr tt, db') ∧
    goals db' = goals league.db ∧
    matchRepo.findRow 100 db' = None ∧
    (∀ req, SubmitResult league.parse 100 req db' =
              (inl (ErrNotFound "Match not found"), db')) ∧
    (∀ req, UpdateResult league.parse 100 req db' =
              (inl (ErrNotFound "Match not found"), db')) ∧
    (∀ req, Update league.parse 100 req db' =
              (inl (ErrNotFound "Match not found"), db')) ∧
    GetByID 100 db' = (inl (ErrNotFound "Match not found"), db') ∧
    Delete 100 db' = (inl (ErrNotFound "Match not found"), db').
Proof.
  eexists. split; [evaluated |].
  apply (Delete_not_found league.parse league.db 100). evaluated.
Defined.

(** [report_requires_completed] on the scheduled final. *)
Lemma report_requires_completed_witness :
  GetMatchReportByID league.inKeyOrder 100 league.db =
    (inl (ErrBadRequest "Match has not been completed yet"), league.db).
Proof.
  apply (proj1 (proj2 (report_requires_completed league.inKeyOrder league.db 100))
           league.final); [reflexivity | discriminate].
Defined.

(** [report_goals_ordered] on the report of the played final. *)
Lemma report_goals_ordered_witness :
  ∃ report db',
    GetMatchReportByID league.inKeyOrder 100 season.played = (inr report, db') ∧
    StronglySorted Z.le (RG_Minute <$> Rep_Goals report) ∧
    RG_Minute <$> Rep_Goals report ≡ₚ Minute <$> goalRepo.ofMatch 100 season.played.
Proof.
  eexists _, _. split; [evaluated |].
  eapply (report_goals_ordered league.inKeyOrder season.played 100). evaluated.
Defined.

(** [report_after_result] on the final, submitted as a 2-1. *)
Lemma report_after_result_witness :
  ∃ report,
    GetMatchReportByID league.inKeyOrder 100 season.played = (inr report, season.played) ∧
    Rep_HomeScore report = goalsFor league.parse 1 (In_Goals league.twoOne) ∧
    Rep_AwayScore report = goalsFor league.parse 2 (In_Goals league.twoOne) ∧
    (Rep_HomeScore report + Rep_AwayScore report)%Z =
      Z.of_nat (length (Rep_Goals report)) ∧
    MatchResult report =
      computeMatchResult (Rep_HomeScore report) (Rep_AwayScore report).
Proof.
  eapply (report_after_result league.parse league.inKeyOrder league.db 100 league.final
            league.twoOne).
  - exact league_wellFormed.
  - reflexivity.
  - left. unfold season.played. evaluated.
Defined.

(** [topScorer_first_visited] on the goals of the played final. *)
Lemma topScorer_first_visited_witness :
  ∃ top before p pg after,
    topScorerOf league.inKeyOrder (tally season.finalGoals) = Some top ∧
    league.inKeyOrder (tally season.finalGoals) = before ++ (p, pg) :: after ∧
    top = toTopScorer pg ∧
    GoalsInMatch top = goalsOf p season.finalGoals ∧
    Forall (λ e, (goalsOf e.1 season.finalGoals < GoalsInMatch top)%Z) before ∧
    Forall (λ e, (goalsOf e.1 season.finalGoals ≤ GoalsInMatch top)%Z) after.
Proof.
  eexists. 
  assert (H : topScorerOf league.inKeyOrder (tally season.finalGoals) =
              Some {| TS_PlayerName := "Bambang"; TS_TeamName := "Garuda";
                      GoalsInMatch := 2 |}) by evaluated.
  destruct (topScorer_first_visited league.inKeyOrder (λ m, reflexivity _)
              season.finalGoals _ H) as (before & p & pg & after & Hrest).
  exists before, p, pg, after. split; [exact H | exact Hrest].
Defined.

(** [wins_after_result] for Garuda on the final, submitted as a 2-1. *)
Lemma wins_after_result_witness :
  ∃ resp,
    SubmitResult league.parse 100 league.twoOne league.db = (inr resp, season.played) ∧
    (matchRepo.CountWins 1 season.played +
     (if matchRepo.isWin 1 league.final then 1 else 0) =
     matchRepo.CountWins 1 league.db +
     (if ((HomeTeamID league.final =? 1)%N && (MR_HomeScore resp >? MR_AwayScore resp)%Z) ||
         ((AwayTeamID league.final =? 1)%N && (MR_AwayScore resp >? MR_HomeScore resp)%Z)
      then 1 else 0))%Z ∧
    (SubmitResult league.parse 100 league.twoOne league.db = (inr resp, season.played) →
     matchRepo.isWin 1 league.final = false).
Proof.
  eexists. split; [unfold season.played; evaluated |].
  eapply (wins_after_result league.parse league.db 100 league.final league.twoOne).
  - apply NoDup_ListNoDup. vm_compute. repeat constructor; simpl; intuition discriminate.
  - reflexivity.
  - left. unfold season.played. evaluated.
Defined.

(** [result_leaves_others]: the final, submitted as a 2-1, leaves the
    opener alone. *)
Lemma result_leaves_others_witness :
  matchRepo.findRow 101 season.played = matchRepo.findRow 101 league.db ∧
  goalRepo.ofMatch 101 season.played = goalRepo.ofMatch 101 league.db ∧
  teams season.played = teams league.db ∧ players season.played = players league.db.
Proof.
  eapply (result_leaves_others league.parse league.db 100 league.twoOne).
  - left. unfold season.played. evaluated.
  - discriminate.
Defined.

(** [totalPagesOf_ceiling] on 25 rows in pages of 10. *)
Lemma totalPagesOf_ceiling_witness :
  ((totalPagesOf 25 10 - 1) * 10 < 25 ≤ totalPagesOf 25 10 * 10)%Z ∧
  (totalPagesOf 25 10 = 0%Z ↔ 25%Z = 0%Z).
Proof. apply (totalPagesOf_ceiling 25 10); lia. Defined.

(** [GetMatchReports_page] on the first page of the played league. *)
Lemma GetMatchReports_page_witness :
  ∃ items meta,
    GetMatchReports String.leb season.firstPage season.played =
      (inr (items, meta), season.played) ∧
    Meta_Page meta = Page (Sanitize season.firstPage) ∧
    Meta_PerPage meta = PerPage (Sanitize season.firstPage) ∧
    Total meta = CountCompletedMatches season.played ∧
    TotalPages meta = totalPagesOf (Total meta) (Meta_PerPage meta) ∧
    Z.of_nat (length items) =
      Z.min (Meta_PerPage meta)
            (Z.max 0 (Total meta - (Meta_Page meta - 1) * Meta_PerPage meta)) ∧
    Forall (λ item, ∃ m, m ∈ matches season.played ∧
                         Match_DeletedAt m = false ∧ Status m = "completed" ∧
                         Item_MatchID item = Match_ID m ∧
                         Item_HomeScore item = HomeScore m ∧
                         Item_AwayScore item = AwayScore m ∧
                         Item_MatchResult item =
                           computeMatchResult (HomeScore m) (AwayScore m)) items.
Proof.
  apply (GetMatchReports_page String.leb season.firstPage season.played).
  simpl. lia.
Defined.

(** [handler_minutes] on the 2-1 sent to the handler for the final. *)
Lemma handler_minutes_witness :
  ∃ resp db' id gs d new,
    MatchHandler_SubmitResult league.parse league.isName league.text
      "final" (Some (In_Goals league.twoOne)) league.db = (inr resp, db') ∧
    league.parse "final" = Some id ∧ Some (In_Goals league.twoOne) = Some gs ∧
    (d = league.db ∨ d = goalRepo.DeleteByMatchID id league.db) ∧
    goals db' = goals d ++ new ∧
    Forall2 (storesInput league.parse id) new gs ∧
    Forall (λ g, (1 ≤ Minute g)%Z) new.
Proof.
  assert (H : ∃ resp db',
            MatchHandler_SubmitResult league.parse league.isName league.text
              "final" (Some (In_Goals league.twoOne)) league.db = (inr resp, db'))
    by (eexists _, _; evaluated).
  destruct H as (resp & db' & H).
  destruct (handler_minutes league.parse league.isName league.text "final"
              (Some (In_Goals league.twoOne)) league.db resp db' (or_introl H))
    as (id & gs & d & new & Hrest).
  exists resp, db', id, gs, d, new. split; [exact H | exact Hrest].
Defined.

(** [SubmitResult_all_or_nothing] on a goal credited to a team outside the
    final. *)
Lemma SubmitResult_all_or_nothing_witness :
  ∃ out db',
    SubmitResult league.parse 100 league.stranger league.db = (out, db') ∧
    ((∃ e, out = inl e ∧ db' = league.db) ∨
     (∃ resp m', out = inr resp ∧
                 matchRepo.findRow 100 db' = Some m' ∧ Status m' = "completed")).
Proof.
  eexists _, _. split; [evaluated |].
  eapply (SubmitResult_all_or_nothing league.parse league.db 100 league.stranger).
  evaluated.
Defined.

(** [invariants_kept] on the final after it was moved and played. *)
Lemma invariants_kept_witness :
  let ops := [OpUpdate 100 season.postponed; OpSubmitResult 100 league.twoOne] in
  ∃ m, matchRepo.findRow 100 (run league.parse ops league.db) = Some m ∧
       Status m ∈ ValidMatchStatuses ∧
       HomeTeamID m ≠ AwayTeamID m ∧
       is_Some (teamRepo.FindByID (HomeTeamID m) (run league.parse ops league.db)) ∧
       is_Some (teamRepo.FindByID (AwayTeamID m) (run league.parse ops league.db)) ∧
       (Status m ≠ "completed" →
        goalRepo.ofMatch 100 (run league.parse ops league.db) = []).
Proof.
  intros ops. eexists. split; [evaluated |].
  eapply (invariants_kept league.parse league.db ops 100).
  - exact league_wellFormed.
  - exact league_teamsFound.
  - evaluated.
Defined.

(** [RefreshToken_rotates] on the one session of the admin. *)
Lemma RefreshToken_rotates_witness :
  ∃ pair db' old,
    auth.RefreshToken_ 500 "access" 8 "second" 2000 "first" season.sessions
      = (inr pair, db') ∧
    auth.refreshTokenRepo.FindByToken "first" season.sessions = Some old ∧
    (500 ≤ auth.ExpiresAt old)%Z ∧
    pair = {| auth.AccessToken := "access"; auth.RefreshTokenString := "second" |} ∧
    auth.refreshTokenRepo.FindByToken "second" db' =
      Some {| auth.Token_ID := 8; auth.AdminID := auth.AdminID old;
              auth.Token := "second"; auth.ExpiresAt := 2000;
              auth.Token_DeletedAt := false |} ∧
    ("second" ≠ "first" → auth.refreshTokenRepo.FindByToken "first" db' = None) ∧
    (∀ other, other ≠ "first" → other ≠ "second" →
       auth.refreshTokenRepo.FindByToken other db' =
       auth.refreshTokenRepo.FindByToken other season.sessions) ∧
    auth.admins db' = auth.admins season.sessions.
Proof.
  assert (H : ∃ pair db',
            auth.RefreshToken_ 500 "access" 8 "second" 2000 "first" season.sessions
              = (inr pair, db')) by (eexists _, _; evaluated).
  destruct H as (pair & db' & H).
  destruct (RefreshToken_rotates 500 "access" 8 "second" 2000 "first" season.sessions
              pair db' H) as (old & Hrest).
  exists pair, db', old. split; [exact H | exact Hrest].
Defined.

(** [RefreshToken_expired] on the session, used after its expiry. *)
Lemma RefreshToken_expired_witness :
  let db' := auth.refreshTokenRepo.DeleteByToken "first" season.sessions in
  auth.RefreshToken_ 2000 "access" 8 "second" 3000 "first" season.sessions =
    (inl (auth.ErrUnauthorized "Refresh token has expired"), db') ∧
  auth.RefreshToken_ 2000 "access" 8 "second" 3000 "first" db' =
    (inl (auth.ErrUnauthorized "Invalid refresh token"), db').
Proof.
  apply (RefreshToken_expired 2000 "access" 8 "second" 3000 "first" season.sessions
           season.session); [reflexivity | simpl; lia].
Defined.

(** [Login_refused] on a wrong password. *)
Lemma Login_refused_witness :
  auth.Login season.samePassword "access" 8 "second" 2000 "admin" "guess" season.sessions =
    (inl (auth.ErrUnauthorized "Invalid username or password"), season.sessions).
Proof.
  apply (Login_refused season.samePassword "access" 8 "second" 2000 "admin" "guess"
           season.sessions).
  right. exists season.admin. split; reflexivity.
Defined.

(** [Login_accepted] on the right password. *)
Lemma Login_accepted_witness :
  ∃ pair admin db',
    auth.Login season.samePassword "access" 8 "second" 2000 "admin" "secret"
      season.sessions = (inr (pair, admin), db') ∧
    auth.adminRepo.FindByUsername "admin" season.sessions = Some admin ∧
    season.samePassword (auth.Password admin) "secret" = true ∧
    pair = {| auth.AccessToken := "access"; auth.RefreshTokenString := "second" |} ∧
    auth.refresh_tokens db' =
      auth.refresh_tokens season.sessions ++
      [ {| auth.Token_ID := 8; auth.AdminID := auth.Admin_ID admin;
           auth.Token := "second"; auth.ExpiresAt := 2000;
           auth.Token_DeletedAt := false |} ] ∧
    auth.refreshTokenRepo.FindByToken "second" season.sessions = None ∧
    auth.admins db' = auth.admins season.sessions.
Proof.
  eexists _, _, _. split; [evaluated |].
  eapply (Login_accepted season.samePassword "access" 8 "second" 2000 "admin" "secret"
            season.sessions).
  evaluated.
Defined.
